(** * volk_32f_log2_32f: base-2 logarithm kernels over binary32 arrays

    A shallow embedding of [kernels/volk/volk_32f_log2_32f.h].  Memory cells
    hold the 32-bit patterns of C [float]s; arithmetic on them is IEEE-754
    binary32 with round-to-nearest-even, taken from the Standard Library's
    [SpecFloat] at precision 24 and maximal exponent 128. *)

From Stdlib Require Import ZArith QArith Qabs Bool Lia.
From Stdlib Require Import Reals Lra.
From Stdlib Require Import Floats.SpecFloat.
From stdpp Require Import base option list.

Local Open Scope Z_scope.

(** ** binary32 values and their bit patterns *)

(** The 32-bit pattern of a float: sign bit 31, biased exponent in bits
    30..23, significand field in bits 22..0. *)
Definition bits := Z.

Module F32.

Definition prec : Z := 24.
Definition emax : Z := 128.

Definition sign_field (b : bits) : bool := Z.testbit b 31.
Definition exp_field (b : bits) : Z := Z.land (Z.shiftr b 23) 255.
Definition frac_field (b : bits) : Z := Z.land b 8388607.

Definition to_sf (b : bits) : spec_float :=
  let s := sign_field b in
  let e := exp_field b in
  let m := frac_field b in
  if e =? 0 then
    match m with
    | Zpos p => S754_finite s p (-149)
    | _ => S754_zero s
    end
  else if e =? 255 then
    (if m =? 0 then S754_infinity s else S754_nan)
  else
    match m + 8388608 with
    | Zpos p => S754_finite s p (e - 150)
    | _ => S754_nan
    end.

Definition sign_bit (s : bool) : Z := if s then 2147483648 else 0.

(** A NaN is written back as the positive quiet NaN; no kernel lane ever
    produces one. *)
Definition of_sf (x : spec_float) : bits :=
  match x with
  | S754_zero s => sign_bit s
  | S754_infinity s => sign_bit s + 2139095040
  | S754_nan => 2143289344
  | S754_finite s m e =>
      if Zpos m <? 8388608 then sign_bit s + Zpos m
      else sign_bit s + Z.shiftl (e + 150) 23 + (Zpos m - 8388608)
  end.

Definition add (a b : bits) : bits := of_sf (SFadd prec emax (to_sf a) (to_sf b)).
Definition sub (a b : bits) : bits := of_sf (SFsub prec emax (to_sf a) (to_sf b)).
Definition mul (a b : bits) : bits := of_sf (SFmul prec emax (to_sf a) (to_sf b)).

(** Fused multiply-add [a * b + c] with one rounding.  [SpecFloat] has no
    such operation; the finite case forms the exact product, aligns it with
    [c] and rounds once, the special cases follow IEEE-754. *)
Definition SFfma (x y z : spec_float) : spec_float :=
  match x, y with
  | S754_nan, _ | _, S754_nan => S754_nan
  | S754_infinity _, S754_zero _ | S754_zero _, S754_infinity _ => S754_nan
  | S754_infinity sx, S754_infinity sy
  | S754_infinity sx, S754_finite sy _ _
  | S754_finite sx _ _, S754_infinity sy =>
      match z with
      | S754_nan => S754_nan
      | S754_infinity sz =>
          if eqb (xorb sx sy) sz then z else S754_nan
      | _ => S754_infinity (xorb sx sy)
      end
  | S754_zero sx, S754_zero sy
  | S754_zero sx, S754_finite sy _ _
  | S754_finite sx _ _, S754_zero sy =>
      match z with
      | S754_zero sz =>
          if eqb (xorb sx sy) sz then z else S754_zero false
      | _ => z
      end
  | S754_finite sx mx ex, S754_finite sy my ey =>
      match z with
      | S754_nan => S754_nan
      | S754_infinity _ => z
      | S754_zero _ =>
          binary_round_aux prec emax (xorb sx sy) (Zpos (mx * my)) (ex + ey) loc_Exact
      | S754_finite sz mz ez =>
          let ep := ex + ey in
          let e := Z.min ep ez in
          binary_normalize prec emax
            (cond_Zopp (xorb sx sy) (Zpos (fst (shl_align (mx * my) ep e)))
             + cond_Zopp sz (Zpos (fst (shl_align mz ez e))))
            e false
      end
  end.

Definition fma (a b c : bits) : bits := of_sf (SFfma (to_sf a) (to_sf b) (to_sf c)).

(** A decimal literal [num / den] with the suffix [f]: the nearest
    binary32 value. *)
Definition lit (num : Z) (den : positive) : bits :=
  match num with
  | Z0 => 0
  | Zpos n => of_sf (SFdiv prec emax (S754_finite false n 0) (S754_finite false den 0))
  | Zneg n => of_sf (SFdiv prec emax (S754_finite true n 0) (S754_finite false den 0))
  end.

(** A decimal literal without suffix is a [double]; passing it where a
    [float] is expected rounds a second time. *)
Definition lit_double (num : Z) (den : positive) : bits :=
  let d := match num with
           | Z0 => S754_zero false
           | Zpos n => SFdiv 53 1024 (S754_finite false n 0) (S754_finite false den 0)
           | Zneg n => SFdiv 53 1024 (S754_finite true n 0) (S754_finite false den 0)
           end in
  match d with
  | S754_finite s m e => of_sf (binary_round prec emax s m e)
  | _ => of_sf d
  end.

(** Conversion of an integer, and of a fixed-point integer with [n]
    fractional bits, to the nearest float. *)
Definition of_Z (v : Z) : bits := of_sf (binary_normalize prec emax v 0 false).
Definition of_fixed (v : Z) (n : Z) : bits := of_sf (binary_normalize prec emax v (- n) false).

Definition pos_inf : bits := 2139095040.
Definition neg_inf : bits := 4286578688.

End F32.

Arguments F32.lit : simpl never.
Arguments F32.lit_double : simpl never.
Arguments F32.add : simpl never.
Arguments F32.sub : simpl never.
Arguments F32.mul : simpl never.
Arguments F32.fma : simpl never.
Arguments F32.of_Z : simpl never.
Arguments F32.of_fixed : simpl never.

(** ** Memory and effects

    A kernel reads the caller's input buffer and writes the caller's output
    buffer.  A pointer is an element offset into its buffer; [in_base] and
    [out_base] are the byte addresses of the two buffers, which only the
    aligned loads and stores look at.  Any access outside a buffer, and any
    aligned access at a misaligned address, is undefined behaviour in C and
    is [None] here.  [stores] is a ghost record of the stores performed, in
    program order: the first cell written and the number of cells. *)

Record mem := Mem {
  in_base : Z;
  in_cells : list bits;
  out_base : Z;
  out_cells : list bits;
  stores : list (nat * nat)
}.

Definition M (A : Type) : Type := mem -> option (A * mem).

Definition ret {A} (x : A) : M A := fun m => Some (x, m).

Definition bind {A B} (c : M A) (k : A -> M B) : M B :=
  fun m => match c m with
           | Some (x, m') => k x m'
           | None => None
           end.

Definition undefined {A} : M A := fun _ => None.

Declare Scope kernel_scope.
Delimit Scope kernel_scope with kernel.
Notation "'let*' p ':=' c 'in' k" := (bind c (fun p => k))
  (at level 10, p pattern, c at level 100, k at level 200) : kernel_scope.
Local Open Scope kernel_scope.

Definition is_aligned (align base : Z) (p : nat) : bool :=
  (base + 4 * Z.of_nat p) mod align =? 0.

(** [W] consecutive cells of the input, starting at [p]. *)
Definition load_vec (W : nat) (align : option Z) (p : nat) : M (list bits) :=
  fun m =>
    if match align with
       | Some al => is_aligned al (in_base m) p
       | None => true
       end
    then
      if decide (p + W <= length (in_cells m))%nat
      then Some (take W (drop p (in_cells m)), m)
      else None
    else None.

Definition store_vec (W : nat) (align : option Z) (p : nat) (v : list bits) : M unit :=
  fun m =>
    if match align with
       | Some al => is_aligned al (out_base m) p
       | None => true
       end
    then
      if decide (p + W <= length (out_cells m))%nat
      then Some (tt, Mem (in_base m) (in_cells m) (out_base m)
                       (take p (out_cells m) ++ take W v ++ drop (p + W) (out_cells m))
                       (stores m ++ [(p, W)]))
      else None
    else None.

(** [*aPtr] and [*bPtr = x]. *)
Definition load_cell (p : nat) : M bits :=
  fun m => match in_cells m !! p with
           | Some x => Some (x, m)
           | None => None
           end.

Definition store_cell (p : nat) (x : bits) : M unit :=
  fun m =>
    if decide (p < length (out_cells m))%nat
    then Some (tt, Mem (in_base m) (in_cells m) (out_base m)
                     (<[p := x]> (out_cells m)) (stores m ++ [(p, 1%nat)]))
    else None.

(** [for (; number < n; number++) body], the loop-carried locals in [x]. *)
Fixpoint for_loop {A} (n : nat) (body : A -> M A) (x : A) : M A :=
  match n with
  | O => ret x
  | S k => let* x' := body x in for_loop k body x'
  end.

(** ** Integer lanes *)

Definition wrap32 (v : Z) : Z := v mod 4294967296.
Definition signed32 (v : Z) : Z :=
  if wrap32 v <? 2147483648 then wrap32 v else wrap32 v - 4294967296.

(** ** SSE4.1 intrinsics, four lanes *)

Definition _mm_load_ps := load_vec 4 (Some 16).
Definition _mm_loadu_ps := load_vec 4 None.
Definition _mm_store_ps := store_vec 4 (Some 16).
Definition _mm_storeu_ps := store_vec 4 None.
Definition _mm_set1_epi32 (c : Z) : list Z := replicate 4 (wrap32 c).
Definition _mm_set1_ps (c : bits) : list bits := replicate 4 c.
Definition _mm_castps_si128 (v : list bits) : list Z := v.
Definition _mm_castsi128_ps (v : list Z) : list bits := v.
Definition _mm_and_si128 : list Z -> list Z -> list Z := zip_with Z.land.
Definition _mm_srli_epi32 (v : list Z) (n : Z) : list Z := (fun x => Z.shiftr x n) <$> v.
Definition _mm_sub_epi32 : list Z -> list Z -> list Z := zip_with (fun x y => wrap32 (x - y)).
Definition _mm_cvtepi32_ps (v : list Z) : list bits := (fun x => F32.of_Z (signed32 x)) <$> v.
Definition _mm_and_ps : list bits -> list bits -> list bits := zip_with Z.land.
Definition _mm_or_ps : list bits -> list bits -> list bits := zip_with Z.lor.
Definition _mm_add_ps : list bits -> list bits -> list bits := zip_with F32.add.
Definition _mm_sub_ps : list bits -> list bits -> list bits := zip_with F32.sub.
Definition _mm_mul_ps : list bits -> list bits -> list bits := zip_with F32.mul.

(** ** AVX2 and FMA intrinsics, eight lanes *)

Definition _mm256_load_ps := load_vec 8 (Some 32).
Definition _mm256_loadu_ps := load_vec 8 None.
Definition _mm256_store_ps := store_vec 8 (Some 32).
Definition _mm256_storeu_ps := store_vec 8 None.
Definition _mm256_set1_epi32 (c : Z) : list Z := replicate 8 (wrap32 c).
Definition _mm256_set1_ps (c : bits) : list bits := replicate 8 c.
Definition _mm256_castps_si256 (v : list bits) : list Z := v.
Definition _mm256_castsi256_ps (v : list Z) : list bits := v.
Definition _mm256_and_si256 : list Z -> list Z -> list Z := zip_with Z.land.
Definition _mm256_srli_epi32 (v : list Z) (n : Z) : list Z := (fun x => Z.shiftr x n) <$> v.
Definition _mm256_sub_epi32 : list Z -> list Z -> list Z := zip_with (fun x y => wrap32 (x - y)).
Definition _mm256_cvtepi32_ps (v : list Z) : list bits := (fun x => F32.of_Z (signed32 x)) <$> v.
Definition _mm256_and_ps : list bits -> list bits -> list bits := zip_with Z.land.
Definition _mm256_or_ps : list bits -> list bits -> list bits := zip_with Z.lor.
Definition _mm256_add_ps : list bits -> list bits -> list bits := zip_with F32.add.
Definition _mm256_sub_ps : list bits -> list bits -> list bits := zip_with F32.sub.
Definition _mm256_mul_ps : list bits -> list bits -> list bits := zip_with F32.mul.
Definition _mm256_fmadd_ps (a b c : list bits) : list bits :=
  zip_with (fun ab z => F32.fma (fst ab) (snd ab) z) (zip a b) c.

(** ** NEON intrinsics, four lanes; [int32x4_t] lanes are signed *)

Definition vld1q_s32 (p : nat) : M (list Z) :=
  let* v := load_vec 4 None p in ret (signed32 <$> v).
Definition vst1q_f32 := store_vec 4 None.
Definition vdupq_n_s32 (c : Z) : list Z := replicate 4 (signed32 c).
Definition vdupq_n_f32 (c : bits) : list bits := replicate 4 c.
Definition vandq_s32 : list Z -> list Z -> list Z := zip_with Z.land.
Definition vorrq_s32 : list Z -> list Z -> list Z := zip_with Z.lor.
Definition vshrq_n_s32 (v : list Z) (n : Z) : list Z := (fun x => Z.shiftr x n) <$> v.
Definition vsubq_s32 : list Z -> list Z -> list Z := zip_with (fun x y => signed32 (x - y)).
Definition vcvtq_f32_s32 (v : list Z) : list bits := F32.of_Z <$> v.
Definition vcvtq_n_f32_s32 (v : list Z) (n : Z) : list bits := (fun x => F32.of_fixed x n) <$> v.
Definition vaddq_f32 : list bits -> list bits -> list bits := zip_with F32.add.
Definition vmulq_f32 : list bits -> list bits -> list bits := zip_with F32.mul.

(** ** The kernels *)

Section Kernels.

(** [log2f] of the platform's [<math.h>], on bit patterns. *)
Variable log2f : bits -> bits.

(** [isinf] and [copysignf] of [<math.h>]. *)
Definition isinf (x : bits) : bool :=
  match F32.to_sf x with
  | S754_infinity _ => true
  | _ => false
  end.

Definition copysignf (x y : bits) : bits :=
  Z.land x 0x7fffffff + F32.sign_bit (F32.sign_field y).

Definition log2f_non_ieee (f : bits) : bits :=
  let result := log2f f in
  if isinf result then copysignf (F32.lit 127 1) result else result.

Definition volk_32f_log2_32f_generic (bVector aVector : nat) (num_points : nat) : M unit :=
  let bPtr := bVector in
  let aPtr := aVector in
  let* _ := for_loop num_points
              (fun '(bPtr, aPtr) =>
                 let* a := load_cell aPtr in
                 let* _ := store_cell bPtr (log2f_non_ieee a) in
                 ret (S bPtr, S aPtr))
              (bPtr, aPtr) in
  ret tt.

Definition volk_32f_log2_32f_u_generic (bVector aVector : nat) (num_points : nat) : M unit :=
  let bPtr := bVector in
  let aPtr := aVector in
  let* _ := for_loop num_points
              (fun '(bPtr, aPtr) =>
                 let* a := load_cell aPtr in
                 let result := log2f a in
                 let* _ := store_cell bPtr
                             (if isinf result then F32.lit (-127) 1 else result) in
                 ret (S bPtr, S aPtr))
              (bPtr, aPtr) in
  ret tt.

(** *** AVX2 with FMA *)

Definition POLY0_FMAAVX2 (x : list bits) c0 := _mm256_set1_ps c0.
Definition POLY1_FMAAVX2 x c0 c1 :=
  _mm256_fmadd_ps (POLY0_FMAAVX2 x c1) x (_mm256_set1_ps c0).
Definition POLY2_FMAAVX2 x c0 c1 c2 :=
  _mm256_fmadd_ps (POLY1_FMAAVX2 x c1 c2) x (_mm256_set1_ps c0).
Definition POLY3_FMAAVX2 x c0 c1 c2 c3 :=
  _mm256_fmadd_ps (POLY2_FMAAVX2 x c1 c2 c3) x (_mm256_set1_ps c0).
Definition POLY4_FMAAVX2 x c0 c1 c2 c3 c4 :=
  _mm256_fmadd_ps (POLY3_FMAAVX2 x c1 c2 c3 c4) x (_mm256_set1_ps c0).
Definition POLY5_FMAAVX2 x c0 c1 c2 c3 c4 c5 :=
  _mm256_fmadd_ps (POLY4_FMAAVX2 x c1 c2 c3 c4 c5) x (_mm256_set1_ps c0).

(** The loop body between the load and the store; [LOG_POLY_DEGREE] is 6. *)
Definition avx2_fma_lanes (aVal : list bits) : list bits :=
  let bias := _mm256_set1_epi32 127 in
  let leadingOne := _mm256_set1_ps (F32.lit 1 1) in
  let exp := _mm256_sub_epi32
               (_mm256_srli_epi32
                  (_mm256_and_si256 (_mm256_castps_si256 aVal)
                                    (_mm256_set1_epi32 0x7f800000))
                  23)
               bias in
  let bVal := _mm256_cvtepi32_ps exp in
  let frac := _mm256_or_ps
                leadingOne
                (_mm256_and_ps aVal (_mm256_castsi256_ps (_mm256_set1_epi32 0x7fffff))) in
  let mantissa := POLY5_FMAAVX2 frac
                    (F32.lit 31157899 10000000)
                    (F32.lit (-33241990) 10000000)
                    (F32.lit 25988452 10000000)
                    (F32.lit (-12315303) 10000000)
                    (F32.lit 31821337 100000000)
                    (F32.lit (-34436006) 1000000000) in
  _mm256_fmadd_ps mantissa (_mm256_sub_ps frac leadingOne) bVal.

Definition volk_32f_log2_32f_a_avx2_fma (bVector aVector : nat) (num_points : nat) : M unit :=
  let bPtr := bVector in
  let aPtr := aVector in
  let eighthPoints := (num_points / 8)%nat in
  let* (bPtr, aPtr) :=
    for_loop eighthPoints
      (fun '(bPtr, aPtr) =>
         let* aVal := _mm256_load_ps aPtr in
         let bVal := avx2_fma_lanes aVal in
         let* _ := _mm256_store_ps bPtr bVal in
         ret (bPtr + 8, aPtr + 8)%nat)
      (bPtr, aPtr) in
  let number := (eighthPoints * 8)%nat in
  volk_32f_log2_32f_generic bPtr aPtr (num_points - number).

Definition volk_32f_log2_32f_u_avx2_fma (bVector aVector : nat) (num_points : nat) : M unit :=
  let bPtr := bVector in
  let aPtr := aVector in
  let eighthPoints := (num_points / 8)%nat in
  let* (bPtr, aPtr) :=
    for_loop eighthPoints
      (fun '(bPtr, aPtr) =>
         let* aVal := _mm256_loadu_ps aPtr in
         let bVal := avx2_fma_lanes aVal in
         let* _ := _mm256_storeu_ps bPtr bVal in
         ret (bPtr + 8, aPtr + 8)%nat)
      (bPtr, aPtr) in
  let number := (eighthPoints * 8)%nat in
  volk_32f_log2_32f_u_generic bPtr aPtr (num_points - number).

(** *** AVX2 *)

Definition POLY0_AVX2 (x : list bits) c0 := _mm256_set1_ps c0.
Definition POLY1_AVX2 x c0 c1 :=
  _mm256_add_ps (_mm256_mul_ps (POLY0_AVX2 x c1) x) (_mm256_set1_ps c0).
Definition POLY2_AVX2 x c0 c1 c2 :=
  _mm256_add_ps (_mm256_mul_ps (POLY1_AVX2 x c1 c2) x) (_mm256_set1_ps c0).
Definition POLY3_AVX2 x c0 c1 c2 c3 :=
  _mm256_add_ps (_mm256_mul_ps (POLY2_AVX2 x c1 c2 c3) x) (_mm256_set1_ps c0).
Definition POLY4_AVX2 x c0 c1 c2 c3 c4 :=
  _mm256_add_ps (_mm256_mul_ps (POLY3_AVX2 x c1 c2 c3 c4) x) (_mm256_set1_ps c0).
Definition POLY5_AVX2 x c0 c1 c2 c3 c4 c5 :=
  _mm256_add_ps (_mm256_mul_ps (POLY4_AVX2 x c1 c2 c3 c4 c5) x) (_mm256_set1_ps c0).

Definition avx2_lanes (aVal : list bits) : list bits :=
  let bias := _mm256_set1_epi32 127 in
  let leadingOne := _mm256_set1_ps (F32.lit 1 1) in
  let exp := _mm256_sub_epi32
               (_mm256_srli_epi32
                  (_mm256_and_si256 (_mm256_castps_si256 aVal)
                                    (_mm256_set1_epi32 0x7f800000))
                  23)
               bias in
  let bVal := _mm256_cvtepi32_ps exp in
  let frac := _mm256_or_ps
                leadingOne
                (_mm256_and_ps aVal (_mm256_castsi256_ps (_mm256_set1_epi32 0x7fffff))) in
  let mantissa := POLY5_AVX2 frac
                    (F32.lit 31157899 10000000)
                    (F32.lit (-33241990) 10000000)
                    (F32.lit 25988452 10000000)
                    (F32.lit (-12315303) 10000000)
                    (F32.lit 31821337 100000000)
                    (F32.lit (-34436006) 1000000000) in
  _mm256_add_ps (_mm256_mul_ps mantissa (_mm256_sub_ps frac leadingOne)) bVal.

Definition volk_32f_log2_32f_a_avx2 (bVector aVector : nat) (num_points : nat) : M unit :=
  let bPtr := bVector in
  let aPtr := aVector in
  let eighthPoints := (num_points / 8)%nat in
  let* (bPtr, aPtr) :=
    for_loop eighthPoints
      (fun '(bPtr, aPtr) =>
         let* aVal := _mm256_load_ps aPtr in
         let bVal := avx2_lanes aVal in
         let* _ := _mm256_store_ps bPtr bVal in
         ret (bPtr + 8, aPtr + 8)%nat)
      (bPtr, aPtr) in
  let number := (eighthPoints * 8)%nat in
  volk_32f_log2_32f_generic bPtr aPtr (num_points - number).

Definition volk_32f_log2_32f_u_avx2 (bVector aVector : nat) (num_points : nat) : M unit :=
  let bPtr := bVector in
  let aPtr := aVector in
  let eighthPoints := (num_points / 8)%nat in
  let* (bPtr, aPtr) :=
    for_loop eighthPoints
      (fun '(bPtr, aPtr) =>
         let* aVal := _mm256_loadu_ps aPtr in
         let bVal := avx2_lanes aVal in
         let* _ := _mm256_storeu_ps bPtr bVal in
         ret (bPtr + 8, aPtr + 8)%nat)
      (bPtr, aPtr) in
  let number := (eighthPoints * 8)%nat in
  volk_32f_log2_32f_u_generic bPtr aPtr (num_points - number).

(** *** SSE4.1 *)

Definition POLY0 (x : list bits) c0 := _mm_set1_ps c0.
Definition POLY1 x c0 c1 := _mm_add_ps (_mm_mul_ps (POLY0 x c1) x) (_mm_set1_ps c0).
Definition POLY2 x c0 c1 c2 := _mm_add_ps (_mm_mul_ps (POLY1 x c1 c2) x) (_mm_set1_ps c0).
Definition POLY3 x c0 c1 c2 c3 :=
  _mm_add_ps (_mm_mul_ps (POLY2 x c1 c2 c3) x) (_mm_set1_ps c0).
Definition POLY4 x c0 c1 c2 c3 c4 :=
  _mm_add_ps (_mm_mul_ps (POLY3 x c1 c2 c3 c4) x) (_mm_set1_ps c0).
Definition POLY5 x c0 c1 c2 c3 c4 c5 :=
  _mm_add_ps (_mm_mul_ps (POLY4 x c1 c2 c3 c4 c5) x) (_mm_set1_ps c0).

Definition sse4_1_lanes (aVal : list bits) : list bits :=
  let bias := _mm_set1_epi32 127 in
  let leadingOne := _mm_set1_ps (F32.lit 1 1) in
  let exp := _mm_sub_epi32
               (_mm_srli_epi32
                  (_mm_and_si128 (_mm_castps_si128 aVal) (_mm_set1_epi32 0x7f800000)) 23)
               bias in
  let bVal := _mm_cvtepi32_ps exp in
  let frac := _mm_or_ps leadingOne
                        (_mm_and_ps aVal (_mm_castsi128_ps (_mm_set1_epi32 0x7fffff))) in
  let mantissa := POLY5 frac
                    (F32.lit 31157899 10000000)
                    (F32.lit (-33241990) 10000000)
                    (F32.lit 25988452 10000000)
                    (F32.lit (-12315303) 10000000)
                    (F32.lit 31821337 100000000)
                    (F32.lit (-34436006) 1000000000) in
  _mm_add_ps bVal (_mm_mul_ps mantissa (_mm_sub_ps frac leadingOne)).

Definition volk_32f_log2_32f_a_sse4_1 (bVector aVector : nat) (num_points : nat) : M unit :=
  let bPtr := bVector in
  let aPtr := aVector in
  let quarterPoints := (num_points / 4)%nat in
  let* (bPtr, aPtr) :=
    for_loop quarterPoints
      (fun '(bPtr, aPtr) =>
         let* aVal := _mm_load_ps aPtr in
         let bVal := sse4_1_lanes aVal in
         let* _ := _mm_store_ps bPtr bVal in
         ret (bPtr + 4, aPtr + 4)%nat)
      (bPtr, aPtr) in
  let number := (quarterPoints * 4)%nat in
  volk_32f_log2_32f_generic bPtr aPtr (num_points - number).

Definition volk_32f_log2_32f_u_sse4_1 (bVector aVector : nat) (num_points : nat) : M unit :=
  let bPtr := bVector in
  let aPtr := aVector in
  let quarterPoints := (num_points / 4)%nat in
  let* (bPtr, aPtr) :=
    for_loop quarterPoints
      (fun '(bPtr, aPtr) =>
         let* aVal := _mm_loadu_ps aPtr in
         let bVal := sse4_1_lanes aVal in
         let* _ := _mm_storeu_ps bPtr bVal in
         ret (bPtr + 4, aPtr + 4)%nat)
      (bPtr, aPtr) in
  let number := (quarterPoints * 4)%nat in
  volk_32f_log2_32f_u_generic bPtr aPtr (num_points - number).

(** *** NEON *)

(** [VLOG2Q_NEON_PREAMBLE] and [VLOG2Q_NEON_F32]: the coefficients are
    [double] literals narrowed by [vdupq_n_f32]. *)
Definition VLOG2Q_NEON_F32 (aval : list Z) : list bits :=
  let one := vdupq_n_s32 0x000800000 in
  let p0 := vdupq_n_f32 (F32.lit_double (-30400402727048585) 10000000000000000) in
  let p1 := vdupq_n_f32 (F32.lit_double 61129631282966113 10000000000000000) in
  let p2 := vdupq_n_f32 (F32.lit_double (-53419892024633207) 10000000000000000) in
  let p3 := vdupq_n_f32 (F32.lit_double 32865287703753912 10000000000000000) in
  let p4 := vdupq_n_f32 (F32.lit_double (-12669182593441635) 10000000000000000) in
  let p5 := vdupq_n_f32 (F32.lit_double 2751487703421256 10000000000000000) in
  let p6 := vdupq_n_f32 (F32.lit_double (-256910888150985) 10000000000000000) in
  let exp_mask := vdupq_n_s32 0x7f800000 in
  let sig_mask := vdupq_n_s32 0x007fffff in
  let exp_bias := vdupq_n_s32 127 in
  let exponent_i := vandq_s32 aval exp_mask in
  let significand_i := vandq_s32 aval sig_mask in
  let exponent_i := vshrq_n_s32 exponent_i 23 in
  let significand_i := vorrq_s32 one significand_i in
  let significand_f := vcvtq_n_f32_s32 significand_i 23 in
  let exponent_i := vsubq_s32 exponent_i exp_bias in
  let exponent_f := vcvtq_f32_s32 exponent_i in
  let log2_approx := vaddq_f32 exponent_f p0 in
  let tmp1 := vmulq_f32 significand_f p1 in
  let log2_approx := vaddq_f32 log2_approx tmp1 in
  let sig_2 := vmulq_f32 significand_f significand_f in
  let tmp1 := vmulq_f32 sig_2 p2 in
  let log2_approx := vaddq_f32 log2_approx tmp1 in
  let sig_3 := vmulq_f32 sig_2 significand_f in
  let tmp1 := vmulq_f32 sig_3 p3 in
  let log2_approx := vaddq_f32 log2_approx tmp1 in
  let sig_4 := vmulq_f32 sig_2 sig_2 in
  let tmp1 := vmulq_f32 sig_4 p4 in
  let log2_approx := vaddq_f32 log2_approx tmp1 in
  let sig_5 := vmulq_f32 sig_3 sig_2 in
  let tmp1 := vmulq_f32 sig_5 p5 in
  let log2_approx := vaddq_f32 log2_approx tmp1 in
  let sig_6 := vmulq_f32 sig_3 sig_3 in
  let tmp1 := vmulq_f32 sig_6 p6 in
  vaddq_f32 log2_approx tmp1.

Definition volk_32f_log2_32f_neon (bVector aVector : nat) (num_points : nat) : M unit :=
  let bPtr := bVector in
  let aPtr := aVector in
  let quarterPoints := (num_points / 4)%nat in
  let* (bPtr, aPtr) :=
    for_loop quarterPoints
      (fun '(bPtr, aPtr) =>
         let* aval := vld1q_s32 aPtr in
         let log2_approx := VLOG2Q_NEON_F32 aval in
         let* _ := vst1q_f32 bPtr log2_approx in
         ret (bPtr + 4, aPtr + 4)%nat)
      (bPtr, aPtr) in
  let number := (quarterPoints * 4)%nat in
  volk_32f_log2_32f_generic bPtr aPtr (num_points - number).

End Kernels.

Arguments log2f_non_ieee log2f f /.

(** ** Running a kernel on the caller's buffers *)

Definition run (kernel : nat -> nat -> nat -> M unit)
    (a_base : Z) (aVector : list bits) (b_base : Z) (bVector : list bits)
    (num_points : nat) : option mem :=
  match kernel 0%nat 0%nat num_points (Mem a_base aVector b_base bVector []) with
  | Some (_, m) => Some m
  | None => None
  end.

(** The entry points of the header. *)
Inductive variant :=
| generic | a_avx2_fma | a_avx2 | a_sse4_1 | neon
| u_generic | u_sse4_1 | u_avx2_fma | u_avx2.

Definition kernel (log2f : bits -> bits) (v : variant) : nat -> nat -> nat -> M unit :=
  match v with
  | generic => volk_32f_log2_32f_generic log2f
  | a_avx2_fma => volk_32f_log2_32f_a_avx2_fma log2f
  | a_avx2 => volk_32f_log2_32f_a_avx2 log2f
  | a_sse4_1 => volk_32f_log2_32f_a_sse4_1 log2f
  | neon => volk_32f_log2_32f_neon log2f
  | u_generic => volk_32f_log2_32f_u_generic log2f
  | u_sse4_1 => volk_32f_log2_32f_u_sse4_1 log2f
  | u_avx2_fma => volk_32f_log2_32f_u_avx2_fma log2f
  | u_avx2 => volk_32f_log2_32f_u_avx2 log2f
  end.

(** Lanes per vector iteration; the two scalar kernels have one. *)
Definition width (v : variant) : nat :=
  match v with
  | generic | u_generic => 1
  | a_sse4_1 | u_sse4_1 | neon => 4
  | a_avx2_fma | a_avx2 | u_avx2_fma | u_avx2 => 8
  end.

(** The byte alignment an entry point demands of both buffers. *)
Definition alignment (v : variant) : Z :=
  match v with
  | a_sse4_1 => 16
  | a_avx2_fma | a_avx2 => 32
  | _ => 1
  end.

(** ** What one lane computes *)

Definition c0 : bits := F32.lit 31157899 10000000.
Definition c1 : bits := F32.lit (-33241990) 10000000.
Definition c2 : bits := F32.lit 25988452 10000000.
Definition c3 : bits := F32.lit (-12315303) 10000000.
Definition c4 : bits := F32.lit 31821337 100000000.
Definition c5 : bits := F32.lit (-34436006) 1000000000.

(** The exponent field, debiased in 32-bit integer arithmetic and converted. *)
Definition lane_exponent (x : bits) : bits :=
  F32.of_Z (signed32 (wrap32 (Z.shiftr (Z.land x (wrap32 0x7f800000)) 23 - wrap32 127))).

(** The significand field under the exponent and sign of [1.0f]. *)
Definition lane_frac (x : bits) : bits :=
  Z.lor (F32.lit 1 1) (Z.land x (wrap32 0x7fffff)).

Definition horner (frac : bits) : bits :=
  F32.add (F32.mul (F32.add (F32.mul (F32.add (F32.mul (F32.add (F32.mul
    (F32.add (F32.mul c5 frac) c4) frac) c3) frac) c2) frac) c1) frac) c0.

Definition horner_fma (frac : bits) : bits :=
  F32.fma (F32.fma (F32.fma (F32.fma (F32.fma c5 frac c4) frac c3) frac c2) frac c1) frac c0.

Definition lane_sse4_1 (x : bits) : bits :=
  let frac := lane_frac x in
  F32.add (lane_exponent x) (F32.mul (horner frac) (F32.sub frac (F32.lit 1 1))).

Definition lane_avx2 (x : bits) : bits :=
  let frac := lane_frac x in
  F32.add (F32.mul (horner frac) (F32.sub frac (F32.lit 1 1))) (lane_exponent x).

Definition lane_avx2_fma (x : bits) : bits :=
  let frac := lane_frac x in
  F32.fma (horner_fma frac) (F32.sub frac (F32.lit 1 1)) (lane_exponent x).

Definition lane_neon (x : bits) : bits :=
  match VLOG2Q_NEON_F32 [signed32 x; 0; 0; 0] with
  | y :: _ => y
  | [] => 0
  end.

(** The scalar kernel an entry point hands its tail to. *)
Definition tail (log2f : bits -> bits) (v : variant) : bits -> bits :=
  match v with
  | generic | a_avx2_fma | a_avx2 | a_sse4_1 | neon => log2f_non_ieee log2f
  | u_generic | u_sse4_1 | u_avx2_fma | u_avx2 =>
      fun a => let result := log2f a in
               if isinf result then F32.lit (-127) 1 else result
  end.

Definition lane (log2f : bits -> bits) (v : variant) : bits -> bits :=
  match v with
  | generic | u_generic => tail log2f v
  | a_sse4_1 | u_sse4_1 => lane_sse4_1
  | a_avx2 | u_avx2 => lane_avx2
  | a_avx2_fma | u_avx2_fma => lane_avx2_fma
  | neon => lane_neon
  end.

(** Cells handled by the vector loop. *)
Definition vector_part (v : variant) (num_points : nat) : nat :=
  match v with
  | generic | u_generic => 0
  | _ => (num_points / width v * width v)%nat
  end.

(** The stores of a whole call: one per vector iteration, then one per
    tail cell. *)
Definition expected_stores (v : variant) (num_points : nat) : list (nat * nat) :=
  let W := width v in
  let n := vector_part v num_points in
  ((fun i => (i * W, W)%nat) <$> seq 0 (n / W)) ++
  ((fun i => (n + i, 1)%nat) <$> seq 0 (num_points - n)).

(** One iteration over [W] cells: load them, apply [g], store the result and
    advance both pointers.  Every loop body of the header has this shape. *)
Definition vstep (W : nat) (al : option Z) (g : list bits -> list bits)
    (p : nat * nat) : M (nat * nat) :=
  let* v := load_vec W al (snd p) in
  let* _ := store_vec W al (fst p) (g v) in
  ret (fst p + W, snd p + W)%nat.

(** A pointer at cell [p] of a buffer at [base] meets the alignment [al]. *)
Definition ok_align (al : option Z) (W : nat) (base : Z) (p : nat) : Prop :=
  match al with
  | Some a => a = 4 * Z.of_nat W /\ is_aligned a base p = true
  | None => True
  end.

(** The cells a call computes: the vector part lane by lane, then the tail
    through the scalar kernel. *)
Definition kernel_cells (log2f : bits -> bits) (v : variant) (num_points : nat)
    (aVector : list bits) : list bits :=
  let n := vector_part v num_points in
  (lane log2f v <$> take n aVector)
  ++ (tail log2f v <$> take (num_points - n) (drop n aVector)).

(** ** The platform's [log2f]

    [log2f] is not part of the header: it comes from [<math.h>].  The
    kernels are verified against what ISO C fixes about it. *)

Definition is_nan (x : bits) : bool :=
  match F32.to_sf x with
  | S754_nan => true
  | _ => false
  end.

Definition is_zero (x : bits) : bool :=
  match F32.to_sf x with
  | S754_zero _ => true
  | _ => false
  end.

(** Neither NaN nor infinite, and not below zero. *)
Definition finite_nonneg (x : bits) : bool :=
  match F32.to_sf x with
  | S754_zero _ | S754_finite false _ _ => true
  | _ => false
  end.

(** ISO C, Annex F.10.3.10: [log2(+-0)] returns minus infinity,
    [log2(+inf)] returns plus infinity, [log2(x)] returns a NaN for [x < 0];
    and since the logarithm of a positive finite float lies between -149 and
    128, a positive finite argument gives no infinity. *)
Record libm_log2f (log2f : bits -> bits) : Prop := {
  log2f_of_zero : forall x, is_zero x = true -> log2f x = F32.neg_inf;
  log2f_of_pos_inf : log2f F32.pos_inf = F32.pos_inf;
  log2f_of_negative :
    forall x, F32.sign_field x = true -> is_zero x = false -> is_nan (log2f x) = true;
  log2f_of_positive :
    forall x m e, F32.to_sf x = S754_finite false m e -> isinf (log2f x) = false
}.

(** The float [2^k], for [-126 <= k <= 127]. *)
Definition pow2 (k : Z) : bits := Z.shiftl (k + 127) 23.

(** Not required by ISO C, but what math libraries deliver: the logarithm of
    a power of two is its exponent, exactly. *)
Definition exact_on_powers_of_two (log2f : bits -> bits) : Prop :=
  forall k, -126 <= k <= 127 -> log2f (pow2 k) = F32.of_Z k.

(** A stand-in that meets these assumptions: the special values of Annex F,
    and on a positive finite argument the integer part of the logarithm. *)
Definition log2f_ref (x : bits) : bits :=
  match F32.to_sf x with
  | S754_zero _ => F32.neg_inf
  | S754_infinity false => F32.pos_inf
  | S754_finite false m e => F32.of_Z (Z.log2 (Zpos m) + e)
  | _ => 0x7fc00000
  end.

(** ** Values *)

(** The rational a finite float stands for. *)
Definition SF2Q (x : spec_float) : Q :=
  match x with
  | S754_finite s m e => inject_Z (cond_Zopp s (Zpos m)) * Qpower 2 e
  | _ => 0
  end.

(** [y] is a finite float within [tol] of the integer [k]. *)
Definition within (tol : Q) (y : bits) (k : Z) : bool :=
  match F32.to_sf y with
  | S754_zero _ | S754_finite _ _ _ =>
      Qle_bool (Qabs (SF2Q (F32.to_sf y) - inject_Z k)) tol
  | _ => false
  end.

(** ** Variants that belong together *)

(** The unaligned twin of an entry point of the aligned tree. *)
Definition unaligned_of (v : variant) : option variant :=
  match v with
  | generic => Some u_generic
  | a_sse4_1 => Some u_sse4_1
  | a_avx2 => Some u_avx2
  | a_avx2_fma => Some u_avx2_fma
  | _ => None
  end.

(** The scalar entry point a variant calls for its tail. *)
Definition scalar_of (v : variant) : variant :=
  match v with
  | generic | a_avx2_fma | a_avx2 | a_sse4_1 | neon => generic
  | u_generic | u_sse4_1 | u_avx2_fma | u_avx2 => u_generic
  end.

(** The cells a list of stores writes, in program order. *)
Definition cells_stored (l : list (nat * nat)) : list nat :=
  flat_map (fun s => seq (fst s) (snd s)) l.

(** ** The lane as the specification words it *)

Module Spec.

(** The biased exponent field minus the bias 127, converted to a float. *)
Definition E (x : bits) : bits := F32.of_Z (F32.exp_field x - 127).

(** The 23-bit significand field with the implicit leading one: the float
    [(2^23 + field) * 2^-23], which lies in [1, 2). *)
Definition m (x : bits) : bits :=
  F32.of_sf (S754_finite false (Z.to_pos (8388608 + F32.frac_field x)) (-23)).

Definition coefficients : list bits :=
  [ F32.lit 31157899 10000000; F32.lit (-33241990) 10000000;
    F32.lit 25988452 10000000; F32.lit (-12315303) 10000000;
    F32.lit 31821337 100000000; F32.lit (-34436006) 1000000000 ].

(** Horner's scheme, [c0 + m * (c1 + m * (c2 + ...))], every operation
    rounded to single precision. *)
Fixpoint P (cs : list bits) (m : bits) : bits :=
  match cs with
  | [] => 0
  | [c] => c
  | c :: cs' => F32.add c (F32.mul m (P cs' m))
  end.

(** [E + P(m) * (m - 1)]. *)
Definition lane (x : bits) : bits :=
  F32.add (E x) (F32.mul (P coefficients (m x)) (F32.sub (m x) (F32.lit 1 1))).

End Spec.

(** ** Real values and error bounds *)

Definition bpow (e : Z) : R := powerRZ 2 e.

(** The real number a float stands for; zero for what is not finite. *)
Definition B2R (x : spec_float) : R :=
  match x with
  | S754_finite s m e => (IZR (cond_Zopp s (Zpos m)) * bpow e)%R
  | _ => 0%R
  end.

Definition sgn_R (s : bool) : R := if s then (-1)%R else 1%R.

Definition is_finite_SF (x : spec_float) : bool :=
  match x with
  | S754_zero _ | S754_finite _ _ _ => true
  | _ => false
  end.

Definition b2z (b : bool) : Z := if b then 1 else 0.

(** The same on bit patterns. *)
Definition fin (x : bits) : Prop := is_finite_SF (F32.to_sf x) = true.
Definition val (x : bits) : R := B2R (F32.to_sf x).

(** The base-2 logarithm over the reals. *)
Definition log2_R (x : R) : R := (ln x / ln 2)%R.

(** [y] is a finite float within [1e-3] of the base-2 logarithm of the
    value of [x]. *)
Definition close_to_log2 (x y : bits) : Prop :=
  fin y /\ (Rabs (val y - log2_R (val x)) <= 1 / 1000)%R.

(** [bnd a A ea MA]: the float [a] is finite and within [ea] of the real
    number [A], whose magnitude is at most [MA]. *)
Definition bnd (a : bits) (A ea MA : R) : Prop :=
  fin a /\ (Rabs (val a - A) <= ea)%R /\ (Rabs A <= MA)%R.

(** The bit patterns of the positive normal floats, 0x00800000 up to
    0x7f7fffff. *)
Definition normal_pos (x : bits) : Prop := 8388608 <= x < 2139095040.

(** The real significand, in [1, 2), and the exponent of a pattern. *)
Definition sig_R (x : bits) : R := (IZR (8388608 + x mod 8388608) * bpow (-23))%R.
Definition exp_Z (x : bits) : Z := x / 8388608 - 127.

(** ** The polynomials over the reals *)

(** The single-precision values of the coefficients as integers, lowest
    degree first: [c0] .. [c5] of the x86 lanes in units of 2^-28, [p0] ..
    [p6] of the NEON lane in units of 2^-29. *)
Definition x86_coeffs : list Z :=
  [836388480; -892332864; 697622208; -330586400; 85419752; -9243845].
Definition neon_coeffs : list Z :=
  [-1632109184; 3281872128; -2867958528; 1764441728; -680171584; 147719376;
   -13792798].

(** Horner evaluation over the reals. *)
Definition evalR (l : list Z) (x : R) : R :=
  fold_right (fun c acc => (IZR c + x * acc)%R) 0%R l.

Definition poly_x86 (m : R) : R := (evalR x86_coeffs m * bpow (-28))%R.
Definition poly_neon (m : R) : R := (evalR neon_coeffs m * bpow (-29))%R.

(** The coefficients of [VLOG2Q_NEON_PREAMBLE], and one lane of
    [VLOG2Q_NEON_F32] after its integer preamble: [e] is the converted
    exponent, [s] the converted significand. *)
Definition neon_p0 : bits := F32.lit_double (-30400402727048585) 10000000000000000.
Definition neon_p1 : bits := F32.lit_double 61129631282966113 10000000000000000.
Definition neon_p2 : bits := F32.lit_double (-53419892024633207) 10000000000000000.
Definition neon_p3 : bits := F32.lit_double 32865287703753912 10000000000000000.
Definition neon_p4 : bits := F32.lit_double (-12669182593441635) 10000000000000000.
Definition neon_p5 : bits := F32.lit_double 2751487703421256 10000000000000000.
Definition neon_p6 : bits := F32.lit_double (-256910888150985) 10000000000000000.

Definition neon_poly (e s : bits) : bits :=
  let l := F32.add e neon_p0 in
  let l := F32.add l (F32.mul s neon_p1) in
  let s2 := F32.mul s s in
  let l := F32.add l (F32.mul s2 neon_p2) in
  let s3 := F32.mul s2 s in
  let l := F32.add l (F32.mul s3 neon_p3) in
  let s4 := F32.mul s2 s2 in
  let l := F32.add l (F32.mul s4 neon_p4) in
  let s5 := F32.mul s3 s2 in
  let l := F32.add l (F32.mul s5 neon_p5) in
  let s6 := F32.mul s3 s3 in
  F32.add l (F32.mul s6 neon_p6).

(** Sum of two polynomials with integer coefficients. *)
Fixpoint padd (a b : list Z) : list Z :=
  match a, b with
  | [], _ => b
  | _, [] => a
  | x :: a', y :: b' => (x + y) :: padd a' b'
  end.

(** The coefficients of [p (1 + t)] in [t]. *)
Fixpoint shift1 (p : list Z) : list Z :=
  match p with
  | [] => []
  | c :: p' => padd (c :: shift1 p') (shift1 p')
  end.

(** A polynomial is the difference of two polynomials with non-negative
    coefficients, both monotone on the non-negative reals. *)
Definition pos_part (l : list Z) : list Z := Z.max 0 <$> l.
Definition neg_part (l : list Z) : list Z := (fun c => Z.max 0 (- c)) <$> l.

(** Lower and upper bounds of [evalR l (i / 2^logn)], rounding every
    Horner step down, respectively up, to an integer. *)
Fixpoint lowZ (logn : Z) (l : list Z) (i : Z) : Z :=
  match l with
  | [] => 0
  | c :: l' => c + Z.shiftr (i * lowZ logn l' i) logn
  end.

Fixpoint upZ (logn : Z) (l : list Z) (i : Z) : Z :=
  match l with
  | [] => 0
  | c :: l' => c + Z.shiftr (i * upZ logn l' i + (2 ^ logn - 1)) logn
  end.

(** [P (1 + t) * t] of the x86 lanes and the NEON polynomial at [1 + t],
    as polynomials in [t]. *)
Definition approx_x86 : list Z := 0 :: shift1 x86_coeffs.
Definition approx_neon : list Z := shift1 neon_coeffs.

(** ** A checker for polynomial approximations of log2

    The interval [0, 1) is cut into [n = 2^logn] cells.  The natural
    logarithms of the grid points [1 + i / n] are enclosed, in units of
    [1 / S], by sums of the bounds
    [1 / (n + i + 1) <= ln (n + i + 1) - ln (n + i) <= 1 / (n + i)]. *)

Definition grid_point (n i : Z) : R := (1 + IZR i / IZR n)%R.

Definition ln_enclosed (S n i lo hi : Z) : Prop :=
  (IZR lo <= IZR S * ln (grid_point n i) <= IZR hi)%R.

Fixpoint ln_enclosure (S n : Z) (fuel : nat) (i lo hi : Z) : Z * Z :=
  match fuel with
  | O => (lo, hi)
  | Datatypes.S f =>
      ln_enclosure S n f (i + 1) (lo + S / (n + i + 1)) (hi + (S / (n + i) + 1))
  end.

(** Cell [i]: with [lpos], [lneg] the two monotone parts of the polynomial
    (in units of [2^-sc]), [lo] below [S * ln (1 + i/n)], [hi'] above
    [S * ln (1 + (i+1)/n)] and [l2lo <= S * ln 2 <= l2hi], the polynomial
    stays within [Tz * 2^-sc] of log2 on the whole cell. *)
Definition cell_ok (logn sc Tz : Z) (lpos lneg : list Z) (l2lo l2hi : Z)
    (i lo hi' : Z) : bool :=
  let Fhi := upZ logn lpos (i + 1) - lowZ logn lneg i in
  let Flo := lowZ logn lpos i - upZ logn lneg (i + 1) in
  ((Fhi - Tz) * l2lo <=? Z.shiftl lo sc) && ((Fhi - Tz) * l2hi <=? Z.shiftl lo sc) &&
  (Z.shiftl hi' sc <=? (Flo + Tz) * l2lo) && (Z.shiftl hi' sc <=? (Flo + Tz) * l2hi).

Fixpoint check_cells (S n logn sc Tz : Z) (lpos lneg : list Z) (l2lo l2hi : Z)
    (fuel : nat) (i lo hi : Z) : bool :=
  match fuel with
  | O => true
  | Datatypes.S f =>
      let hi' := hi + (S / (n + i) + 1) in
      cell_ok logn sc Tz lpos lneg l2lo l2hi i lo hi'
      && check_cells S n logn sc Tz lpos lneg l2lo l2hi f (i + 1) (lo + S / (n + i + 1)) hi'
  end.

Definition check_poly (S logn sc Tz : Z) (l : list Z) : bool :=
  let n := 2 ^ logn in
  let e := ln_enclosure S n (Z.to_nat n) 0 0 0 in
  check_cells S n logn sc Tz (pos_part l) (neg_part l) (fst e) (snd e)
    (Z.to_nat n) 0 0 0.

(** The [num_points] cells a call reads and the [num_points] cells it
    writes, four bytes each, do not overlap.  [mem] keeps the two buffers
    apart, which is how the code behaves on such a call. *)
Definition disjoint_buffers (a_base b_base : Z) (num_points : nat) : Prop :=
  a_base + 4 * Z.of_nat num_points <= b_base \/
  b_base + 4 * Z.of_nat num_points <= a_base.

(** Whether a pointer at cell [p] passes the alignment check of a load or
    store. *)
Definition aligned_at (al : option Z) (base : Z) (p : nat) : bool :=
  match al with
  | Some a => is_aligned a base p
  | None => true
  end.

(** ** The other settings of [LOG_POLY_DEGREE]

    The header sets [LOG_POLY_DEGREE] to 6.  Every x86 loop body picks its
    polynomial by this constant in an [#if] chain that also has branches
    for 5, 4 and 3 and ends in [#error].  The chains and the loop bodies
    follow as functions of the constant; [None] is the build that stops at
    [#error]. *)

Definition mantissa_sse4_1 (LOG_POLY_DEGREE : Z) (frac : list bits) : option (list bits) :=
  if LOG_POLY_DEGREE =? 6 then
    Some (POLY5 frac
            (F32.lit 31157899 10000000)
            (F32.lit (-33241990) 10000000)
            (F32.lit 25988452 10000000)
            (F32.lit (-12315303) 10000000)
            (F32.lit 31821337 100000000)
            (F32.lit (-34436006) 1000000000))
  else if LOG_POLY_DEGREE =? 5 then
    Some (POLY4 frac
            (F32.lit 28882704548164776201 10000000000000000000)
            (F32.lit (-252074962577807006663) 100000000000000000000)
            (F32.lit 148116647521213171641 100000000000000000000)
            (F32.lit (-465725644288844778798) 1000000000000000000000)
            (F32.lit 596515482674574969533 10000000000000000000000))
  else if LOG_POLY_DEGREE =? 4 then
    Some (POLY3 frac
            (F32.lit 261761038894603480148 100000000000000000000)
            (F32.lit (-175647175389045657003) 100000000000000000000)
            (F32.lit 688243882994381274313 1000000000000000000000)
            (F32.lit (-107254423828329604454) 1000000000000000000000))
  else if LOG_POLY_DEGREE =? 3 then
    Some (POLY2 frac
            (F32.lit 228330284476918490682 100000000000000000000)
            (F32.lit (-104913055217340124191) 100000000000000000000)
            (F32.lit 204446009836232697516 1000000000000000000000))
  else None.

Definition mantissa_avx2 (LOG_POLY_DEGREE : Z) (frac : list bits) : option (list bits) :=
  if LOG_POLY_DEGREE =? 6 then
    Some (POLY5_AVX2 frac
            (F32.lit 31157899 10000000)
            (F32.lit (-33241990) 10000000)
            (F32.lit 25988452 10000000)
            (F32.lit (-12315303) 10000000)
            (F32.lit 31821337 100000000)
            (F32.lit (-34436006) 1000000000))
  else if LOG_POLY_DEGREE =? 5 then
    Some (POLY4_AVX2 frac
            (F32.lit 28882704548164776201 10000000000000000000)
            (F32.lit (-252074962577807006663) 100000000000000000000)
            (F32.lit 148116647521213171641 100000000000000000000)
            (F32.lit (-465725644288844778798) 1000000000000000000000)
            (F32.lit 596515482674574969533 10000000000000000000000))
  else if LOG_POLY_DEGREE =? 4 then
    Some (POLY3_AVX2 frac
            (F32.lit 261761038894603480148 100000000000000000000)
            (F32.lit (-175647175389045657003) 100000000000000000000)
            (F32.lit 688243882994381274313 1000000000000000000000)
            (F32.lit (-107254423828329604454) 1000000000000000000000))
  else if LOG_POLY_DEGREE =? 3 then
    Some (POLY2_AVX2 frac
            (F32.lit 228330284476918490682 100000000000000000000)
            (F32.lit (-104913055217340124191) 100000000000000000000)
            (F32.lit 204446009836232697516 1000000000000000000000))
  else None.

Definition mantissa_avx2_fma (LOG_POLY_DEGREE : Z) (frac : list bits) : option (list bits) :=
  if LOG_POLY_DEGREE =? 6 then
    Some (POLY5_FMAAVX2 frac
            (F32.lit 31157899 10000000)
            (F32.lit (-33241990) 10000000)
            (F32.lit 25988452 10000000)
            (F32.lit (-12315303) 10000000)
            (F32.lit 31821337 100000000)
            (F32.lit (-34436006) 1000000000))
  else if LOG_POLY_DEGREE =? 5 then
    Some (POLY4_FMAAVX2 frac
            (F32.lit 28882704548164776201 10000000000000000000)
            (F32.lit (-252074962577807006663) 100000000000000000000)
            (F32.lit 148116647521213171641 100000000000000000000)
            (F32.lit (-465725644288844778798) 1000000000000000000000)
            (F32.lit 596515482674574969533 10000000000000000000000))
  else if LOG_POLY_DEGREE =? 4 then
    Some (POLY3_FMAAVX2 frac
            (F32.lit 261761038894603480148 100000000000000000000)
            (F32.lit (-175647175389045657003) 100000000000000000000)
            (F32.lit 688243882994381274313 1000000000000000000000)
            (F32.lit (-107254423828329604454) 1000000000000000000000))
  else if LOG_POLY_DEGREE =? 3 then
    Some (POLY2_FMAAVX2 frac
            (F32.lit 228330284476918490682 100000000000000000000)
            (F32.lit (-104913055217340124191) 100000000000000000000)
            (F32.lit 204446009836232697516 1000000000000000000000))
  else None.

(** The loop bodies between the load and the store. *)
Definition sse4_1_lanes_degree (LOG_POLY_DEGREE : Z) (aVal : list bits)
    : option (list bits) :=
  let bias := _mm_set1_epi32 127 in
  let leadingOne := _mm_set1_ps (F32.lit 1 1) in
  let exp := _mm_sub_epi32
               (_mm_srli_epi32
                  (_mm_and_si128 (_mm_castps_si128 aVal) (_mm_set1_epi32 0x7f800000)) 23)
               bias in
  let bVal := _mm_cvtepi32_ps exp in
  let frac := _mm_or_ps leadingOne
                        (_mm_and_ps aVal (_mm_castsi128_ps (_mm_set1_epi32 0x7fffff))) in
  match mantissa_sse4_1 LOG_POLY_DEGREE frac with
  | Some mantissa => Some (_mm_add_ps bVal (_mm_mul_ps mantissa (_mm_sub_ps frac leadingOne)))
  | None => None
  end.

Definition avx2_lanes_degree (LOG_POLY_DEGREE : Z) (aVal : list bits)
    : option (list bits) :=
  let bias := _mm256_set1_epi32 127 in
  let leadingOne := _mm256_set1_ps (F32.lit 1 1) in
  let exp := _mm256_sub_epi32
               (_mm256_srli_epi32
                  (_mm256_and_si256 (_mm256_castps_si256 aVal)
                                    (_mm256_set1_epi32 0x7f800000))
                  23)
               bias in
  let bVal := _mm256_cvtepi32_ps exp in
  let frac := _mm256_or_ps
                leadingOne
                (_mm256_and_ps aVal (_mm256_castsi256_ps (_mm256_set1_epi32 0x7fffff))) in
  match mantissa_avx2 LOG_POLY_DEGREE frac with
  | Some mantissa =>
      Some (_mm256_add_ps (_mm256_mul_ps mantissa (_mm256_sub_ps frac leadingOne)) bVal)
  | None => None
  end.

Definition avx2_fma_lanes_degree (LOG_POLY_DEGREE : Z) (aVal : list bits)
    : option (list bits) :=
  let bias := _mm256_set1_epi32 127 in
  let leadingOne := _mm256_set1_ps (F32.lit 1 1) in
  let exp := _mm256_sub_epi32
               (_mm256_srli_epi32
                  (_mm256_and_si256 (_mm256_castps_si256 aVal)
                                    (_mm256_set1_epi32 0x7f800000))
                  23)
               bias in
  let bVal := _mm256_cvtepi32_ps exp in
  let frac := _mm256_or_ps
                leadingOne
                (_mm256_and_ps aVal (_mm256_castsi256_ps (_mm256_set1_epi32 0x7fffff))) in
  match mantissa_avx2_fma LOG_POLY_DEGREE frac with
  | Some mantissa =>
      Some (_mm256_fmadd_ps mantissa (_mm256_sub_ps frac leadingOne) bVal)
  | None => None
  end.

(** The coefficients of each branch, lowest degree first, and their
    single-precision values as integers in units of 2^-28. *)
Definition degree_6 : list bits := [c0; c1; c2; c3; c4; c5].

Definition degree_5 : list bits :=
  [ F32.lit 28882704548164776201 10000000000000000000;
    F32.lit (-252074962577807006663) 100000000000000000000;
    F32.lit 148116647521213171641 100000000000000000000;
    F32.lit (-465725644288844778798) 1000000000000000000000;
    F32.lit 596515482674574969533 10000000000000000000000 ].

Definition degree_5_coeffs : list Z :=
  [775314176; -676658560; 397597600; -125017272; 16012591].

Definition degree_4 : list bits :=
  [ F32.lit 261761038894603480148 100000000000000000000;
    F32.lit (-175647175389045657003) 100000000000000000000;
    F32.lit 688243882994381274313 1000000000000000000000;
    F32.lit (-107254423828329604454) 1000000000000000000000 ].

Definition degree_4_coeffs : list Z :=
  [702659456; -471499296; 184749056; -28790890].

Definition degree_3 : list bits :=
  [ F32.lit 228330284476918490682 100000000000000000000;
    F32.lit (-104913055217340124191) 100000000000000000000;
    F32.lit 204446009836232697516 1000000000000000000000 ].

Definition degree_3_coeffs : list Z :=
  [612919424; -281623840; 54880556].

Definition degree_coefficients (LOG_POLY_DEGREE : Z) : option (list bits) :=
  if LOG_POLY_DEGREE =? 6 then Some degree_6
  else if LOG_POLY_DEGREE =? 5 then Some degree_5
  else if LOG_POLY_DEGREE =? 4 then Some degree_4
  else if LOG_POLY_DEGREE =? 3 then Some degree_3
  else None.

Definition degree_coeffs (LOG_POLY_DEGREE : Z) : list Z :=
  if LOG_POLY_DEGREE =? 6 then x86_coeffs
  else if LOG_POLY_DEGREE =? 5 then degree_5_coeffs
  else if LOG_POLY_DEGREE =? 4 then degree_4_coeffs
  else degree_3_coeffs.

(** One lane of [POLYn] and of [POLYn_FMAAVX2] on a coefficient list, and
    one lane of each loop body. *)
Fixpoint horner_of (cs : list bits) (frac : bits) : bits :=
  match cs with
  | [] => 0
  | [c] => c
  | c :: cs' => F32.add (F32.mul (horner_of cs' frac) frac) c
  end.

Fixpoint horner_fma_of (cs : list bits) (frac : bits) : bits :=
  match cs with
  | [] => 0
  | [c] => c
  | c :: cs' => F32.fma (horner_fma_of cs' frac) frac c
  end.

Definition lane_sse4_1_of (cs : list bits) (x : bits) : bits :=
  let frac := lane_frac x in
  F32.add (lane_exponent x) (F32.mul (horner_of cs frac) (F32.sub frac (F32.lit 1 1))).

Definition lane_avx2_of (cs : list bits) (x : bits) : bits :=
  let frac := lane_frac x in
  F32.add (F32.mul (horner_of cs frac) (F32.sub frac (F32.lit 1 1))) (lane_exponent x).

Definition lane_avx2_fma_of (cs : list bits) (x : bits) : bits :=
  let frac := lane_frac x in
  F32.fma (horner_fma_of cs frac) (F32.sub frac (F32.lit 1 1)) (lane_exponent x).

(** What a lane approximates: the exponent field minus 127 plus the
    base-2 logarithm of the significand field read as 1.f; and the distance
    a result may have from it under each setting. *)
Definition lane_target (x : bits) : R :=
  (IZR (F32.exp_field x - 127) + log2_R (sig_R x))%R.

Definition near_target (tol : R) (x y : bits) : Prop :=
  fin y /\ (Rabs (val y - lane_target x) <= tol)%R.

Definition tolerance (LOG_POLY_DEGREE : Z) : R :=
  if LOG_POLY_DEGREE =? 3 then (33 / 10000)%R else (1 / 1000)%R.

(** ** The vector loop and the scalar loop as one sweep *)

Lemma for_loop_ext {A} (body1 body2 : A -> M A) :
  (forall x m, body1 x m = body2 x m) ->
  forall n x m, for_loop n body1 x m = for_loop n body2 x m.
Proof.
  intros Hb n. induction n as [|n IH]; intros x m; simpl; [reflexivity|].
  unfold bind. rewrite Hb. destruct (body2 x m) as [[x' m']|]; auto.
Qed.

Lemma ok_align_step al W base p :
  ok_align al W base p -> ok_align al W base (p + W).
Proof.
  destruct al as [a|]; simpl; [|trivial].
  intros [-> Ha]. split; [reflexivity|].
  unfold is_aligned in *. apply Z.eqb_eq in Ha. apply Z.eqb_eq.
  rewrite Nat2Z.inj_add, Z.mul_add_distr_l, Z.add_assoc.
  destruct (Z.eq_dec (Z.of_nat W) 0) as [E|E].
  - rewrite E in *. simpl in *. rewrite Z.add_0_r. exact Ha.
  - rewrite <- Z.add_mod_idemp_r by lia.
    rewrite Z.mod_same by lia. rewrite Z.add_0_r. exact Ha.
Qed.

Lemma load_vec_ok W al p m :
  ok_align al W (in_base m) p ->
  (p + W <= length (in_cells m))%nat ->
  load_vec W al p m = Some (take W (drop p (in_cells m)), m).
Proof.
  intros Ha Hl. unfold load_vec.
  replace (match al with Some al0 => is_aligned al0 (in_base m) p | None => true end)
    with true by (destruct al; simpl in Ha; [symmetry; tauto | reflexivity]).
  destruct (decide (p + W <= length (in_cells m))%nat); [reflexivity | contradiction].
Qed.

Lemma store_vec_ok W al p v m :
  ok_align al W (out_base m) p ->
  (p + W <= length (out_cells m))%nat ->
  store_vec W al p v m =
    Some (tt, Mem (in_base m) (in_cells m) (out_base m)
                (take p (out_cells m) ++ take W v ++ drop (p + W) (out_cells m))
                (stores m ++ [(p, W)])).
Proof.
  intros Ha Hl. unfold store_vec.
  replace (match al with Some al0 => is_aligned al0 (out_base m) p | None => true end)
    with true by (destruct al; simpl in Ha; [symmetry; tauto | reflexivity]).
  destruct (decide (p + W <= length (out_cells m))%nat); [reflexivity | contradiction].
Qed.

Lemma splice_splice {A} (l : list A) (p k : nat) (u w : list A) :
  (p + length u <= length l)%nat ->
  take (p + length u) (take p l ++ u ++ drop (p + length u) l) ++ w
    ++ drop (p + length u + k) (take p l ++ u ++ drop (p + length u) l)
  = take p l ++ (u ++ w) ++ drop (p + length u + k) l.
Proof.
  intros Hl.
  assert (Hp : length (take p l ++ u) = (p + length u)%nat).
  { rewrite length_app, length_take. lia. }
  rewrite (app_assoc (take p l) u).
  rewrite <- Hp at 1. rewrite take_app_length.
  rewrite <- (drop_drop _ k (p + length u)%nat).
  rewrite <- Hp at 1. rewrite drop_app_length.
  rewrite drop_drop. rewrite <- !app_assoc. reflexivity.
Qed.

(** The cells a sweep of [n] iterations leaves behind. *)
Lemma for_loop_vstep W al g f n :
  (forall v, length v = W -> g v = f <$> v) ->
  forall bPtr aPtr m,
    ok_align al W (in_base m) aPtr ->
    ok_align al W (out_base m) bPtr ->
    (aPtr + n * W <= length (in_cells m))%nat ->
    (bPtr + n * W <= length (out_cells m))%nat ->
    for_loop n (vstep W al g) (bPtr, aPtr) m =
      Some ((bPtr + n * W, aPtr + n * W)%nat,
            Mem (in_base m) (in_cells m) (out_base m)
              (take bPtr (out_cells m)
               ++ (f <$> take (n * W) (drop aPtr (in_cells m)))
               ++ drop (bPtr + n * W) (out_cells m))
              (stores m ++ ((fun i => (bPtr + i * W, W)%nat) <$> seq 0 n))).
Proof.
  intros Hg. induction n as [|n IH]; intros bPtr aPtr m Hia Hoa Hil Hol.
  - simpl. unfold ret. rewrite !Nat.add_0_r, app_nil_r.
    simpl. rewrite take_drop. destruct m; reflexivity.
  - simpl for_loop. unfold bind, vstep at 1. unfold bind. simpl fst; simpl snd.
    simpl in Hil, Hol.
    rewrite load_vec_ok by (auto; lia).
    rewrite store_vec_ok by (auto; lia).
    unfold ret.
    set (v := take W (drop aPtr (in_cells m))).
    assert (Hv : length v = W).
    { unfold v. rewrite length_take, length_drop. lia. }
    rewrite Hg by exact Hv.
    assert (Hfv : length (f <$> v) = W) by (rewrite length_fmap; exact Hv).
    rewrite (take_ge (f <$> v)) by lia.
    rewrite IH; simpl in_base; simpl in_cells; simpl out_base; simpl out_cells;
      simpl stores.
    + f_equal. f_equal; [f_equal; simpl; lia|].
      f_equal.
      * pose proof (splice_splice (out_cells m) bPtr (n * W) (f <$> v)
                      (f <$> take (n * W) (drop (aPtr + W) (in_cells m)))) as Hs.
        rewrite Hfv in Hs. rewrite Hs by lia.
        f_equal. f_equal.
        -- rewrite <- fmap_app. f_equal. unfold v.
           rewrite <- drop_drop. rewrite take_take_drop. reflexivity.
        -- f_equal. simpl. lia.
      * rewrite <- app_assoc. f_equal.
        change (seq 0 (S n)) with (0%nat :: seq 1 n).
        rewrite fmap_cons. simpl app. f_equal; [f_equal; lia|].
        rewrite <- seq_shift, <- list_fmap_compose.
        apply list_fmap_ext. intros _ i _. simpl. f_equal. lia.
    + apply ok_align_step; exact Hia.
    + apply ok_align_step; exact Hoa.
    + lia.
    + rewrite !length_app, length_take, length_drop, Hfv. lia.
Qed.

(** The scalar loops are sweeps of width one. *)
Lemma scalar_body_vstep (f : bits -> bits) (p : nat * nat) m :
  (let '(bPtr, aPtr) := p in
   let* a := load_cell aPtr in
   let* _ := store_cell bPtr (f a) in
   ret (S bPtr, S aPtr)) m
  = vstep 1 None (fmap f) p m.
Proof.
  destruct p as [bPtr aPtr]. unfold vstep, bind, load_cell, load_vec, store_cell, store_vec.
  simpl fst; simpl snd.
  destruct (in_cells m !! aPtr) as [x|] eqn:Hx.
  - pose proof (lookup_lt_Some _ _ _ Hx) as Hlt.
    destruct (decide (aPtr + 1 <= length (in_cells m))%nat) as [_|Hn]; [|lia].
    rewrite (drop_S _ _ _ Hx). simpl take. simpl fmap.
    destruct (decide (bPtr < length (out_cells m))%nat) as [Hb|Hb];
      destruct (decide (bPtr + 1 <= length (out_cells m))%nat) as [Hb'|Hb'];
      try lia; [|reflexivity].
    unfold ret. rewrite insert_take_drop by exact Hb.
    rewrite !Nat.add_1_r. reflexivity.
  - apply lookup_ge_None in Hx.
    destruct (decide (aPtr + 1 <= length (in_cells m))%nat); [lia | reflexivity].
Qed.

(** Each vector body treats its lanes alike: unfolding the intrinsics on a
    register of known length leaves the scalar expression in every lane. *)
Ltac lanewise :=
  unfold sse4_1_lanes, avx2_lanes, avx2_fma_lanes, VLOG2Q_NEON_F32,
    lane_sse4_1, lane_avx2, lane_avx2_fma, lane_neon, VLOG2Q_NEON_F32,
    POLY5, POLY4, POLY3, POLY2, POLY1, POLY0,
    POLY5_AVX2, POLY4_AVX2, POLY3_AVX2, POLY2_AVX2, POLY1_AVX2, POLY0_AVX2,
    POLY5_FMAAVX2, POLY4_FMAAVX2, POLY3_FMAAVX2, POLY2_FMAAVX2, POLY1_FMAAVX2,
    POLY0_FMAAVX2, horner, horner_fma, lane_exponent, lane_frac, c0, c1, c2, c3, c4, c5,
    _mm_add_ps, _mm_mul_ps, _mm_sub_ps, _mm_or_ps, _mm_and_ps, _mm_cvtepi32_ps,
    _mm_sub_epi32, _mm_srli_epi32, _mm_and_si128, _mm_castps_si128, _mm_castsi128_ps,
    _mm_set1_ps, _mm_set1_epi32,
    _mm256_add_ps, _mm256_mul_ps, _mm256_sub_ps, _mm256_or_ps, _mm256_and_ps,
    _mm256_cvtepi32_ps, _mm256_sub_epi32, _mm256_srli_epi32, _mm256_and_si256,
    _mm256_castps_si256, _mm256_castsi256_ps, _mm256_set1_ps, _mm256_set1_epi32,
    _mm256_fmadd_ps,
    vdupq_n_s32, vdupq_n_f32, vandq_s32, vorrq_s32, vshrq_n_s32, vsubq_s32,
    vcvtq_f32_s32, vcvtq_n_f32_s32, vaddq_f32, vmulq_f32;
  cbn [zip_with zip fmap list_fmap replicate fst snd];
  reflexivity.

Lemma sse4_1_lanes_map v : length v = 4%nat -> sse4_1_lanes v = lane_sse4_1 <$> v.
Proof.
  destruct v as [|x0 [|x1 [|x2 [|x3 [|]]]]]; try discriminate. intros _. lanewise.
Qed.

Lemma avx2_lanes_map v : length v = 8%nat -> avx2_lanes v = lane_avx2 <$> v.
Proof.
  destruct v as [|x0 [|x1 [|x2 [|x3 [|x4 [|x5 [|x6 [|x7 [|]]]]]]]]]; try discriminate.
  intros _. lanewise.
Qed.

Lemma avx2_fma_lanes_map v : length v = 8%nat -> avx2_fma_lanes v = lane_avx2_fma <$> v.
Proof.
  destruct v as [|x0 [|x1 [|x2 [|x3 [|x4 [|x5 [|x6 [|x7 [|]]]]]]]]]; try discriminate.
  intros _. lanewise.
Qed.

Lemma neon_lanes_map v :
  length v = 4%nat -> VLOG2Q_NEON_F32 (signed32 <$> v) = lane_neon <$> v.
Proof.
  destruct v as [|x0 [|x1 [|x2 [|x3 [|]]]]]; try discriminate. intros _. lanewise.
Qed.

(** ** What a whole call leaves in memory *)

Lemma is_aligned_base al base :
  base mod al = 0 -> is_aligned al base 0 = true.
Proof.
  intros H. unfold is_aligned. simpl. rewrite Z.add_0_r. apply Z.eqb_eq. exact H.
Qed.

(** A vector sweep from the start of both buffers followed by a scalar sweep
    over what is left. *)
Lemma sweep_then_tail W al g fl ft body tbody N m :
  (forall p m, body p m = vstep W al g p m) ->
  (forall v, length v = W -> g v = fl <$> v) ->
  (forall p m, tbody p m = vstep 1 None (fmap ft) p m) ->
  ok_align al W (in_base m) 0 -> ok_align al W (out_base m) 0 ->
  (N <= length (in_cells m))%nat -> (N <= length (out_cells m))%nat ->
  (0 < W)%nat ->
  exists m1,
    for_loop (N / W) body (0, 0)%nat m = Some ((N / W * W, N / W * W)%nat, m1) /\
    for_loop (N - N / W * W) tbody (N / W * W, N / W * W)%nat m1 =
      Some ((N, N),
            Mem (in_base m) (in_cells m) (out_base m)
              ((fl <$> take (N / W * W) (in_cells m))
               ++ (ft <$> take (N - N / W * W) (drop (N / W * W) (in_cells m)))
               ++ drop N (out_cells m))
              (stores m
               ++ ((fun i => (i * W, W)%nat) <$> seq 0 (N / W))
               ++ ((fun i => (N / W * W + i, 1)%nat) <$> seq 0 (N - N / W * W)))).
Proof.
  intros Hbody Hg Htail Hia Hoa Hil Hol HW.
  set (n := (N / W * W)%nat).
  assert (Hn : (n <= N)%nat).
  { unfold n. rewrite Nat.mul_comm. apply Nat.Div0.mul_div_le. }
  eexists. split.
  - rewrite (for_loop_ext _ _ Hbody).
    rewrite (for_loop_vstep W al g fl (N / W) Hg) by (auto; simpl; fold n; lia).
    reflexivity.
  - rewrite (for_loop_ext _ _ Htail).
    rewrite (for_loop_vstep 1 None (fmap ft) ft (N - n)); simpl in_base; simpl in_cells;
      simpl out_base; simpl out_cells; simpl stores.
    + fold n. rewrite !Nat.mul_1_r, drop_0.
      assert (Hu : length (fl <$> take n (in_cells m)) = n).
      { rewrite length_fmap, length_take. lia. }
      pose proof (splice_splice (out_cells m) 0 (N - n) (fl <$> take n (in_cells m))
                    (ft <$> take (N - n) (drop n (in_cells m)))) as Hs.
      rewrite Hu in Hs. simpl in Hs.
      f_equal. f_equal; [f_equal; lia|]. f_equal.
      * rewrite Hs by lia. rewrite <- app_assoc. do 3 f_equal. lia.
      * rewrite <- app_assoc. do 2 f_equal.
        apply list_fmap_ext. intros _ i _. f_equal. lia.
    + intros v Hv. reflexivity.
    + exact I.
    + exact I.
    + fold n. lia.
    + fold n. rewrite !length_app, length_fmap, !length_take, !length_drop. simpl. lia.
Qed.

Lemma expected_stores_vector v N :
  (0 < width v)%nat ->
  vector_part v N = (N / width v * width v)%nat ->
  expected_stores v N =
    ((fun i => (i * width v, width v)%nat) <$> seq 0 (N / width v))
    ++ ((fun i => (N / width v * width v + i, 1)%nat) <$> seq 0 (N - N / width v * width v)).
Proof.
  intros HW Hv. unfold expected_stores. rewrite Hv.
  rewrite Nat.div_mul by lia. reflexivity.
Qed.

Lemma neon_body_vstep p m :
  (let '(bPtr, aPtr) := p in
   let* aval := vld1q_s32 aPtr in
   let log2_approx := VLOG2Q_NEON_F32 aval in
   let* _ := vst1q_f32 bPtr log2_approx in
   ret (bPtr + 4, aPtr + 4)%nat) m
  = vstep 4 None (fun v => VLOG2Q_NEON_F32 (signed32 <$> v)) p m.
Proof.
  destruct p as [bPtr aPtr].
  unfold vstep, vld1q_s32, vst1q_f32, bind, ret; cbn [fst snd].
  destruct (load_vec _ _ _ _) as [[? ?]|]; reflexivity.
Qed.

Ltac vector_kernel W al g fl ft lanes_map body_eq :=
  intros;
  unfold run, kernel,
    volk_32f_log2_32f_a_avx2_fma, volk_32f_log2_32f_a_avx2,
    volk_32f_log2_32f_a_sse4_1, volk_32f_log2_32f_neon,
    volk_32f_log2_32f_u_sse4_1, volk_32f_log2_32f_u_avx2_fma,
    volk_32f_log2_32f_u_avx2,
    volk_32f_log2_32f_generic, volk_32f_log2_32f_u_generic;
  unfold bind at 1;
  match goal with
  | |- context [for_loop _ ?body (0%nat, 0%nat) (Mem ?a_base ?a ?b_base ?b _)] =>
      match goal with
      | |- context [for_loop (?N - _) ?tbody _] =>
          destruct (sweep_then_tail W al g fl ft body tbody N
                      (Mem a_base a b_base b []))
            as [m1 [Hvec Htl]];
          [ body_eq
          | exact lanes_map
          | intros p0 m0; apply (scalar_body_vstep _ p0 m0)
          | cbn [ok_align in_base]; auto using is_aligned_base
          | cbn [ok_align out_base]; auto using is_aligned_base
          | cbn [in_cells]; lia
          | cbn [out_cells]; lia
          | lia
          | rewrite Hvec; unfold bind at 1; rewrite Htl; unfold ret;
            cbn [in_base in_cells out_base out_cells stores app];
            unfold kernel_cells;
            rewrite expected_stores_vector by (cbn [width]; (lia || reflexivity));
            cbn [vector_part width lane];
            rewrite <- app_assoc; reflexivity ]
      end
  end.

(** Every entry point, given buffers of at least [num_points] cells at
    addresses that meet its alignment, runs to completion; it leaves the
    input alone, fills the first [num_points] output cells with
    [kernel_cells] and performs exactly [expected_stores]. *)
Lemma kernel_run log2f v a_base a b_base b N :
  (N <= length a)%nat -> (N <= length b)%nat ->
  a_base mod alignment v = 0 -> b_base mod alignment v = 0 ->
  run (kernel log2f v) a_base a b_base b N =
    Some (Mem a_base a b_base (kernel_cells log2f v N a ++ drop N b)
            (expected_stores v N)).
Proof.
  destruct v; simpl alignment.
  - intros Ha Hb _ _. unfold run, kernel, volk_32f_log2_32f_generic. unfold bind at 1.
    rewrite (for_loop_ext _ _ (scalar_body_vstep (log2f_non_ieee log2f))).
    rewrite (for_loop_vstep 1 None (fmap (log2f_non_ieee log2f)) (log2f_non_ieee log2f))
      by (cbn [ok_align in_cells out_cells]; auto; lia).
    unfold ret, kernel_cells, expected_stores.
    cbn [vector_part width lane in_base in_cells out_base out_cells stores
         take fmap list_fmap app seq Nat.div Nat.divmod fst].
    rewrite !Nat.mul_1_r, !Nat.sub_0_r, !drop_0. do 2 f_equal.
    apply list_fmap_ext. intros _ i _. f_equal. lia.
  - vector_kernel 8%nat (Some 32) avx2_fma_lanes lane_avx2_fma (tail log2f a_avx2_fma)
      avx2_fma_lanes_map ltac:(intros [? ?] ?; reflexivity).
  - vector_kernel 8%nat (Some 32) avx2_lanes lane_avx2 (tail log2f a_avx2) avx2_lanes_map
      ltac:(intros [? ?] ?; reflexivity).
  - vector_kernel 4%nat (Some 16) sse4_1_lanes lane_sse4_1 (tail log2f a_sse4_1)
      sse4_1_lanes_map ltac:(intros [? ?] ?; reflexivity).
  - vector_kernel 4%nat (@None Z) (fun v => VLOG2Q_NEON_F32 (signed32 <$> v)) lane_neon
      (tail log2f neon) neon_lanes_map ltac:(exact neon_body_vstep).
  - intros Ha Hb _ _. unfold run, kernel, volk_32f_log2_32f_u_generic. unfold bind at 1.
    rewrite (for_loop_ext _ _ (scalar_body_vstep (tail log2f u_generic))).
    rewrite (for_loop_vstep 1 None (fmap (tail log2f u_generic)) (tail log2f u_generic))
      by (cbn [ok_align in_cells out_cells]; auto; lia).
    unfold ret, kernel_cells, expected_stores.
    cbn [vector_part width lane in_base in_cells out_base out_cells stores
         take fmap list_fmap app seq Nat.div Nat.divmod fst].
    rewrite !Nat.mul_1_r, !Nat.sub_0_r, !drop_0. do 2 f_equal.
    apply list_fmap_ext. intros _ i _. f_equal. lia.
  - vector_kernel 4%nat (@None Z) sse4_1_lanes lane_sse4_1 (tail log2f u_sse4_1)
      sse4_1_lanes_map ltac:(intros [? ?] ?; reflexivity).
  - vector_kernel 8%nat (@None Z) avx2_fma_lanes lane_avx2_fma (tail log2f u_avx2_fma)
      avx2_fma_lanes_map ltac:(intros [? ?] ?; reflexivity).
  - vector_kernel 8%nat (@None Z) avx2_lanes lane_avx2 (tail log2f u_avx2) avx2_lanes_map
      ltac:(intros [? ?] ?; reflexivity).
Qed.

(** ** The stand-in [log2f] meets the assumptions *)

Lemma Zrange_forallb (f : Z -> bool) (lo : Z) (n : nat) :
  forallb f ((fun i => lo + Z.of_nat i) <$> seq 0 n) = true ->
  forall k, lo <= k < lo + Z.of_nat n -> f k = true.
Proof.
  intros H k Hk. rewrite forallb_forall in H. apply H.
  apply list_elem_of_In, list_elem_of_fmap.
  exists (Z.to_nat (k - lo)). split; [lia|].
  apply list_elem_of_In, in_seq. lia.
Qed.

Lemma exp_field_range x : 0 <= F32.exp_field x <= 255.
Proof.
  assert (H : F32.exp_field x = Z.shiftr x 23 mod 256).
  { unfold F32.exp_field. change 255 with (Z.ones 8). apply Z.land_ones. lia. }
  rewrite H. pose proof (Z.mod_pos_bound (Z.shiftr x 23) 256 eq_refl). lia.
Qed.

Lemma frac_field_range x : 0 <= F32.frac_field x < 8388608.
Proof.
  assert (H : F32.frac_field x = x mod 8388608).
  { unfold F32.frac_field. change 8388607 with (Z.ones 23). apply Z.land_ones. lia. }
  rewrite H. pose proof (Z.mod_pos_bound x 8388608 eq_refl). lia.
Qed.

(** Decoding keeps the sign bit. *)
Lemma to_sf_sign x :
  match F32.to_sf x with
  | S754_zero s | S754_infinity s | S754_finite s _ _ => s = F32.sign_field x
  | S754_nan => True
  end.
Proof.
  unfold F32.to_sf.
  destruct (F32.exp_field x =? 0).
  - destruct (F32.frac_field x); reflexivity.
  - destruct (F32.exp_field x =? 255).
    + destruct (F32.frac_field x =? 0); [reflexivity | exact I].
    + destruct (F32.frac_field x + 8388608); [exact I | reflexivity | exact I].
Qed.

(** A decoded finite float has at most 24 significant bits and an exponent
    between -149 and 104. *)
Lemma to_sf_finite_range x s m e :
  F32.to_sf x = S754_finite s m e -> Zpos m < 16777216 /\ -149 <= e <= 104.
Proof.
  unfold F32.to_sf. pose proof (exp_field_range x) as He.
  pose proof (frac_field_range x) as Hf.
  destruct (F32.exp_field x =? 0) eqn:E0.
  - destruct (F32.frac_field x) eqn:Ef; try discriminate.
    intros [= <- <- <-]. lia.
  - destruct (F32.exp_field x =? 255) eqn:E255.
    + destruct (F32.frac_field x =? 0); discriminate.
    + apply Z.eqb_neq in E0, E255.
      destruct (F32.frac_field x + 8388608) eqn:Ef; try discriminate.
      intros [= <- <- <-]. lia.
Qed.

Lemma of_Z_not_inf k : -172 <= k <= 127 -> isinf (F32.of_Z k) = false.
Proof.
  intros Hk. apply negb_true_iff.
  apply (Zrange_forallb (fun k => negb (isinf (F32.of_Z k))) (-172) 300).
  - vm_compute. reflexivity.
  - lia.
Qed.

Lemma log2f_ref_libm : libm_log2f log2f_ref.
Proof.
  split.
  - intros x Hx. unfold is_zero in Hx. unfold log2f_ref.
    destruct (F32.to_sf x); try discriminate. reflexivity.
  - vm_compute. reflexivity.
  - intros x Hs Hz. unfold is_zero in Hz. unfold log2f_ref.
    pose proof (to_sf_sign x) as Hsg.
    destruct (F32.to_sf x) as [s|s| |s m e]; try discriminate;
      try reflexivity; rewrite Hs in Hsg; subst s; reflexivity.
  - intros x m e Hx. unfold log2f_ref. rewrite Hx.
    apply to_sf_finite_range in Hx as [Hm He].
    apply of_Z_not_inf.
    pose proof (Z.log2_nonneg (Zpos m)).
    assert (Z.log2 (Zpos m) < 24).
    { apply Z.log2_lt_pow2; lia. }
    lia.
Qed.

Lemma log2f_ref_pow2 : exact_on_powers_of_two log2f_ref.
Proof.
  intros k Hk.
  apply Z.eqb_eq.
  apply (Zrange_forallb (fun k => log2f_ref (pow2 k) =? F32.of_Z k) (-126) 254).
  - vm_compute. reflexivity.
  - lia.
Qed.

(** ** Cell by cell *)

Lemma vector_part_le v N : (vector_part v N <= N)%nat.
Proof.
  destruct v; cbn [vector_part width]; try lia;
    rewrite Nat.mul_comm; apply Nat.Div0.mul_div_le.
Qed.

Lemma kernel_cells_length log2f v N a :
  (N <= length a)%nat -> length (kernel_cells log2f v N a) = N.
Proof.
  intros H. unfold kernel_cells. pose proof (vector_part_le v N).
  rewrite length_app, !length_fmap, !length_take, length_drop. lia.
Qed.

(** Below [vector_part] a cell holds what the lane computes, from there on
    what the scalar kernel computes. *)
Lemma kernel_cells_lookup log2f v N a i x :
  (N <= length a)%nat -> (i < N)%nat -> a !! i = Some x ->
  kernel_cells log2f v N a !! i =
    Some (if decide (i < vector_part v N)%nat then lane log2f v x else tail log2f v x).
Proof.
  intros HN Hi Hx. unfold kernel_cells. pose proof (vector_part_le v N) as Hn.
  set (n := vector_part v N) in *.
  assert (Hl : length (lane log2f v <$> take n a) = n).
  { rewrite length_fmap, length_take. lia. }
  destruct (decide (i < n)%nat) as [Hlt|Hge].
  - rewrite lookup_app_l by lia.
    rewrite list_lookup_fmap, lookup_take_lt by lia. rewrite Hx. reflexivity.
  - rewrite lookup_app_r by lia. rewrite Hl.
    rewrite list_lookup_fmap, lookup_take_lt by lia.
    rewrite lookup_drop. replace (n + (i - n))%nat with i by lia.
    rewrite Hx. reflexivity.
Qed.

Lemma run_cell log2f v a_base a b_base b N :
  length a = N -> length b = N ->
  a_base mod alignment v = 0 -> b_base mod alignment v = 0 ->
  exists m,
    run (kernel log2f v) a_base a b_base b N = Some m /\
    out_cells m = kernel_cells log2f v N a /\
    stores m = expected_stores v N /\
    forall i x, a !! i = Some x ->
      out_cells m !! i =
        Some (if decide (i < vector_part v N)%nat then lane log2f v x else tail log2f v x).
Proof.
  intros Ha Hb Haa Hba. eexists. split; [apply kernel_run; auto; lia|].
  simpl. rewrite drop_ge, app_nil_r by lia. repeat split.
  intros i x Hx. apply kernel_cells_lookup; [lia | | exact Hx].
  apply lookup_lt_Some in Hx. lia.
Qed.

Lemma tail_scalar_of log2f v : tail log2f (scalar_of v) = tail log2f v.
Proof. destruct v; reflexivity. Qed.

(** ** The tail is the scalar kernel's *)

(** C2: for every variant of width W and every length N, the output cells
    from index floor(N/W)*W on are bit for bit what the variant's scalar
    kernel writes when it is run on that tail slice of the input alone. *)
Theorem tail_is_scalar_kernel log2f v a_base a b_base b N :
  length a = N -> length b = N ->
  a_base mod alignment v = 0 -> b_base mod alignment v = 0 ->
  exists m ms,
    run (kernel log2f v) a_base a b_base b N = Some m /\
    run (kernel log2f (scalar_of v))
        (a_base + 4 * Z.of_nat (N / width v * width v))
        (drop (N / width v * width v) a)
        (b_base + 4 * Z.of_nat (N / width v * width v))
        (drop (N / width v * width v) b)
        (N - N / width v * width v) = Some ms /\
    drop (N / width v * width v) (out_cells m) = out_cells ms.
Proof.
  intros Ha Hb Haa Hba.
  set (n := (N / width v * width v)%nat).
  assert (Hn : (n <= N)%nat).
  { unfold n. rewrite Nat.mul_comm. apply Nat.Div0.mul_div_le. }
  do 2 eexists. split; [apply kernel_run; auto; lia|].
  split.
  - apply kernel_run; rewrite ?length_drop; try lia;
      destruct v; apply Z.mod_1_r.
  - cbn [out_cells].
    rewrite (drop_ge b N), (drop_ge (drop n b) (N - n)), !app_nil_r
      by (rewrite ?length_drop; lia).
    unfold kernel_cells. rewrite tail_scalar_of.
    replace (vector_part (scalar_of v) (N - n)) with 0%nat by (destruct v; reflexivity).
    rewrite take_0, drop_0, Nat.sub_0_r. cbn [fmap list_fmap app].
    destruct (decide (width v = 1%nat)) as [W1|W1].
    + assert (n = N) by (unfold n; rewrite W1, Nat.div_1_r; lia).
      rewrite H, Nat.sub_diag, take_0. cbn [fmap list_fmap].
      apply drop_ge. rewrite length_app, !length_fmap, !length_take, length_drop. lia.
    + replace (vector_part v N) with n by (destruct v; try reflexivity; contradiction).
      rewrite drop_app_length'; [reflexivity|].
      rewrite length_fmap, length_take. lia.
Qed.

Lemma tail_is_scalar_kernel_witness :
  exists m ms,
    run (kernel log2f_ref a_sse4_1) 0
        [0x3f800000; 0x40000000; 0x40800000; 0x44800000; 0x3f000000; 0x40400000; 0x41000000]
        0 [0; 0; 0; 0; 0; 0; 0] 7 = Some m /\
    run (kernel log2f_ref (scalar_of a_sse4_1))
        (0 + 4 * Z.of_nat (7 / width a_sse4_1 * width a_sse4_1))
        (drop (7 / width a_sse4_1 * width a_sse4_1)
           [0x3f800000; 0x40000000; 0x40800000; 0x44800000; 0x3f000000; 0x40400000;
            0x41000000])
        (0 + 4 * Z.of_nat (7 / width a_sse4_1 * width a_sse4_1))
        (drop (7 / width a_sse4_1 * width a_sse4_1) [0; 0; 0; 0; 0; 0; 0])
        (7 - 7 / width a_sse4_1 * width a_sse4_1) = Some ms /\
    drop (7 / width a_sse4_1 * width a_sse4_1) (out_cells m) = out_cells ms.
Proof.
  apply (tail_is_scalar_kernel log2f_ref a_sse4_1 0
           [0x3f800000; 0x40000000; 0x40800000; 0x44800000; 0x3f000000; 0x40400000;
            0x41000000]
           0 [0; 0; 0; 0; 0; 0; 0] 7); reflexivity.
Defined.

(** ** Every cell is stored once *)

Lemma cells_stored_app l1 l2 :
  cells_stored (l1 ++ l2) = cells_stored l1 ++ cells_stored l2.
Proof. unfold cells_stored. apply flat_map_app. Qed.

Lemma cells_stored_groups W k j :
  cells_stored ((fun i => (i * W, W)%nat) <$> seq j k) = seq (j * W) (k * W).
Proof.
  revert j. induction k as [|k IH]; intros j; [reflexivity|].
  cbn [seq fmap list_fmap]. change (cells_stored (?x :: ?l)) with
    (seq (fst x) (snd x) ++ cells_stored l).
  rewrite IH. cbn [fst snd].
  replace (S k * W)%nat with (W + k * W)%nat by lia.
  rewrite seq_app. f_equal. f_equal. lia.
Qed.

Lemma cells_stored_singles n k j :
  cells_stored ((fun i => (n + i, 1)%nat) <$> seq j k) = seq (n + j) k.
Proof.
  revert j. induction k as [|k IH]; intros j; [reflexivity|].
  cbn [seq fmap list_fmap]. change (cells_stored (?x :: ?l)) with
    (seq (fst x) (snd x) ++ cells_stored l).
  rewrite IH. cbn [fst snd seq app]. f_equal. f_equal. lia.
Qed.

Lemma cells_stored_expected v N : cells_stored (expected_stores v N) = seq 0 N.
Proof.
  unfold expected_stores. pose proof (vector_part_le v N) as Hn.
  set (n := vector_part v N) in *.
  rewrite cells_stored_app, cells_stored_groups, cells_stored_singles.
  assert (Hd : (n / width v * width v = n)%nat).
  { unfold n. destruct v; cbn [vector_part width]; try reflexivity;
      rewrite Nat.div_mul by lia; reflexivity. }
  rewrite Hd, Nat.mul_0_l, Nat.add_0_r.
  transitivity (seq 0 (n + (N - n))); [|f_equal; lia].
  rewrite seq_app. reflexivity.
Qed.

(** C9: for every variant and every length N, also 0 and lengths that the
    width W does not divide, the stores of a call cover the output indices
    0..N-1 exactly once and in order: floor(N/W) stores of W cells by the
    vector loop, then N mod W stores of one cell by the scalar loop; for
    N = 7 and W = 4 that is one group of four and three single cells. *)
Theorem every_index_stored_once log2f v a_base a b_base b N :
  length a = N -> length b = N ->
  a_base mod alignment v = 0 -> b_base mod alignment v = 0 ->
  exists m,
    run (kernel log2f v) a_base a b_base b N = Some m /\
    length (out_cells m) = N /\
    cells_stored (stores m) = seq 0 N /\
    stores m =
      ((fun i => (i * width v, width v)%nat) <$> seq 0 (vector_part v N / width v))
      ++ ((fun i => (vector_part v N + i, 1)%nat) <$> seq 0 (N - vector_part v N)) /\
    ((1 < width v)%nat ->
       (vector_part v N / width v = N / width v)%nat /\
       (vector_part v N = N / width v * width v)%nat /\
       (N - vector_part v N = N mod width v)%nat) /\
    (width v = 4%nat -> N = 7%nat -> stores m = [(0, 4); (4, 1); (5, 1); (6, 1)]%nat).
Proof.
  intros Ha Hb Haa Hba.
  destruct (run_cell log2f v a_base a b_base b N Ha Hb Haa Hba) as (m & Hrun & Hc & Hs & _).
  exists m. split; [exact Hrun|].
  split; [rewrite Hc; apply kernel_cells_length; lia|].
  split; [rewrite Hs; apply cells_stored_expected|].
  split; [rewrite Hs; reflexivity|].
  split.
  - intros HW.
    assert (Hv : vector_part v N = (N / width v * width v)%nat)
      by (destruct v; cbn [width] in HW; try lia; reflexivity).
    rewrite Hv. split; [apply Nat.div_mul; lia|]. split; [reflexivity|].
    pose proof (Nat.div_mod_eq N (width v)). lia.
  - intros HW HN. rewrite Hs, HN.
    destruct v; try discriminate HW; reflexivity.
Qed.

Lemma every_index_stored_once_witness :
  exists m,
    run (kernel log2f_ref u_sse4_1) 0
        [0x3f800000; 0x40000000; 0x40800000; 0x44800000; 0x3f000000; 0x40400000; 0x41000000]
        0 [0; 0; 0; 0; 0; 0; 0] 7 = Some m /\
    length (out_cells m) = 7%nat /\
    cells_stored (stores m) = seq 0 7 /\
    stores m =
      ((fun i => (i * width u_sse4_1, width u_sse4_1)%nat)
         <$> seq 0 (vector_part u_sse4_1 7 / width u_sse4_1))
      ++ ((fun i => (vector_part u_sse4_1 7 + i, 1)%nat)
            <$> seq 0 (7 - vector_part u_sse4_1 7)) /\
    ((1 < width u_sse4_1)%nat ->
       (vector_part u_sse4_1 7 / width u_sse4_1 = 7 / width u_sse4_1)%nat /\
       (vector_part u_sse4_1 7 = 7 / width u_sse4_1 * width u_sse4_1)%nat /\
       (7 - vector_part u_sse4_1 7 = 7 mod width u_sse4_1)%nat) /\
    (width u_sse4_1 = 4%nat -> 7%nat = 7%nat ->
     stores m = [(0, 4); (4, 1); (5, 1); (6, 1)]%nat).
Proof.
  apply (every_index_stored_once log2f_ref u_sse4_1 0
           [0x3f800000; 0x40000000; 0x40800000; 0x44800000; 0x3f000000; 0x40400000;
            0x41000000]
           0 [0; 0; 0; 0; 0; 0; 0] 7); reflexivity.
Defined.

(** ** The two scalar kernels *)

(** Where [log2f] returns minus infinity both kernels write [-127.0f]. *)
Lemma tails_on_neg_inf log2f x :
  log2f x = F32.neg_inf ->
  log2f_non_ieee log2f x = F32.lit (-127) 1 /\
  tail log2f u_generic x = F32.lit (-127) 1.
Proof.
  intros H. unfold log2f_non_ieee, tail. rewrite H. split; vm_compute; reflexivity.
Qed.

(** Where it returns plus infinity they part. *)
Lemma tails_on_pos_inf log2f x :
  log2f x = F32.pos_inf ->
  log2f_non_ieee log2f x = F32.lit 127 1 /\
  tail log2f u_generic x = F32.lit (-127) 1.
Proof.
  intros H. unfold log2f_non_ieee, tail. rewrite H. split; vm_compute; reflexivity.
Qed.

(** Anything else [log2f] returns is passed on by both. *)
Lemma tails_on_other log2f x :
  isinf (log2f x) = false ->
  log2f_non_ieee log2f x = log2f x /\ tail log2f u_generic x = log2f x.
Proof.
  intros H. unfold log2f_non_ieee, tail. rewrite H. split; reflexivity.
Qed.

Lemma nan_is_not_inf y : is_nan y = true -> isinf y = false.
Proof. unfold is_nan, isinf. destruct (F32.to_sf y); intros; congruence. Qed.

Lemma tails_agree log2f x :
  libm_log2f log2f -> finite_nonneg x = true ->
  log2f_non_ieee log2f x = tail log2f u_generic x.
Proof.
  intros L Hx. unfold finite_nonneg in Hx.
  destruct (F32.to_sf x) as [s|s| |s m e] eqn:Ex; try discriminate.
  - destruct (tails_on_neg_inf log2f x) as [-> ->]; [|reflexivity].
    apply (log2f_of_zero _ L). unfold is_zero. rewrite Ex. reflexivity.
  - destruct s; try discriminate.
    destruct (tails_on_other log2f x) as [-> ->]; [|reflexivity].
    apply (log2f_of_positive _ L x m e Ex).
Qed.

Lemma twins log2f v u :
  unaligned_of v = Some u ->
  width u = width v /\ alignment u = 1 /\
  (forall N, vector_part u N = vector_part v N) /\
  (forall x, (1 < width v)%nat -> lane log2f u x = lane log2f v x) /\
  tail log2f v = log2f_non_ieee log2f /\
  tail log2f u = tail log2f u_generic /\
  ((width v = 1)%nat -> lane log2f v = tail log2f v /\ lane log2f u = tail log2f u).
Proof.
  destruct v; intros [= <-];
    (split; [reflexivity|]); (split; [reflexivity|]); (split; [reflexivity|]);
    (split; [intros x HW; cbn [width] in HW;
             first [exfalso; lia | cbn [lane]; reflexivity]|]);
    (split; [reflexivity|]); (split; [reflexivity|]);
    intros HW; cbn [width] in HW; first [discriminate HW | split; reflexivity].
Qed.

(** ** Aligned and unaligned twins *)

(** C6: for every width (4, 8, and also 1), every length N and every input
    of finite non-negative floats, the aligned variant and its unaligned
    twin, run on buffers that meet the aligned variant's alignment, end in
    the same memory: bit-identical output cells (and the same stores).  The
    platform's [log2f] is assumed to follow ISO C at the special values. *)
Theorem aligned_unaligned_agree log2f v u a_base a b_base b N :
  libm_log2f log2f ->
  unaligned_of v = Some u ->
  length a = N -> length b = N ->
  a_base mod alignment v = 0 -> b_base mod alignment v = 0 ->
  Forall (fun x => finite_nonneg x = true) a ->
  exists m,
    run (kernel log2f v) a_base a b_base b N = Some m /\
    run (kernel log2f u) a_base a b_base b N = Some m.
Proof.
  intros L Hu Ha Hb Haa Hba Hfin.
  destruct (twins log2f v u Hu) as (HW & Hal & Hvp & Hlane & Htv & Htu & H1).
  eexists. split; [apply kernel_run; auto; lia|].
  rewrite kernel_run by (rewrite ?Hal, ?Z.mod_1_r; auto; lia).
  do 2 f_equal; [f_equal|].
  - unfold kernel_cells. rewrite Hvp, Htv, Htu. f_equal.
    + destruct (decide (width v = 1%nat)) as [W1|W1].
      * destruct (H1 W1) as [-> ->]. rewrite Htv, Htu.
        apply list_fmap_ext. intros i x Hx. symmetry. apply tails_agree; [exact L|].
        apply lookup_take_Some in Hx as [Hx _].
        exact (proj1 (Forall_lookup _ _) Hfin i x Hx).
      * apply list_fmap_ext. intros i x _. apply Hlane.
        destruct v; cbn [width] in *; lia.
    + apply list_fmap_ext. intros i x Hx. symmetry. apply tails_agree; [exact L|].
      apply lookup_take_Some in Hx as [Hx _]. rewrite lookup_drop in Hx.
      exact (proj1 (Forall_lookup _ _) Hfin _ x Hx).
  - unfold expected_stores. rewrite Hvp, HW. reflexivity.
Qed.

Lemma aligned_unaligned_agree_witness :
  exists m,
    run (kernel log2f_ref a_sse4_1) 32
        [0x3f800000; 0x40000000; 0x40800000; 0x44800000; 0x3f000000; 0; 0x00000001]
        64 [0; 0; 0; 0; 0; 0; 0] 7 = Some m /\
    run (kernel log2f_ref u_sse4_1) 32
        [0x3f800000; 0x40000000; 0x40800000; 0x44800000; 0x3f000000; 0; 0x00000001]
        64 [0; 0; 0; 0; 0; 0; 0] 7 = Some m.
Proof.
  apply (aligned_unaligned_agree log2f_ref a_sse4_1 u_sse4_1 32
           [0x3f800000; 0x40000000; 0x40800000; 0x44800000; 0x3f000000; 0; 0x00000001]
           64 [0; 0; 0; 0; 0; 0; 0] 7 log2f_ref_libm);
    try reflexivity.
  repeat (constructor; [vm_compute; reflexivity|]). constructor.
Defined.

(** ** Saturation *)

Lemma tails_on_neg_inf_input log2f :
  libm_log2f log2f ->
  is_nan (log2f F32.neg_inf) = true /\
  log2f_non_ieee log2f F32.neg_inf = log2f F32.neg_inf /\
  tail log2f u_generic F32.neg_inf = log2f F32.neg_inf.
Proof.
  intros L.
  assert (Hn : is_nan (log2f F32.neg_inf) = true).
  { apply (log2f_of_negative _ L); vm_compute; reflexivity. }
  split; [exact Hn|]. apply tails_on_other, nan_is_not_inf, Hn.
Qed.

(** C4, as the code has it: written for an input of plus infinity is
    +127.0 under the sign-preserving policy ([log2f_non_ieee], the [generic]
    kernel) and -127.0 under the sign-collapsing one ([u_generic]); an input
    of zero, whose logarithm is minus infinity, gives -127.0 under both; an
    input of minus infinity is not saturated: [log2f] returns a NaN, which
    both policies pass on. *)
Theorem saturation_policies log2f a_base a b_base b N :
  libm_log2f log2f ->
  length a = N -> length b = N ->
  exists mp mc,
    run (kernel log2f generic) a_base a b_base b N = Some mp /\
    run (kernel log2f u_generic) a_base a b_base b N = Some mc /\
    forall i x, a !! i = Some x ->
      (x = F32.pos_inf ->
         out_cells mp !! i = Some (F32.lit 127 1) /\
         out_cells mc !! i = Some (F32.lit (-127) 1)) /\
      (is_zero x = true ->
         out_cells mp !! i = Some (F32.lit (-127) 1) /\
         out_cells mc !! i = Some (F32.lit (-127) 1)) /\
      (x = F32.neg_inf ->
         exists y, is_nan y = true /\
                   out_cells mp !! i = Some y /\ out_cells mc !! i = Some y).
Proof.
  intros L Ha Hb.
  destruct (run_cell log2f generic a_base a b_base b N Ha Hb (Z.mod_1_r _) (Z.mod_1_r _))
    as (mp & Hp & _ & _ & Hpc).
  destruct (run_cell log2f u_generic a_base a b_base b N Ha Hb (Z.mod_1_r _) (Z.mod_1_r _))
    as (mc & Hc & _ & _ & Hcc).
  exists mp, mc. split; [exact Hp|]. split; [exact Hc|].
  intros i x Hx. rewrite (Hpc i x Hx), (Hcc i x Hx).
  cbn [vector_part]. destruct (decide (i < 0)%nat) as [?|_]; [lia|].
  change (tail log2f generic x) with (log2f_non_ieee log2f x).
  repeat split.
  - subst x. f_equal. apply tails_on_pos_inf, (log2f_of_pos_inf _ L).
  - subst x. f_equal. apply tails_on_pos_inf, (log2f_of_pos_inf _ L).
  - f_equal. apply tails_on_neg_inf, (log2f_of_zero _ L), H.
  - f_equal. apply tails_on_neg_inf, (log2f_of_zero _ L), H.
  - intros ->. destruct (tails_on_neg_inf_input log2f L) as (Hn & -> & ->).
    exists (log2f F32.neg_inf). repeat split. exact Hn.
Qed.

Lemma saturation_policies_witness :
  exists mp mc,
    run (kernel log2f_ref generic) 0 [F32.pos_inf; 0; F32.neg_inf] 0 [0; 0; 0] 3 = Some mp /\
    run (kernel log2f_ref u_generic) 0 [F32.pos_inf; 0; F32.neg_inf] 0 [0; 0; 0] 3
      = Some mc /\
    forall i x, [F32.pos_inf; 0; F32.neg_inf] !! i = Some x ->
      (x = F32.pos_inf ->
         out_cells mp !! i = Some (F32.lit 127 1) /\
         out_cells mc !! i = Some (F32.lit (-127) 1)) /\
      (is_zero x = true ->
         out_cells mp !! i = Some (F32.lit (-127) 1) /\
         out_cells mc !! i = Some (F32.lit (-127) 1)) /\
      (x = F32.neg_inf ->
         exists y, is_nan y = true /\
                   out_cells mp !! i = Some y /\ out_cells mc !! i = Some y).
Proof.
  apply (saturation_policies log2f_ref 0 [F32.pos_inf; 0; F32.neg_inf] 0 [0; 0; 0] 3
           log2f_ref_libm); reflexivity.
Defined.

(** C4 as stated fails at an input of minus infinity: with a [log2f] that
    follows ISO C both scalar kernels write the NaN 0x7fc00000 there, not
    -127.0 (0xc2fe0000). *)
Lemma minus_infinity_is_not_saturated :
  libm_log2f log2f_ref /\
  run (kernel log2f_ref generic) 0 [F32.neg_inf] 0 [0] 1
    = Some (Mem 0 [F32.neg_inf] 0 [0x7fc00000] [(0, 1)%nat]) /\
  run (kernel log2f_ref u_generic) 0 [F32.neg_inf] 0 [0] 1
    = Some (Mem 0 [F32.neg_inf] 0 [0x7fc00000] [(0, 1)%nat]) /\
  is_nan 0x7fc00000 = true /\
  F32.lit (-127) 1 = 0xc2fe0000.
Proof.
  split; [exact log2f_ref_libm|]. repeat split; vm_compute; reflexivity.
Qed.

(** The saturation value of a variant's scalar fallback for plus infinity. *)
Lemma tail_on_pos_inf log2f v :
  log2f F32.pos_inf = F32.pos_inf ->
  tail log2f v F32.pos_inf =
    match scalar_of v with
    | generic => F32.lit 127 1
    | _ => F32.lit (-127) 1
    end.
Proof.
  intros H. destruct (tails_on_pos_inf log2f F32.pos_inf H) as [Hp Hc].
  destruct v; cbn [scalar_of];
    [ exact Hp | exact Hp | exact Hp | exact Hp | exact Hp
    | exact Hc | exact Hc | exact Hc | exact Hc ].
Qed.

(** C3, as the code has it: in the scalar tail of every variant an input of
    plus infinity is written as the saturation value of the variant's scalar
    fallback, +127.0 in the aligned tree (and NEON) and -127.0 in the
    unaligned tree, and an input of minus infinity as the NaN that [log2f]
    returns. *)
Theorem infinities_in_the_tail log2f v a_base a b_base b N :
  libm_log2f log2f ->
  length a = N -> length b = N ->
  a_base mod alignment v = 0 -> b_base mod alignment v = 0 ->
  exists m,
    run (kernel log2f v) a_base a b_base b N = Some m /\
    forall i, (vector_part v N <= i)%nat ->
      (a !! i = Some F32.pos_inf ->
         out_cells m !! i =
           Some (match scalar_of v with
                 | generic => F32.lit 127 1
                 | _ => F32.lit (-127) 1
                 end)) /\
      (a !! i = Some F32.neg_inf ->
         exists y, out_cells m !! i = Some y /\ is_nan y = true).
Proof.
  intros L Ha Hb Haa Hba.
  destruct (run_cell log2f v a_base a b_base b N Ha Hb Haa Hba) as (m & Hm & _ & _ & Hc).
  exists m. split; [exact Hm|]. intros i Hi. split; intros Hx; rewrite (Hc i _ Hx);
    (destruct (decide (i < vector_part v N)%nat) as [?|_]; [lia|]).
  - f_equal. apply tail_on_pos_inf, (log2f_of_pos_inf _ L).
  - exists (tail log2f v F32.neg_inf). split; [reflexivity|].
    destruct (tails_on_neg_inf_input log2f L) as (Hn & Hp & Hu).
    assert (Ht : tail log2f v F32.neg_inf = log2f F32.neg_inf)
      by (destruct v;
          [ exact Hp | exact Hp | exact Hp | exact Hp | exact Hp
          | exact Hu | exact Hu | exact Hu | exact Hu ]).
    rewrite Ht. exact Hn.
Qed.

Lemma infinities_in_the_tail_witness :
  exists m,
    run (kernel log2f_ref a_sse4_1) 0
        [0x3f800000; 0x40000000; 0x40800000; 0x44800000; F32.pos_inf; F32.neg_inf]
        0 [0; 0; 0; 0; 0; 0] 6 = Some m /\
    forall i, (vector_part a_sse4_1 6 <= i)%nat ->
      ([0x3f800000; 0x40000000; 0x40800000; 0x44800000; F32.pos_inf; F32.neg_inf] !! i
         = Some F32.pos_inf ->
         out_cells m !! i =
           Some (match scalar_of a_sse4_1 with
                 | generic => F32.lit 127 1
                 | _ => F32.lit (-127) 1
                 end)) /\
      ([0x3f800000; 0x40000000; 0x40800000; 0x44800000; F32.pos_inf; F32.neg_inf] !! i
         = Some F32.neg_inf ->
         exists y, out_cells m !! i = Some y /\ is_nan y = true).
Proof.
  apply (infinities_in_the_tail log2f_ref a_sse4_1 0
           [0x3f800000; 0x40000000; 0x40800000; 0x44800000; F32.pos_inf; F32.neg_inf]
           0 [0; 0; 0; 0; 0; 0] 6 log2f_ref_libm); reflexivity.
Defined.

(** C3 as stated fails in the vector part: the lanes have no saturation, an
    infinity of either sign has exponent field 255 and significand 1.0 and
    comes out as 128.0 (0x43000000), not as 127.0 or -127.0; and in the
    tail minus infinity comes out as a NaN. *)
Lemma infinity_in_a_vector_lane :
  run (kernel log2f_ref a_sse4_1) 0
      [F32.pos_inf; F32.neg_inf; F32.pos_inf; F32.neg_inf; F32.neg_inf]
      0 [0; 0; 0; 0; 0] 5
    = Some (Mem 0 [F32.pos_inf; F32.neg_inf; F32.pos_inf; F32.neg_inf; F32.neg_inf] 0
              [0x43000000; 0x43000000; 0x43000000; 0x43000000; 0x7fc00000]
              [(0, 4); (4, 1)]%nat) /\
  F32.lit 128 1 = 0x43000000 /\
  F32.lit 127 1 = 0x42fe0000 /\
  F32.lit (-127) 1 = 0xc2fe0000 /\
  lane_avx2 F32.pos_inf = 0x43000000 /\
  lane_avx2_fma F32.pos_inf = 0x43000000 /\
  libm_log2f log2f_ref.
Proof.
  do 6 (split; [vm_compute; reflexivity|]). exact log2f_ref_libm.
Qed.

Lemma kernel_run_single log2f v a_base x b_base b0 :
  a_base mod alignment v = 0 -> b_base mod alignment v = 0 ->
  run (kernel log2f v) a_base [x] b_base [b0] 1 =
    Some (Mem a_base [x] b_base [tail log2f v x] [(0, 1)%nat]).
Proof.
  intros Haa Hba. rewrite kernel_run by (auto; cbn [length]; lia).
  unfold kernel_cells, expected_stores.
  assert (Hv : vector_part v 1 = 0%nat) by (destruct v; reflexivity).
  rewrite Hv. replace (0 / width v)%nat with 0%nat by (destruct v; reflexivity).
  reflexivity.
Qed.

(** C5, evaluated: on a buffer of one cell holding plus infinity, whose
    logarithm is infinite, an aligned-tree entry point writes +127.0 and its
    unaligned twin writes -127.0. *)
Theorem twins_part_at_plus_infinity log2f v u a_base b_base b0 :
  libm_log2f log2f ->
  unaligned_of v = Some u ->
  a_base mod alignment v = 0 -> b_base mod alignment v = 0 ->
  run (kernel log2f v) a_base [F32.pos_inf] b_base [b0] 1
    = Some (Mem a_base [F32.pos_inf] b_base [F32.lit 127 1] [(0, 1)%nat]) /\
  run (kernel log2f u) a_base [F32.pos_inf] b_base [b0] 1
    = Some (Mem a_base [F32.pos_inf] b_base [F32.lit (-127) 1] [(0, 1)%nat]).
Proof.
  intros L Hu Haa Hba.
  destruct (twins log2f v u Hu) as (_ & Hal & _ & _ & _ & _ & _).
  rewrite !kernel_run_single by (rewrite ?Hal, ?Z.mod_1_r; auto).
  rewrite !tail_on_pos_inf by apply (log2f_of_pos_inf _ L).
  destruct v; inversion Hu; subst u; split; reflexivity.
Qed.

Lemma twins_part_at_plus_infinity_witness :
  run (kernel log2f_ref a_avx2) 64 [F32.pos_inf] 96 [0] 1
    = Some (Mem 64 [F32.pos_inf] 96 [F32.lit 127 1] [(0, 1)%nat]) /\
  run (kernel log2f_ref u_avx2) 64 [F32.pos_inf] 96 [0] 1
    = Some (Mem 64 [F32.pos_inf] 96 [F32.lit (-127) 1] [(0, 1)%nat]).
Proof.
  apply (twins_part_at_plus_infinity log2f_ref a_avx2 u_avx2 64 96 0 log2f_ref_libm);
    reflexivity.
Defined.

(** ** Zero *)

Lemma tail_of_zero log2f v :
  libm_log2f log2f -> tail log2f v 0 = F32.lit (-127) 1.
Proof.
  intros L.
  destruct (tails_on_neg_inf log2f 0) as [Hp Hc].
  { apply (log2f_of_zero _ L). vm_compute. reflexivity. }
  destruct v;
    [ exact Hp | exact Hp | exact Hp | exact Hp | exact Hp
    | exact Hc | exact Hc | exact Hc | exact Hc ].
Qed.

Lemma lane_of_zero log2f v :
  libm_log2f log2f -> v <> neon -> lane log2f v 0 = F32.lit (-127) 1.
Proof.
  intros L Hv.
  destruct v; cbn [lane];
    [ exact (tail_of_zero log2f generic L)
    | vm_compute; reflexivity
    | vm_compute; reflexivity
    | vm_compute; reflexivity
    | contradiction
    | exact (tail_of_zero log2f u_generic L)
    | vm_compute; reflexivity
    | vm_compute; reflexivity
    | vm_compute; reflexivity ].
Qed.

Lemma cells_of_constant_input (f g : bits -> bits) (x c : bits) (n N : nat) :
  f x = c -> g x = c -> (n <= N)%nat ->
  (f <$> take n (replicate N x)) ++ (g <$> take (N - n) (drop n (replicate N x)))
  = replicate N c.
Proof.
  intros Hf Hg Hn.
  rewrite take_replicate, drop_replicate, take_replicate, !fmap_replicate, Hf, Hg.
  rewrite <- replicate_add. f_equal. lia.
Qed.

(** C10, as the code has it: for an input of +0.0 every path but the NEON
    lanes writes exactly -127.0.  The SSE4.1, AVX2 and FMA lanes take the
    all-zero pattern apart into the exponent -127 and the significand 1.0,
    so that [frac - 1] and with it the polynomial term is +0.0 and the lane
    is -127.0, the value both scalar kernels put for [log2f(0)]. *)
Theorem zero_gives_minus_127 log2f v a_base b_base b N :
  libm_log2f log2f -> v <> neon ->
  length b = N ->
  a_base mod alignment v = 0 -> b_base mod alignment v = 0 ->
  run (kernel log2f v) a_base (replicate N 0) b_base b N
    = Some (Mem a_base (replicate N 0) b_base (replicate N (F32.lit (-127) 1))
              (expected_stores v N)) /\
  lane_exponent 0 = F32.lit (-127) 1 /\
  lane_frac 0 = F32.lit 1 1 /\
  F32.sub (lane_frac 0) (F32.lit 1 1) = 0 /\
  F32.mul (horner (lane_frac 0)) 0 = 0 /\
  F32.add (lane_exponent 0) 0 = F32.lit (-127) 1 /\
  F32.fma (horner_fma (lane_frac 0)) 0 (lane_exponent 0) = F32.lit (-127) 1.
Proof.
  intros L Hv Hb Haa Hba. split.
  - rewrite kernel_run by (rewrite ?length_replicate; auto; lia).
    rewrite drop_ge, app_nil_r by lia. unfold kernel_cells.
    rewrite (cells_of_constant_input _ _ 0 (F32.lit (-127) 1)).
    + reflexivity.
    + apply lane_of_zero; assumption.
    + apply tail_of_zero; assumption.
    + apply vector_part_le.
  - do 5 (split; [vm_compute; reflexivity|]). vm_compute. reflexivity.
Qed.

Lemma zero_gives_minus_127_witness :
  run (kernel log2f_ref a_avx2_fma) 0 (replicate 11 0) 0 (replicate 11 0x3f800000) 11
    = Some (Mem 0 (replicate 11 0) 0 (replicate 11 (F32.lit (-127) 1))
              (expected_stores a_avx2_fma 11)) /\
  lane_exponent 0 = F32.lit (-127) 1 /\
  lane_frac 0 = F32.lit 1 1 /\
  F32.sub (lane_frac 0) (F32.lit 1 1) = 0 /\
  F32.mul (horner (lane_frac 0)) 0 = 0 /\
  F32.add (lane_exponent 0) 0 = F32.lit (-127) 1 /\
  F32.fma (horner_fma (lane_frac 0)) 0 (lane_exponent 0) = F32.lit (-127) 1.
Proof.
  apply (zero_gives_minus_127 log2f_ref a_avx2_fma 0 0 (replicate 11 0x3f800000) 11
           log2f_ref_libm); [discriminate | reflexivity | reflexivity | reflexivity].
Defined.

(** C10 as stated fails on the NEON path: its lane adds the polynomial to
    the exponent without the factor [frac - 1], and for +0.0 the rounded sum
    is 0xc2fe0001, one unit in the last place below -127.0 (0xc2fe0000). *)
Lemma neon_lane_of_zero :
  run (kernel log2f_ref neon) 0 [0; 0; 0; 0] 0 [0; 0; 0; 0] 4
    = Some (Mem 0 [0; 0; 0; 0] 0 [0xc2fe0001; 0xc2fe0001; 0xc2fe0001; 0xc2fe0001]
              [(0, 4)%nat]) /\
  F32.lit (-127) 1 = 0xc2fe0000.
Proof.
  split; vm_compute; reflexivity.
Qed.

(** ** Powers of two *)

Lemma lanes_on_pow2 k :
  -126 <= k <= 127 ->
  lane_sse4_1 (pow2 k) = F32.of_Z k /\
  lane_avx2 (pow2 k) = F32.of_Z k /\
  lane_avx2_fma (pow2 k) = F32.of_Z k /\
  within (1 # 100000) (lane_neon (pow2 k)) k = true /\
  within (1 # 100000) (F32.of_Z k) k = true.
Proof.
  intros Hk.
  assert (H : ((lane_sse4_1 (pow2 k) =? F32.of_Z k)
               && (lane_avx2 (pow2 k) =? F32.of_Z k)
               && (lane_avx2_fma (pow2 k) =? F32.of_Z k)
               && within (1 # 100000) (lane_neon (pow2 k)) k
               && within (1 # 100000) (F32.of_Z k) k)%bool = true).
  { apply (Zrange_forallb
             (fun k => ((lane_sse4_1 (pow2 k) =? F32.of_Z k)
                        && (lane_avx2 (pow2 k) =? F32.of_Z k)
                        && (lane_avx2_fma (pow2 k) =? F32.of_Z k)
                        && within (1 # 100000) (lane_neon (pow2 k)) k
                        && within (1 # 100000) (F32.of_Z k) k)%bool) (-126) 254).
    - vm_compute. reflexivity.
    - lia. }
  rewrite !andb_true_iff, !Z.eqb_eq in H. tauto.
Qed.

Lemma tail_on_pow2 log2f v k :
  exact_on_powers_of_two log2f -> -126 <= k <= 127 ->
  tail log2f v (pow2 k) = F32.of_Z k.
Proof.
  intros E Hk.
  destruct (tails_on_other log2f (pow2 k)) as [Hp Hc].
  { rewrite (E k Hk). apply of_Z_not_inf. lia. }
  rewrite (E k Hk) in Hp, Hc.
  destruct v;
    [ exact Hp | exact Hp | exact Hp | exact Hp | exact Hp
    | exact Hc | exact Hc | exact Hc | exact Hc ].
Qed.

(** C8: for every integer k with 2^k a normal float, i.e. -126 <= k <= 127,
    every variant applied to an array of such powers writes, for 2^k, a
    float within 1e-5 of k; all paths but the NEON lanes write k exactly.
    The array [1.0, 2.0, 4.0, 1024.0, 0.5] is the case k = 0, 1, 2, 10, -1.
    The platform's [log2f] is assumed exact on powers of two. *)
Theorem powers_of_two log2f v a_base b_base b ks :
  exact_on_powers_of_two log2f ->
  Forall (fun k => -126 <= k <= 127) ks ->
  length b = length ks ->
  a_base mod alignment v = 0 -> b_base mod alignment v = 0 ->
  exists m,
    run (kernel log2f v) a_base (pow2 <$> ks) b_base b (length ks) = Some m /\
    Forall2 (fun y k => within (1 # 100000) y k = true) (out_cells m) ks /\
    (v <> neon -> out_cells m = F32.of_Z <$> ks) /\
    pow2 <$> [0; 1; 2; 10; -1]
      = [0x3f800000; 0x40000000; 0x40800000; 0x44800000; 0x3f000000].
Proof.
  intros E Hks Hb Haa Hba.
  destruct (run_cell log2f v a_base (pow2 <$> ks) b_base b (length ks)) as (m & Hm & Hc & _ & Hi);
    auto; [apply length_fmap|].
  assert (Hlen : length (out_cells m) = length ks).
  { rewrite Hc, kernel_cells_length; rewrite ?length_fmap; lia. }
  assert (Hcell : forall i y k, out_cells m !! i = Some y -> ks !! i = Some k ->
                  within (1 # 100000) y k = true /\ (v <> neon -> y = F32.of_Z k)).
  { intros i y k Hy Hk.
    assert (Hr : -126 <= k <= 127) by exact (proj1 (Forall_lookup _ _) Hks i k Hk).
    rewrite (Hi i (pow2 k)) in Hy by (rewrite list_lookup_fmap, Hk; reflexivity).
    injection Hy as <-.
    destruct (lanes_on_pow2 k Hr) as (Hs & Ha & Hf & Hn & Hz).
    destruct (decide (i < vector_part v (length ks))%nat).
    - destruct v; cbn [lane]; rewrite ?Hs, ?Ha, ?Hf, ?(tail_on_pow2 log2f _ k E Hr);
        try (split; [exact Hz | reflexivity]).
      split; [exact Hn | intros C; contradiction].
    - rewrite (tail_on_pow2 log2f _ k E Hr). split; [exact Hz | reflexivity]. }
  exists m. split; [exact Hm|]. split; [|split].
  - apply Forall2_same_length_lookup_2; [exact Hlen|].
    intros i y k Hy Hk. apply (Hcell i y k Hy Hk).
  - intros Hv. apply list_eq_same_length with (length ks); [apply length_fmap | exact Hlen|].
    intros i y z _ Hy Hz. rewrite list_lookup_fmap in Hz.
    destruct (ks !! i) as [k|] eqn:Hk; [|discriminate]. injection Hz as <-.
    apply (Hcell i y k Hy Hk). exact Hv.
  - vm_compute. reflexivity.
Qed.

Lemma powers_of_two_witness :
  exists m,
    run (kernel log2f_ref a_sse4_1) 0 (pow2 <$> [0; 1; 2; 10; -1]) 0 [0; 0; 0; 0; 0]
        (length [0; 1; 2; 10; -1]) = Some m /\
    Forall2 (fun y k => within (1 # 100000) y k = true) (out_cells m) [0; 1; 2; 10; -1] /\
    (a_sse4_1 <> neon -> out_cells m = F32.of_Z <$> [0; 1; 2; 10; -1]) /\
    pow2 <$> [0; 1; 2; 10; -1]
      = [0x3f800000; 0x40000000; 0x40800000; 0x44800000; 0x3f000000].
Proof.
  apply (powers_of_two log2f_ref a_sse4_1 0 0 [0; 0; 0; 0; 0] [0; 1; 2; 10; -1]
           log2f_ref_pow2); try reflexivity.
  repeat (constructor; [lia|]). constructor.
Defined.

(** ** The lane and the specification's formula *)

Lemma SFadd_comm prec emax x y : SFadd prec emax x y = SFadd prec emax y x.
Proof.
  destruct x as [sx|sx| |sx mx ex], y as [sy|sy| |sy my ey]; try reflexivity;
    try (destruct sx, sy; reflexivity).
  cbn [SFadd]. rewrite (Z.min_comm ey ex). f_equal. apply Z.add_comm.
Qed.

Lemma SFmul_comm prec emax x y : SFmul prec emax x y = SFmul prec emax y x.
Proof.
  destruct x as [sx|sx| |sx mx ex], y as [sy|sy| |sy my ey]; try reflexivity;
    cbn [SFmul]; rewrite ?(xorb_comm sy sx); try reflexivity.
  rewrite (Pos.mul_comm my mx), (Z.add_comm ey ex). reflexivity.
Qed.

Lemma F32_add_comm a b : F32.add a b = F32.add b a.
Proof. unfold F32.add. rewrite SFadd_comm. reflexivity. Qed.

Lemma F32_mul_comm a b : F32.mul a b = F32.mul b a.
Proof. unfold F32.mul. rewrite SFmul_comm. reflexivity. Qed.

Lemma signed32_small z : -2147483648 <= z < 2147483648 -> signed32 (wrap32 z) = z.
Proof.
  intros Hz. unfold signed32, wrap32. rewrite Z.mod_mod by lia.
  destruct (Z_lt_le_dec z 0) as [Hn|Hp].
  - replace (z mod 4294967296) with (z + 4294967296).
    + destruct (z + 4294967296 <? 2147483648) eqn:E; [apply Z.ltb_lt in E; lia | lia].
    + apply Z.mod_unique_pos with (q := -1); lia.
  - rewrite Z.mod_small by lia.
    destruct (z <? 2147483648) eqn:E; [reflexivity | apply Z.ltb_ge in E; lia].
Qed.

(** The lane's integer arithmetic recovers the exponent field minus 127. *)
Lemma lane_exponent_spec x : lane_exponent x = Spec.E x.
Proof.
  unfold lane_exponent, Spec.E. f_equal.
  change (wrap32 2139095040) with 2139095040. change (wrap32 127) with 127.
  rewrite Z.shiftr_land. change (Z.shiftr 2139095040 23) with 255.
  fold (F32.exp_field x). pose proof (exp_field_range x).
  apply signed32_small. lia.
Qed.

Lemma lor_exponent_frac f :
  0 <= f < 8388608 -> Z.lor 1065353216 f = 1065353216 + f.
Proof.
  intros Hf.
  assert (Hd : Z.land 1065353216 f = 0).
  { apply Z.bits_inj'. intros n Hn. rewrite Z.land_spec, Z.bits_0.
    destruct (Z_lt_le_dec n 23) as [Hlt|Hge].
    - change 1065353216 with (Z.shiftl 127 23).
      rewrite Z.shiftl_spec_low by lia. reflexivity.
    - destruct (Z.eq_dec f 0) as [->|Hf0]; [rewrite Z.bits_0; apply andb_false_r|].
      rewrite (Z.bits_above_log2 f n); [apply andb_false_r | lia |].
      assert (Z.log2 f < 23) by (apply Z.log2_lt_pow2; lia). lia. }
  rewrite <- Z.lxor_lor by exact Hd. symmetry. apply Z.add_nocarry_lxor. exact Hd.
Qed.

(** Its bitwise OR reconstructs the significand with the leading one. *)
Lemma lane_frac_spec x : lane_frac x = Spec.m x.
Proof.
  unfold lane_frac, Spec.m. change (wrap32 8388607) with 8388607.
  fold (F32.frac_field x). pose proof (frac_field_range x) as Hf.
  replace (F32.lit 1 1) with 1065353216 by (vm_compute; reflexivity).
  rewrite lor_exponent_frac by exact Hf.
  unfold F32.of_sf.
  destruct (8388608 + F32.frac_field x) as [|p|p] eqn:Ep; try lia.
  cbn [Z.to_pos].
  destruct (Zpos p <? 8388608) eqn:E; [apply Z.ltb_lt in E; lia|].
  change (F32.sign_bit false + Z.shiftl (-23 + 150) 23) with 1065353216. lia.
Qed.

Lemma horner_spec m : horner m = Spec.P Spec.coefficients m.
Proof.
  unfold horner, c0, c1, c2, c3, c4, c5. cbn [Spec.P Spec.coefficients].
  repeat match goal with
         | |- context [F32.add (F32.lit ?n ?d) (F32.mul m ?q)] =>
             rewrite (F32_add_comm (F32.lit n d) (F32.mul m q)),
                     (F32_mul_comm m q)
         end.
  reflexivity.
Qed.

Lemma lane_sse4_1_spec x : lane_sse4_1 x = Spec.lane x.
Proof.
  unfold lane_sse4_1, Spec.lane.
  rewrite lane_exponent_spec, lane_frac_spec, horner_spec. reflexivity.
Qed.

Lemma lane_avx2_spec x : lane_avx2 x = Spec.lane x.
Proof.
  unfold lane_avx2, Spec.lane.
  rewrite lane_exponent_spec, lane_frac_spec, horner_spec. apply F32_add_comm.
Qed.

Lemma Spec_m_bits x : Spec.m x = 1065353216 + F32.frac_field x.
Proof.
  rewrite <- lane_frac_spec. unfold lane_frac. change (wrap32 8388607) with 8388607.
  fold (F32.frac_field x).
  replace (F32.lit 1 1) with 1065353216 by (vm_compute; reflexivity).
  apply lor_exponent_frac, frac_field_range.
Qed.

(** Decoding a pattern with exponent field 127 and sign bit clear. *)
Lemma to_sf_one_plus f :
  0 <= f < 8388608 ->
  F32.to_sf (1065353216 + f) = S754_finite false (Z.to_pos (8388608 + f)) (-23).
Proof.
  intros Hf. unfold F32.to_sf.
  assert (He : F32.exp_field (1065353216 + f) = 127).
  { unfold F32.exp_field. rewrite Z.shiftr_div_pow2 by lia.
    change (2 ^ 23) with 8388608.
    replace ((1065353216 + f) / 8388608) with 127; [reflexivity|].
    apply Z.div_unique with (r := f); lia. }
  assert (Hm : F32.frac_field (1065353216 + f) = f).
  { unfold F32.frac_field. change 8388607 with (Z.ones 23).
    rewrite Z.land_ones by lia. change (2 ^ 23) with 8388608.
    symmetry. apply Z.mod_unique_pos with (q := 127); lia. }
  assert (Hs : F32.sign_field (1065353216 + f) = false).
  { unfold F32.sign_field. apply Z.bits_above_log2; [lia|].
    apply Z.log2_lt_pow2; lia. }
  rewrite He, Hm, Hs. cbn [Z.eqb].
  rewrite Z.add_comm.
  destruct (8388608 + f) as [|p|p] eqn:Ep; try lia. reflexivity.
Qed.

Lemma one_le_significand_lt_two p :
  8388608 <= Zpos p < 16777216 ->
  (1 <= SF2Q (S754_finite false p (-23)) < 2)%Q.
Proof.
  intros Hp. unfold SF2Q. cbn [cond_Zopp].
  change (Qpower 2 (-23)) with (1 # 8388608)%Q.
  unfold Qle, Qlt, Qmult, inject_Z. cbn [Qnum Qden]. lia.
Qed.

(** C7, amended: in the SSE4.1 and AVX2 kernels every lane computes, in single
    precision, E + P(m) * (m - 1): E is the biased exponent field minus 127
    converted to float, m the 23-bit significand field with the implicit
    leading one put in (so 1 <= m < 2), and P the polynomial with the
    coefficients 3.1157899, -3.3241990, 2.5988452, -1.2315303, 0.31821337,
    -0.034436006 evaluated by Horner's scheme; for a pattern with a normal
    representation E and m are the exponent and significand of the float. *)
Theorem vector_lane_is_E_plus_P_times_m_minus_1 :
  (forall aVal, length aVal = 4%nat -> sse4_1_lanes aVal = Spec.lane <$> aVal) /\
  (forall aVal, length aVal = 8%nat -> avx2_lanes aVal = Spec.lane <$> aVal) /\
  (forall x, 0 < F32.exp_field x < 255 ->
     F32.to_sf x =
       S754_finite (F32.sign_field x) (Z.to_pos (8388608 + F32.frac_field x))
         (F32.exp_field x - 127 - 23)) /\
  (forall x,
     F32.to_sf (Spec.m x) =
       S754_finite false (Z.to_pos (8388608 + F32.frac_field x)) (-23) /\
     (1 <= SF2Q (F32.to_sf (Spec.m x)) < 2)%Q).
Proof.
  split; [|split; [|split]].
  - intros aVal H. rewrite sse4_1_lanes_map by exact H.
    apply list_fmap_ext. intros _ x _. apply lane_sse4_1_spec.
  - intros aVal H. rewrite avx2_lanes_map by exact H.
    apply list_fmap_ext. intros _ x _. apply lane_avx2_spec.
  - intros x [H0 H255]. unfold F32.to_sf.
    pose proof (frac_field_range x) as Hf.
    destruct (F32.exp_field x =? 0) eqn:E0; [apply Z.eqb_eq in E0; lia|].
    destruct (F32.exp_field x =? 255) eqn:E1; [apply Z.eqb_eq in E1; lia|].
    rewrite (Z.add_comm (F32.frac_field x)).
    destruct (8388608 + F32.frac_field x) as [|p|p] eqn:Ep; try lia;
      cbn [Z.to_pos]; f_equal; lia.
  - intros x. pose proof (frac_field_range x) as Hf.
    rewrite Spec_m_bits, to_sf_one_plus by exact Hf.
    split; [reflexivity|]. apply one_le_significand_lt_two.
    destruct (8388608 + F32.frac_field x) as [|p|p] eqn:Ep; lia.
Qed.

(** C7 as stated fails for the NEON lanes, which multiply and add in
    separate operations as well: [VLOG2Q_NEON_F32] adds the value of its
    own seven-coefficient polynomial to the exponent directly, without the
    factor (m - 1).  On 1.0, 2.0, 1024.0 and 0.5 the loop body and a whole
    call write 0x360e4000 (2.1e-6), 0x3f800010, 0x41200003 and 0xbf7fffd9,
    where E + P(m) * (m - 1), and the SSE4.1 body, give exactly 0, 1, 10
    and -1. *)
Lemma neon_lane_adds_its_polynomial_directly :
  VLOG2Q_NEON_F32 (signed32 <$> [0x3f800000; 0x40000000; 0x44800000; 0x3f000000])
    = [0x360e4000; 0x3f800010; 0x41200003; 0xbf7fffd9] /\
  Spec.lane <$> [0x3f800000; 0x40000000; 0x44800000; 0x3f000000]
    = [0; 0x3f800000; 0x41200000; 0xbf800000] /\
  sse4_1_lanes [0x3f800000; 0x40000000; 0x44800000; 0x3f000000]
    = [0; 0x3f800000; 0x41200000; 0xbf800000] /\
  run (kernel log2f_ref neon) 0 [0x3f800000; 0x40000000; 0x44800000; 0x3f000000]
      64 [0; 0; 0; 0] 4
    = Some (Mem 0 [0x3f800000; 0x40000000; 0x44800000; 0x3f000000]
              64 [0x360e4000; 0x3f800010; 0x41200003; 0xbf7fffd9] [(0, 4)%nat]).
Proof. repeat split; vm_compute; reflexivity. Qed.

(** ** Rounding to nearest even in [SpecFloat], over the integers *)

Lemma fexp32 e : fexp 24 128 e = Z.max (e - 24) (-149).
Proof. reflexivity. Qed.

Lemma digits2_pos_bounds p :
  2 ^ (Zpos (digits2_pos p) - 1) <= Zpos p < 2 ^ Zpos (digits2_pos p).
Proof.
  induction p as [p IH|p IH|]; cbn [digits2_pos].
  - rewrite Pos2Z.inj_succ.
    replace (Z.succ (Zpos (digits2_pos p)) - 1) with (Z.succ (Zpos (digits2_pos p) - 1)) by lia.
    rewrite !Z.pow_succ_r by lia. lia.
  - rewrite Pos2Z.inj_succ.
    replace (Z.succ (Zpos (digits2_pos p)) - 1) with (Z.succ (Zpos (digits2_pos p) - 1)) by lia.
    rewrite !Z.pow_succ_r by lia. lia.
  - cbn. lia.
Qed.

Lemma digits2_pos_unique p k :
  2 ^ (k - 1) <= Zpos p < 2 ^ k -> Zpos (digits2_pos p) = k.
Proof.
  intros [Hl Hu]. pose proof (digits2_pos_bounds p) as [Dl Du].
  set (d := Zpos (digits2_pos p)) in *.
  assert (0 < k).
  { destruct (Z_lt_le_dec 0 k); [assumption|].
    assert (2 ^ k <= 1).
    { destruct (Z.eq_dec k 0) as [->|]; [cbn; lia|]. rewrite Z.pow_neg_r by lia. lia. }
    lia. }
  destruct (Z_lt_le_dec d k) as [Hlt|Hge].
  - assert (2 ^ d <= 2 ^ (k - 1)) by (apply Z.pow_le_mono_r; lia). lia.
  - destruct (Z_lt_le_dec k d) as [Hlt|Hge2]; [|lia].
    assert (2 ^ k <= 2 ^ (d - 1)) by (apply Z.pow_le_mono_r; lia). lia.
Qed.

Lemma iter_pos_nat {A} (f : A -> A) p x :
  SpecFloat.iter_pos f p x = Nat.iter (Pos.to_nat p) f x.
Proof.
  revert x. induction p as [p IH|p IH|]; intros x; cbn [SpecFloat.iter_pos].
  - rewrite !IH.
    replace (Pos.to_nat p~1) with (Pos.to_nat p + (Pos.to_nat p + 1))%nat by lia.
    rewrite !Nat.iter_add. reflexivity.
  - rewrite !IH.
    replace (Pos.to_nat p~0) with (Pos.to_nat p + Pos.to_nat p)%nat by lia.
    rewrite Nat.iter_add. reflexivity.
  - reflexivity.
Qed.

(** One right shift of a non-negative mantissa. *)
Lemma shr_1_spec m r s :
  0 <= m ->
  shr_1 (Build_shr_record m r s) = Build_shr_record (m / 2) (Z.odd m) (r || s).
Proof.
  intros Hm. destruct m as [|p|p]; [reflexivity| |lia].
  destruct p as [p|p|]; cbn [shr_1].
  - f_equal. rewrite Pos2Z.inj_xI. apply Z.div_unique with (r := 1); lia.
  - f_equal. rewrite Pos2Z.inj_xO. apply Z.div_unique with (r := 0); lia.
  - reflexivity.
Qed.

(** After [n] right shifts of [p]: twice [p] is the kept mantissa, the round
    bit and what lies below, and the sticky bit says whether anything does. *)
Lemma shr_iter_spec p n :
  0 <= p ->
  exists m r s low,
    Nat.iter n shr_1 (Build_shr_record p false false) = Build_shr_record m r s /\
    0 <= m /\ 0 <= low < 2 ^ Z.of_nat n /\
    2 * p = m * 2 ^ (Z.of_nat n + 1) + b2z r * 2 ^ Z.of_nat n + low /\
    (s = true <-> 0 < low).
Proof.
  intros Hp. induction n as [|n IH].
  - exists p, false, false, 0. cbn [b2z Z.of_nat]. change (2 ^ 0) with 1.
    change (2 ^ (0 + 1)) with 2.
    split; [reflexivity|]. split; [lia|]. split; [lia|]. split; [lia|].
    split; [intros H; discriminate H | lia].
  - destruct IH as (m & r & s & low & Hi & Hm & Hlow & Heq & Hs).
    rewrite Nat.iter_succ, Hi, shr_1_spec by exact Hm.
    exists (m / 2), (Z.odd m), (r || s)%bool, (b2z r * 2 ^ Z.of_nat n + low).
    rewrite Nat2Z.inj_succ.
    replace (Z.succ (Z.of_nat n) + 1) with (Z.succ (Z.of_nat n + 1)) by lia.
    rewrite !Z.pow_succ_r by lia.
    pose proof (Z.div_mod m 2 ltac:(lia)) as Hd.
    rewrite Zmod_odd in Hd.
    assert (0 < 2 ^ Z.of_nat n) by (apply Z.pow_pos_nonneg; lia).
    assert (0 < 2 ^ (Z.of_nat n + 1)) by (apply Z.pow_pos_nonneg; lia).
    assert (2 ^ (Z.of_nat n + 1) = 2 * 2 ^ Z.of_nat n)
      by (rewrite Z.pow_add_r by lia; change (2 ^ 1) with 2; lia).
    split; [reflexivity|]. split; [apply Z.div_pos; lia|].
    split; [destruct r; cbn [b2z]; lia|].
    split.
    + destruct (Z.odd m); cbn [b2z] in *; nia.
    + destruct r; cbn [b2z orb].
      * split; [intros _; lia | reflexivity].
      * rewrite Hs. split; intros; lia.
Qed.

(** Rounding to nearest even after the shift is off by at most half a unit
    of the kept mantissa. *)
Lemma round_after_shift p n :
  0 <= p ->
  exists mrs,
    Nat.iter n shr_1 (Build_shr_record p false false) = mrs /\
    let m2 := round_nearest_even (shr_m mrs) (loc_of_shr_record mrs) in
    shr_m mrs = p / 2 ^ Z.of_nat n /\
    shr_m mrs <= m2 <= shr_m mrs + 1 /\
    Z.abs (2 * p - m2 * 2 ^ (Z.of_nat n + 1)) <= 2 ^ Z.of_nat n.
Proof.
  intros Hp. destruct (shr_iter_spec p n Hp) as (m & r & s & low & Hi & Hm & Hlow & Heq & Hs).
  eexists. split; [exact Hi|]. cbn [shr_m loc_of_shr_record].
  assert (H2 : 0 < 2 ^ Z.of_nat n) by (apply Z.pow_pos_nonneg; lia).
  assert (H2' : 2 ^ (Z.of_nat n + 1) = 2 * 2 ^ Z.of_nat n)
    by (rewrite Z.pow_add_r by lia; change (2 ^ 1) with 2; lia).
  split.
  - apply Z.div_unique with (r := (b2z r * 2 ^ Z.of_nat n + low) / 2).
    + left. destruct r; cbn [b2z] in *.
      * split; [apply Z.div_pos; lia|]. apply Z.div_lt_upper_bound; lia.
      * split; [apply Z.div_pos; lia|]. apply Z.div_lt_upper_bound; lia.
    + assert (Hev : (b2z r * 2 ^ Z.of_nat n + low) mod 2 = 0).
      { assert (E : b2z r * 2 ^ Z.of_nat n + low = 2 * (p - m * 2 ^ Z.of_nat n)) by nia.
        rewrite E, Z.mul_comm. apply Z.mod_mul. lia. }
      pose proof (Z.div_mod (b2z r * 2 ^ Z.of_nat n + low) 2 ltac:(lia)). nia.
  - destruct r, s; cbn [round_nearest_even b2z] in *.
    + assert (0 < low) by (apply Hs; reflexivity). split; [lia|]. nia.
    + assert (low = 0).
      { destruct (Z.eq_dec low 0); [assumption|].
        assert (false = true) by (apply Hs; lia). discriminate. }
      destruct (Z.even m); split; try lia; nia.
    + split; [lia|]. nia.
    + split; [lia|]. nia.
Qed.

Lemma shr_nat mrs e n :
  0 <= n -> shr mrs e n = (Nat.iter (Z.to_nat n) shr_1 mrs, e + n).
Proof.
  intros Hn. destruct n as [|q|q]; [|cbn [shr]|lia].
  - cbn. f_equal. lia.
  - rewrite iter_pos_nat. reflexivity.
Qed.

Lemma shr_nat_nonpos mrs e n : n <= 0 -> shr mrs e n = (mrs, e).
Proof. intros Hn. destruct n; try reflexivity. lia. Qed.

Lemma pow2_split a b : 0 <= a -> 0 <= b -> 2 ^ (a + b) = 2 ^ a * 2 ^ b.
Proof. intros. apply Z.pow_add_r; lia. Qed.

Lemma pow2_pos a : 0 <= a -> 0 < 2 ^ a.
Proof. intros. apply Z.pow_pos_nonneg; lia. Qed.

(** [shr_fexp] leaves a mantissa that is already in canonical position. *)
Lemma shr_fexp_canonical m e :
  0 < m -> fexp 24 128 (Zdigits2 m + e) = e ->
  shr_fexp 24 128 m e loc_Exact = (Build_shr_record m false false, e).
Proof.
  intros Hm Hc. unfold shr_fexp. rewrite Hc, Z.sub_diag. reflexivity.
Qed.

(** What [binary_round_aux] returns for the exact positive value
    [p * 2^ex], when its canonical exponent [e1] is not below [ex]. *)
Lemma binary_round_aux_spec s p ex :
  let e1 := fexp 24 128 (Zpos (digits2_pos p) + ex) in
  ex <= e1 ->
  exists M,
    0 <= M /\
    Z.abs (2 * Zpos p - 2 * M) <= 2 ^ (e1 - ex) /\
    ((M = 0 /\ binary_round_aux 24 128 s (Zpos p) ex loc_Exact = S754_zero s) \/
     (exists m e,
        Zpos m * 2 ^ (e - ex) = M /\ e1 <= e <= e1 + 1 /\
        canonical_mantissa 24 128 m e = true /\
        binary_round_aux 24 128 s (Zpos p) ex loc_Exact =
          if e <=? 104 then S754_finite s m e else S754_infinity s)).
Proof.
  intros e1 Hn.
  pose proof (digits2_pos_bounds p) as [Dl Du].
  set (d := Zpos (digits2_pos p)) in *.
  assert (Hd : 0 < d) by (unfold d; lia).
  assert (He1d : e1 = Z.max (d + ex - 24) (-149)) by (unfold e1; apply fexp32).
  destruct (round_after_shift (Zpos p) (Z.to_nat (e1 - ex)) ltac:(lia))
    as (mrs & Hi & Hm & Hm2 & Hb).
  assert (H1 : shr_fexp 24 128 (Zpos p) ex loc_Exact = (mrs, e1)).
  { unfold shr_fexp. cbn [Zdigits2 shr_record_of_loc]. fold d. fold e1.
    rewrite shr_nat by lia. rewrite Hi. f_equal. lia. }
  clearbody e1.
  rewrite Z2Nat.id in * by lia.
  set (m := shr_m mrs) in *.
  set (m2 := round_nearest_even m (loc_of_shr_record mrs)) in *.
  set (n := e1 - ex) in *.
  assert (Hpn : 0 < 2 ^ n) by (apply pow2_pos; lia).
  assert (H2n : 2 ^ (n + 1) = 2 * 2 ^ n)
    by (rewrite pow2_split by lia; change (2 ^ 1) with 2; lia).
  assert (Hm0 : 0 <= m) by (rewrite Hm; apply Z.div_pos; lia).
  exists (m2 * 2 ^ n).
  split; [nia|].
  split; [rewrite H2n in Hb;
          replace (2 * (m2 * 2 ^ n)) with (m2 * (2 * 2 ^ n)) by lia; exact Hb|].
  unfold binary_round_aux. rewrite H1. fold m. fold m2.
  destruct (Z.eq_dec m2 0) as [Hz|Hnz].
  - left. split; [rewrite Hz; lia|].
    rewrite Hz. unfold shr_fexp. cbn [Zdigits2 shr_record_of_loc].
    rewrite fexp32. replace (0 + e1) with e1 by lia.
    rewrite shr_nat_nonpos by lia. reflexivity.
  - right. assert (Hm2p : 0 < m2) by lia.
    destruct (Z_le_gt_dec (-149) (d + ex - 24)) as [Hnorm|Hsub].
    + (* normal range: the kept mantissa has 24 bits *)
      assert (He1 : e1 = d + ex - 24) by lia.
      assert (Hn' : n = d - 24) by (unfold n; lia).
      assert (Hm23 : 2 ^ 23 <= m < 2 ^ 24).
      { rewrite Hm. split.
        - apply Z.div_le_lower_bound; [lia|].
          replace (2 ^ n * 2 ^ 23) with (2 ^ (d - 1)); [lia|].
          rewrite <- pow2_split by lia. f_equal. lia.
        - apply Z.div_lt_upper_bound; [lia|].
          replace (2 ^ n * 2 ^ 24) with (2 ^ d); [lia|].
          rewrite <- pow2_split by lia. f_equal. lia. }
      destruct (Z_lt_le_dec m2 (2 ^ 24)) as [Hlt|Hge].
      * destruct m2 as [|q|q] eqn:Eq; try lia.
        assert (Hdq : Zpos (digits2_pos q) = 24) by (apply digits2_pos_unique; lia).
        exists q, e1.
        assert (Hcan : fexp 24 128 (Zdigits2 (Zpos q) + e1) = e1).
        { cbn [Zdigits2]. rewrite Hdq, fexp32. lia. }
        rewrite shr_fexp_canonical by (exact Hcan || lia).
        cbn [shr_m]. fold n.
        split; [lia|]. split; [lia|]. split.
        -- unfold canonical_mantissa. apply Z.eqb_eq. exact Hcan.
        -- reflexivity.
      * assert (Em2 : m2 = 2 ^ 24) by lia.
        exists (Z.to_pos (2 ^ 23)), (e1 + 1).
        rewrite Em2. unfold shr_fexp.
        change (Zdigits2 (2 ^ 24)) with 25. rewrite fexp32.
        replace (Z.max (25 + e1 - 24) (-149) - e1) with 1 by lia.
        cbn [shr shr_record_of_loc SpecFloat.iter_pos]. change (2 ^ 24) with 16777216.
        cbn [shr_1 shr_m]. change (2 ^ 23) with 8388608. cbn [Z.to_pos].
        split; [|split; [lia|split]].
        -- replace (e1 + 1 - ex) with (n + 1) by (unfold n; lia).
           rewrite H2n. lia.
        -- unfold canonical_mantissa. apply Z.eqb_eq.
           change (Zpos (digits2_pos 8388608)) with 24. rewrite fexp32. lia.
        -- reflexivity.
    + (* subnormal range *)
      assert (He1 : e1 = -149) by lia.
      assert (Hm23 : m < 2 ^ 23).
      { rewrite Hm. apply Z.div_lt_upper_bound; [lia|].
        assert (2 ^ d <= 2 ^ n * 2 ^ 23); [|lia].
        rewrite <- pow2_split by lia. apply Z.pow_le_mono_r; lia. }
      destruct m2 as [|q|q] eqn:Eq; try lia.
      pose proof (digits2_pos_bounds q) as [Ql Qu].
      assert (Hdq : Zpos (digits2_pos q) <= 24).
      { destruct (Z_le_gt_dec (Zpos (digits2_pos q)) 24); [assumption|].
        assert (2 ^ 24 <= 2 ^ (Zpos (digits2_pos q) - 1)) by (apply Z.pow_le_mono_r; lia).
        lia. }
      exists q, e1.
      assert (Hcan : fexp 24 128 (Zdigits2 (Zpos q) + e1) = e1).
      { cbn [Zdigits2]. rewrite fexp32. lia. }
      rewrite shr_fexp_canonical by (exact Hcan || lia).
      cbn [shr_m]. fold n.
      split; [lia|]. split; [lia|]. split.
      * unfold canonical_mantissa. apply Z.eqb_eq. exact Hcan.
      * reflexivity.
Qed.

(** ** Powers of two in the reals *)

Lemma bpow_pos e : (0 < bpow e)%R.
Proof. apply powerRZ_lt. lra. Qed.

Lemma bpow_add a b : bpow (a + b) = (bpow a * bpow b)%R.
Proof. apply powerRZ_add. lra. Qed.

Lemma bpow_IZR e : 0 <= e -> bpow e = IZR (2 ^ e).
Proof.
  intros He. unfold bpow. rewrite <- (Z2Nat.id e) by exact He.
  rewrite <- pow_powerRZ. rewrite <- pow_IZR. reflexivity.
Qed.

Lemma bpow_ge_1 e : 0 <= e -> (1 <= bpow e)%R.
Proof.
  intros He. rewrite bpow_IZR by exact He. apply IZR_le.
  pose proof (Z.pow_pos_nonneg 2 e). lia.
Qed.

Lemma bpow_le a b : a <= b -> (bpow a <= bpow b)%R.
Proof.
  intros H. replace b with (a + (b - a)) by lia. rewrite bpow_add.
  pose proof (bpow_pos a). pose proof (bpow_ge_1 (b - a) ltac:(lia)). nra.
Qed.

Lemma bpow_lt a b : a < b -> (bpow a < bpow b)%R.
Proof.
  intros H. replace b with (a + 1 + (b - a - 1)) by lia. rewrite !bpow_add.
  pose proof (bpow_pos a). pose proof (bpow_ge_1 (b - a - 1) ltac:(lia)).
  change (bpow 1) with (2 * 1)%R. nra.
Qed.

Lemma bpow_lt_inv a b : (bpow a < bpow b)%R -> a < b.
Proof.
  intros H. destruct (Z_lt_le_dec a b) as [|Hge]; [assumption|].
  pose proof (bpow_le b a Hge). lra.
Qed.

Lemma bpow_0 : bpow 0 = 1%R.
Proof. reflexivity. Qed.

Lemma bpow_half e : (bpow (e - 1) = bpow e / 2)%R.
Proof.
  replace e with (e - 1 + 1) at 2 by lia. rewrite bpow_add.
  change (bpow 1) with (2 * 1)%R. field.
Qed.

Lemma IZR_cond_Zopp s z : IZR (cond_Zopp s z) = (sgn_R s * IZR z)%R.
Proof. destruct s; cbn [cond_Zopp sgn_R]; rewrite ?opp_IZR; lra. Qed.

Lemma Rabs_sgn s : Rabs (sgn_R s) = 1%R.
Proof. destruct s; cbn [sgn_R]; unfold Rabs; destruct Rcase_abs; lra. Qed.

(** ** Rounding over the reals: one operation is off by at most half a unit
    in the last place of its result's binade *)

(** A positive value below [2^k] has its canonical exponent at most
    [k - 24] (or -149). *)
Lemma canonical_exponent_bound p ex k :
  (IZR (Zpos p) * bpow ex < bpow k)%R ->
  Zpos (digits2_pos p) + ex <= k.
Proof.
  intros H. pose proof (digits2_pos_bounds p) as [Dl _].
  set (d := Zpos (digits2_pos p)) in *.
  assert (Hd : 0 < d) by (unfold d; lia).
  assert (bpow (d - 1 + ex) < bpow k)%R.
  { rewrite bpow_add. rewrite (bpow_IZR (d - 1)) by lia.
    apply IZR_le in Dl. pose proof (bpow_pos ex). nra. }
  apply bpow_lt_inv in H0. lia.
Qed.

Lemma binary_round_aux_R s p ex k :
  ex <= fexp 24 128 (Zpos (digits2_pos p) + ex) ->
  -125 <= k <= 127 ->
  (IZR (Zpos p) * bpow ex < bpow k)%R ->
  let r := binary_round_aux 24 128 s (Zpos p) ex loc_Exact in
  is_finite_SF r = true /\ valid_binary 24 128 r = true /\
  (Rabs (B2R r - sgn_R s * (IZR (Zpos p) * bpow ex)) <= bpow (k - 25))%R /\
  (fexp 24 128 (Zpos (digits2_pos p) + ex) = ex ->
   B2R r = (sgn_R s * (IZR (Zpos p) * bpow ex))%R).
Proof.
  intros Hn Hk Hlt r.
  pose proof (canonical_exponent_bound p ex k Hlt) as Hd.
  destruct (binary_round_aux_spec s p ex Hn) as (M & HM & Hb & Hr).
  set (e1 := fexp 24 128 (Zpos (digits2_pos p) + ex)) in *.
  assert (He1 : e1 <= k - 24) by (unfold e1; rewrite fexp32; lia).
  assert (HbR : (Rabs (IZR M * bpow ex - IZR (Zpos p) * bpow ex) <= bpow (k - 25))%R).
  { replace (IZR M * bpow ex - IZR (Zpos p) * bpow ex)%R
      with ((IZR M - IZR (Zpos p)) * bpow ex)%R by ring.
    rewrite Rabs_mult, (Rabs_pos_eq (bpow ex)) by (left; apply bpow_pos).
    assert (Rabs (IZR M - IZR (Zpos p)) <= bpow (e1 - ex) / 2)%R.
    { rewrite <- minus_IZR, <- abs_IZR.
      rewrite (bpow_IZR (e1 - ex)) by lia.
      assert (2 * Z.abs (M - Zpos p) <= 2 ^ (e1 - ex)) by lia.
      apply IZR_le in H. rewrite mult_IZR in H. lra. }
    assert (bpow (e1 - ex) / 2 * bpow ex = bpow (e1 - 1))%R.
    { rewrite bpow_half. replace e1 with ((e1 - ex) + ex) at 2 by lia.
      rewrite bpow_add. field. }
    pose proof (bpow_pos ex). pose proof (bpow_le (e1 - 1) (k - 25) ltac:(lia)).
    nra. }
  assert (HexR : e1 = ex -> IZR M = IZR (Zpos p)).
  { intros E. rewrite E, Z.sub_diag in Hb. change (2 ^ 0) with 1 in Hb.
    f_equal. lia. }
  destruct Hr as [[HM0 Hr]|(m & e & Hme & He & Hc & Hr)].
  - fold r in Hr. rewrite Hr. cbn [is_finite_SF valid_binary B2R].
    split; [reflexivity|]. split; [reflexivity|]. rewrite HM0 in *.
    split.
    + replace (0 - sgn_R s * (IZR (Zpos p) * bpow ex))%R
        with (sgn_R s * (0 * bpow ex - IZR (Zpos p) * bpow ex))%R by ring.
      rewrite Rabs_mult, Rabs_sgn. lra.
    + intros E. rewrite <- (HexR E). ring.
  - fold r in Hr. destruct (e <=? 104) eqn:Ee; [|apply Z.leb_gt in Ee; lia].
    rewrite Hr. cbn [is_finite_SF valid_binary B2R].
    split; [reflexivity|]. split.
    { unfold bounded. rewrite Hc. apply Z.leb_le. apply Z.leb_le in Ee. lia. }
    assert (HV : (IZR (cond_Zopp s (Zpos m)) * bpow e = sgn_R s * (IZR M * bpow ex))%R).
    { rewrite IZR_cond_Zopp, <- Hme, mult_IZR.
      rewrite <- (bpow_IZR (e - ex)) by lia.
      replace e with ((e - ex) + ex) at 1 by lia. rewrite bpow_add. ring. }
    rewrite HV. split.
    + replace (sgn_R s * (IZR M * bpow ex) - sgn_R s * (IZR (Zpos p) * bpow ex))%R
        with (sgn_R s * (IZR M * bpow ex - IZR (Zpos p) * bpow ex))%R by ring.
      rewrite Rabs_mult, Rabs_sgn. lra.
    + intros E. rewrite (HexR E). reflexivity.
Qed.

Lemma pos_iter_xO mx d : Zpos (Pos.iter xO mx d) = Zpos mx * 2 ^ Zpos d.
Proof.
  rewrite Pos2Nat.inj_iter. rewrite <- (positive_nat_Z d).
  induction (Pos.to_nat d) as [|n IH]; cbn [nat_rect].
  - cbn. lia.
  - rewrite Pos2Z.inj_xO, IH, Nat2Z.inj_succ, Z.pow_succ_r by lia. lia.
Qed.

(** [shl_align] lowers the exponent to [ex'] when that is below [ex], and
    keeps the value. *)
Lemma shl_align_spec mx ex ex' :
  let mz := fst (shl_align mx ex ex') in
  let ez := snd (shl_align mx ex ex') in
  ez = Z.min ex ex' /\ Zpos mz = Zpos mx * 2 ^ (ex - ez).
Proof.
  unfold shl_align. destruct (ex' - ex) as [|d|d] eqn:E; cbn [fst snd].
  - replace (Z.min ex ex') with ex by lia. rewrite Z.sub_diag. cbn. lia.
  - replace (Z.min ex ex') with ex by lia. rewrite Z.sub_diag. cbn. lia.
  - replace (Z.min ex ex') with ex' by lia. split; [reflexivity|].
    rewrite pos_iter_xO. f_equal. f_equal. lia.
Qed.

Lemma digits2_pos_shift p q k :
  0 <= k -> Zpos q = Zpos p * 2 ^ k ->
  Zpos (digits2_pos q) = Zpos (digits2_pos p) + k.
Proof.
  intros Hk Hq. apply digits2_pos_unique. rewrite Hq.
  pose proof (digits2_pos_bounds p) as [Dl Du].
  set (d := Zpos (digits2_pos p)) in *.
  assert (0 < d) by (unfold d; lia).
  replace (d + k - 1) with ((d - 1) + k) by lia.
  rewrite !pow2_split by lia. pose proof (pow2_pos k Hk). nia.
Qed.

Lemma binary_round_R s p ex k :
  -125 <= k <= 127 ->
  (IZR (Zpos p) * bpow ex < bpow k)%R ->
  let r := binary_round 24 128 s p ex in
  is_finite_SF r = true /\ valid_binary 24 128 r = true /\
  (Rabs (B2R r - sgn_R s * (IZR (Zpos p) * bpow ex)) <= bpow (k - 25))%R /\
  (fexp 24 128 (Zpos (digits2_pos p) + ex) <= ex ->
   B2R r = (sgn_R s * (IZR (Zpos p) * bpow ex))%R).
Proof.
  intros Hk Hlt r. unfold binary_round in r.
  set (e0 := fexp 24 128 (Zpos (digits2_pos p) + ex)) in *.
  destruct (shl_align_spec p ex e0) as [Hez Hmz].
  destruct (shl_align p ex e0) as [mz ez] eqn:Es. cbn [fst snd] in Hez, Hmz.
  assert (Hd : Zpos (digits2_pos mz) + ez = Zpos (digits2_pos p) + ex).
  { rewrite (digits2_pos_shift p mz (ex - ez)) by (exact Hmz || lia). lia. }
  assert (Hval : (IZR (Zpos mz) * bpow ez = IZR (Zpos p) * bpow ex)%R).
  { rewrite Hmz, mult_IZR, <- (bpow_IZR (ex - ez)) by lia.
    replace ex with ((ex - ez) + ez) at 2 by lia. rewrite bpow_add. ring. }
  destruct (binary_round_aux_R s mz ez k) as (Hf & Hv & He & Hx).
  - rewrite Hd. fold e0. lia.
  - exact Hk.
  - rewrite Hval. exact Hlt.
  - subst r. rewrite Hval in *. split; [exact Hf|]. split; [exact Hv|].
    split; [exact He|]. intros Hle. apply Hx. rewrite Hd. fold e0. lia.
Qed.

(** Validity, spelled out. *)
Lemma valid_finite_spec s m e :
  valid_binary 24 128 (S754_finite s m e) = true ->
  Zpos (digits2_pos m) <= 24 /\ -149 <= e <= 104 /\
  (Zpos (digits2_pos m) = 24 \/ e = -149).
Proof.
  cbn [valid_binary]. unfold bounded, canonical_mantissa.
  rewrite andb_true_iff, Z.eqb_eq, Z.leb_le, fexp32. lia.
Qed.

Lemma digits2_pos_mul p q :
  Zpos (digits2_pos p) + Zpos (digits2_pos q) - 1 <= Zpos (digits2_pos (p * q)).
Proof.
  pose proof (digits2_pos_bounds p) as [Pl Pu].
  pose proof (digits2_pos_bounds q) as [Ql Qu].
  pose proof (digits2_pos_bounds (p * q)) as [_ Mu].
  set (dp := Zpos (digits2_pos p)) in *. set (dq := Zpos (digits2_pos q)) in *.
  set (d := Zpos (digits2_pos (p * q))) in *.
  assert (0 < dp) by (unfold dp; lia). assert (0 < dq) by (unfold dq; lia).
  assert (0 < d) by (unfold d; lia).
  destruct (Z_le_gt_dec (dp + dq - 1) d) as [|Hgt]; [assumption|].
  assert (2 ^ d <= 2 ^ ((dp - 1) + (dq - 1))) by (apply Z.pow_le_mono_r; lia).
  rewrite pow2_split in H2 by lia. rewrite Pos2Z.inj_mul in Mu.
  pose proof (pow2_pos (dp - 1) ltac:(lia)). pose proof (pow2_pos (dq - 1) ltac:(lia)).
  nia.
Qed.

Lemma B2R_finite s m e :
  B2R (S754_finite s m e) = (sgn_R s * (IZR (Zpos m) * bpow e))%R.
Proof. cbn [B2R]. rewrite IZR_cond_Zopp. ring. Qed.

Lemma sgn_R_xorb a b : sgn_R (xorb a b) = (sgn_R a * sgn_R b)%R.
Proof. destruct a, b; cbn; lra. Qed.

Lemma product_canonical_exponent sx mx ex sy my ey :
  valid_binary 24 128 (S754_finite sx mx ex) = true ->
  valid_binary 24 128 (S754_finite sy my ey) = true ->
  ex + ey <= fexp 24 128 (Zpos (digits2_pos (mx * my)) + (ex + ey)).
Proof.
  intros Vx Vy. apply valid_finite_spec in Vx, Vy.
  pose proof (digits2_pos_mul mx my).
  assert (0 < Zpos (digits2_pos mx)) by lia. assert (0 < Zpos (digits2_pos my)) by lia.
  rewrite fexp32. lia.
Qed.

(** Multiplication. *)
Lemma SFmul_R x y k :
  valid_binary 24 128 x = true -> valid_binary 24 128 y = true ->
  is_finite_SF x = true -> is_finite_SF y = true ->
  -125 <= k <= 127 ->
  (Rabs (B2R x * B2R y) < bpow k)%R ->
  let r := SFmul 24 128 x y in
  is_finite_SF r = true /\ valid_binary 24 128 r = true /\
  (Rabs (B2R r - B2R x * B2R y) <= bpow (k - 25))%R.
Proof.
  intros Vx Vy Fx Fy Hk Hlt r.
  assert (Hz : forall z, (Rabs (0 - z * 0) <= bpow (k - 25))%R).
  { intros z. replace (0 - z * 0)%R with 0%R by ring. rewrite Rabs_R0.
    left. apply bpow_pos. }
  destruct x as [sx|sx| |sx mx ex], y as [sy|sy| |sy my ey]; try discriminate;
    subst r; cbn [SFmul].
  - cbn [B2R is_finite_SF valid_binary]. repeat split. rewrite Rmult_0_l, Rminus_0_r, Rabs_R0.
    left. apply bpow_pos.
  - cbn [B2R is_finite_SF valid_binary]. repeat split. rewrite Rmult_0_l, Rminus_0_r, Rabs_R0.
    left. apply bpow_pos.
  - cbn [is_finite_SF valid_binary]. repeat split. cbn [B2R]. rewrite Rmult_0_r, Rminus_0_r, Rabs_R0.
    left. apply bpow_pos.
  - rewrite !B2R_finite in Hlt |- *.
    assert (Hprod : (sgn_R sx * (IZR (Zpos mx) * bpow ex) * (sgn_R sy * (IZR (Zpos my) * bpow ey))
                     = sgn_R (xorb sx sy) * (IZR (Zpos (mx * my)) * bpow (ex + ey)))%R).
    { rewrite sgn_R_xorb, Pos2Z.inj_mul, mult_IZR, bpow_add. ring. }
    rewrite Hprod in Hlt |- *.
    rewrite Rabs_mult, Rabs_sgn, Rmult_1_l in Hlt.
    rewrite Rabs_pos_eq in Hlt.
    2:{ apply Rmult_le_pos; [apply IZR_le; lia | left; apply bpow_pos]. }
    destruct (binary_round_aux_R (xorb sx sy) (mx * my) (ex + ey) k) as (Hf & Hv & He & _).
    + apply (product_canonical_exponent sx mx ex sy my ey); assumption.
    + exact Hk.
    + exact Hlt.
    + split; [exact Hf|]. split; [exact Hv|]. exact He.
Qed.

Lemma Rabs_zero_le k : (Rabs (0 - 0) <= bpow k)%R.
Proof. rewrite Rminus_diag, Rabs_R0. left. apply bpow_pos. Qed.

Lemma Rabs_self_le x k : (Rabs (x - x) <= bpow k)%R.
Proof. rewrite Rminus_diag, Rabs_R0. left. apply bpow_pos. Qed.

Lemma binary_normalize_R m e k :
  -125 <= k <= 127 ->
  (Rabs (IZR m * bpow e) < bpow k)%R ->
  let r := binary_normalize 24 128 m e false in
  is_finite_SF r = true /\ valid_binary 24 128 r = true /\
  (Rabs (B2R r - IZR m * bpow e) <= bpow (k - 25))%R.
Proof.
  intros Hk Hlt r. subst r. destruct m as [|p|p]; cbn [binary_normalize].
  - cbn [is_finite_SF valid_binary B2R]. repeat split.
    rewrite Rmult_0_l. apply Rabs_zero_le.
  - rewrite Rabs_pos_eq in Hlt.
    2:{ apply Rmult_le_pos; [apply IZR_le; lia | left; apply bpow_pos]. }
    destruct (binary_round_R false p e k Hk Hlt) as (Hf & Hv & He & _).
    cbn [sgn_R] in He. rewrite Rmult_1_l in He. auto.
  - change (Zneg p) with (- Zpos p) in *. rewrite opp_IZR in *.
    replace (- IZR (Zpos p) * bpow e)%R with (- (IZR (Zpos p) * bpow e))%R in * by ring.
    rewrite Rabs_Ropp, Rabs_pos_eq in Hlt.
    2:{ apply Rmult_le_pos; [apply IZR_le; lia | left; apply bpow_pos]. }
    destruct (binary_round_R true p e k Hk Hlt) as (Hf & Hv & He & _).
    cbn [sgn_R] in He.
    replace (-1 * (IZR (Zpos p) * bpow e))%R with (- (IZR (Zpos p) * bpow e))%R in He by ring.
    auto.
Qed.

(** An integer of at most 24 bits at an exponent not below the least one
    is represented exactly. *)
Lemma binary_normalize_exact m e :
  Z.abs m < 2 ^ 24 -> -149 <= e <= 100 ->
  let r := binary_normalize 24 128 m e false in
  is_finite_SF r = true /\ valid_binary 24 128 r = true /\
  B2R r = (IZR m * bpow e)%R.
Proof.
  intros Hm He r. subst r.
  assert (Hb : forall p, Zpos p < 2 ^ 24 ->
     (IZR (Zpos p) * bpow e < bpow 127)%R /\
     fexp 24 128 (Zpos (digits2_pos p) + e) <= e).
  { intros p Hp. split.
    - apply Rlt_le_trans with (bpow 24 * bpow e)%R.
      + apply Rmult_lt_compat_r; [apply bpow_pos|].
        rewrite (bpow_IZR 24) by lia. apply IZR_lt. exact Hp.
      + rewrite <- bpow_add. apply bpow_le. lia.
    - rewrite fexp32. pose proof (digits2_pos_bounds p) as [Dl _].
      assert (Zpos (digits2_pos p) <= 24); [|lia].
      destruct (Z_le_gt_dec (Zpos (digits2_pos p)) 24) as [|Hgt]; [assumption|].
      assert (2 ^ 24 <= 2 ^ (Zpos (digits2_pos p) - 1)) by (apply Z.pow_le_mono_r; lia).
      lia. }
  destruct m as [|p|p]; cbn [binary_normalize].
  - cbn [is_finite_SF valid_binary B2R]. repeat split. ring.
  - destruct (Hb p ltac:(lia)) as [Hlt Hfe].
    destruct (binary_round_R false p e 127 ltac:(lia) Hlt) as (Hf & Hv & _ & Hx).
    split; [exact Hf|]. split; [exact Hv|]. rewrite (Hx Hfe). cbn [sgn_R]. ring.
  - destruct (Hb p ltac:(lia)) as [Hlt Hfe].
    destruct (binary_round_R true p e 127 ltac:(lia) Hlt) as (Hf & Hv & _ & Hx).
    split; [exact Hf|]. split; [exact Hv|]. rewrite (Hx Hfe). cbn [sgn_R].
    change (Zneg p) with (- Zpos p). rewrite opp_IZR. ring.
Qed.

Lemma shl_align_R m e e' :
  e' <= e ->
  (IZR (Zpos (fst (shl_align m e e'))) * bpow e' = IZR (Zpos m) * bpow e)%R.
Proof.
  intros Hle. destruct (shl_align_spec m e e') as [Hez Hmz].
  cbn zeta in Hez, Hmz. rewrite Hmz, Hez.
  replace (Z.min e e') with e' by lia.
  assert (Hs : bpow e = (bpow (e - e') * bpow e')%R)
    by (rewrite <- bpow_add; f_equal; lia).
  rewrite mult_IZR, <- (bpow_IZR (e - e')) by lia.
  rewrite Hs. ring.
Qed.

Lemma aligned_R s m e e' :
  e' <= e ->
  (IZR (cond_Zopp s (Zpos (fst (shl_align m e e')))) * bpow e'
   = B2R (S754_finite s m e))%R.
Proof.
  intros Hle. rewrite B2R_finite, IZR_cond_Zopp, Rmult_assoc, shl_align_R by exact Hle.
  reflexivity.
Qed.

(** Addition. *)
Lemma SFadd_R x y k :
  valid_binary 24 128 x = true -> valid_binary 24 128 y = true ->
  is_finite_SF x = true -> is_finite_SF y = true ->
  -125 <= k <= 127 ->
  (Rabs (B2R x + B2R y) < bpow k)%R ->
  let r := SFadd 24 128 x y in
  is_finite_SF r = true /\ valid_binary 24 128 r = true /\
  (Rabs (B2R r - (B2R x + B2R y)) <= bpow (k - 25))%R.
Proof.
  intros Vx Vy Fx Fy Hk Hlt r. subst r.
  destruct x as [sx|sx| |sx mx ex], y as [sy|sy| |sy my ey]; try discriminate;
    cbn [SFadd].
  - assert (E : B2R (match sx, sy with
                     | true, true | false, false => S754_zero sx
                     | _, _ => S754_zero false end) = 0%R)
      by (destruct sx, sy; reflexivity).
    rewrite E. cbn [B2R]. rewrite Rplus_0_l.
    split; [destruct sx, sy; reflexivity|]. split; [destruct sx, sy; reflexivity|].
    apply Rabs_zero_le.
  - split; [exact Fy|]. split; [exact Vy|]. cbn [B2R]. rewrite Rplus_0_l. apply Rabs_self_le.
  - split; [exact Fx|]. split; [exact Vx|].
    replace (B2R (S754_zero sy)) with 0%R by reflexivity. rewrite Rplus_0_r. apply Rabs_self_le.
  - cbv zeta.
    assert (E : (IZR (cond_Zopp sx (Zpos (fst (shl_align mx ex (Z.min ex ey))))
                      + cond_Zopp sy (Zpos (fst (shl_align my ey (Z.min ex ey)))))
                 * bpow (Z.min ex ey)
                 = B2R (S754_finite sx mx ex) + B2R (S754_finite sy my ey))%R).
    { rewrite plus_IZR, Rmult_plus_distr_r, !aligned_R by lia. reflexivity. }
    rewrite <- E in Hlt |- *. apply binary_normalize_R; assumption.
Qed.

(** Subtraction. *)
Lemma SFsub_R x y k :
  valid_binary 24 128 x = true -> valid_binary 24 128 y = true ->
  is_finite_SF x = true -> is_finite_SF y = true ->
  -125 <= k <= 127 ->
  (Rabs (B2R x - B2R y) < bpow k)%R ->
  let r := SFsub 24 128 x y in
  is_finite_SF r = true /\ valid_binary 24 128 r = true /\
  (Rabs (B2R r - (B2R x - B2R y)) <= bpow (k - 25))%R.
Proof.
  intros Vx Vy Fx Fy Hk Hlt r. subst r.
  destruct x as [sx|sx| |sx mx ex], y as [sy|sy| |sy my ey]; try discriminate;
    cbn [SFsub].
  - assert (E : B2R (match sx, sy with
                     | true, false | false, true => S754_zero sx
                     | _, _ => S754_zero false end) = 0%R)
      by (destruct sx, sy; reflexivity).
    rewrite E. cbn [B2R]. rewrite Rminus_0_r.
    split; [destruct sx, sy; reflexivity|]. split; [destruct sx, sy; reflexivity|].
    apply Rabs_zero_le.
  - split; [reflexivity|]. split; [exact Vy|].
    rewrite !B2R_finite.
    replace (B2R (S754_zero sx)) with 0%R by reflexivity.
    replace (sgn_R (negb sy)) with (- sgn_R sy)%R by (destruct sy; cbn; lra).
    match goal with |- (Rabs ?t <= _)%R => replace t with (0 - 0)%R by ring end.
    apply Rabs_zero_le.
  - split; [exact Fx|]. split; [exact Vx|].
    replace (B2R (S754_zero sy)) with 0%R by reflexivity. rewrite Rminus_0_r. apply Rabs_self_le.
  - cbv zeta.
    assert (E : (IZR (cond_Zopp sx (Zpos (fst (shl_align mx ex (Z.min ex ey))))
                      - cond_Zopp sy (Zpos (fst (shl_align my ey (Z.min ex ey)))))
                 * bpow (Z.min ex ey)
                 = B2R (S754_finite sx mx ex) - B2R (S754_finite sy my ey))%R).
    { rewrite minus_IZR. unfold Rminus. rewrite Rmult_plus_distr_r.
      rewrite Ropp_mult_distr_l_reverse, !aligned_R by lia. reflexivity. }
    rewrite <- E in Hlt |- *. apply binary_normalize_R; assumption.
Qed.

(** Fused multiply-add: one rounding of the exact [x * y + z]. *)
Lemma SFfma_R x y z k :
  valid_binary 24 128 x = true -> valid_binary 24 128 y = true ->
  valid_binary 24 128 z = true ->
  is_finite_SF x = true -> is_finite_SF y = true -> is_finite_SF z = true ->
  -125 <= k <= 127 ->
  (Rabs (B2R x * B2R y + B2R z) < bpow k)%R ->
  let r := F32.SFfma x y z in
  is_finite_SF r = true /\ valid_binary 24 128 r = true /\
  (Rabs (B2R r - (B2R x * B2R y + B2R z)) <= bpow (k - 25))%R.
Proof.
  intros Vx Vy Vz Fx Fy Fz Hk Hlt r. subst r.
  assert (Hzero : forall sx sy,
    let r := match z with
             | S754_zero sz => if eqb (xorb sx sy) sz then z else S754_zero false
             | _ => z end in
    is_finite_SF r = true /\ valid_binary 24 128 r = true /\ B2R r = B2R z).
  { intros sx sy. destruct z as [sz|sz| |sz mz ez]; try discriminate; cbn zeta.
    - destruct (eqb (xorb sx sy) sz); repeat split.
    - repeat split; assumption. }
  destruct x as [sx|sx| |sx mx ex], y as [sy|sy| |sy my ey]; try discriminate;
    unfold F32.SFfma.
  - destruct (Hzero sx sy) as (Hf & Hv & He). split; [exact Hf|]. split; [exact Hv|].
    rewrite He. replace (B2R (S754_zero sx)) with 0%R by reflexivity.
    rewrite Rmult_0_l, Rplus_0_l. apply Rabs_self_le.
  - destruct (Hzero sx sy) as (Hf & Hv & He). split; [exact Hf|]. split; [exact Hv|].
    rewrite He. replace (B2R (S754_zero sx)) with 0%R by reflexivity.
    rewrite Rmult_0_l, Rplus_0_l. apply Rabs_self_le.
  - destruct (Hzero sx sy) as (Hf & Hv & He). split; [exact Hf|]. split; [exact Hv|].
    rewrite He. replace (B2R (S754_zero sy)) with 0%R by reflexivity.
    rewrite Rmult_0_r, Rplus_0_l. apply Rabs_self_le.
  - assert (Hprod : (B2R (S754_finite sx mx ex) * B2R (S754_finite sy my ey)
                     = sgn_R (xorb sx sy) * (IZR (Zpos (mx * my)) * bpow (ex + ey)))%R).
    { rewrite !B2R_finite, sgn_R_xorb, Pos2Z.inj_mul, mult_IZR, bpow_add. ring. }
    destruct z as [sz|sz| |sz mz ez]; try discriminate.
    + replace (B2R (S754_zero sz)) with 0%R in * by reflexivity.
      rewrite Rplus_0_r in *. rewrite Hprod in Hlt |- *.
      rewrite Rabs_mult, Rabs_sgn, Rmult_1_l in Hlt.
      rewrite Rabs_pos_eq in Hlt.
      2:{ apply Rmult_le_pos; [apply IZR_le; lia | left; apply bpow_pos]. }
      destruct (binary_round_aux_R (xorb sx sy) (mx * my) (ex + ey) k) as (Hf & Hv & He & _).
      * apply (product_canonical_exponent sx mx ex sy my ey); assumption.
      * exact Hk.
      * exact Hlt.
      * split; [exact Hf|]. split; [exact Hv|]. exact He.
    + cbv zeta.
      assert (E : (IZR (cond_Zopp (xorb sx sy)
                          (Zpos (fst (shl_align (mx * my) (ex + ey) (Z.min (ex + ey) ez))))
                        + cond_Zopp sz (Zpos (fst (shl_align mz ez (Z.min (ex + ey) ez)))))
                   * bpow (Z.min (ex + ey) ez)
                   = B2R (S754_finite sx mx ex) * B2R (S754_finite sy my ey)
                     + B2R (S754_finite sz mz ez))%R).
      { rewrite plus_IZR, Rmult_plus_distr_r, !aligned_R by lia.
        rewrite Hprod, B2R_finite. reflexivity. }
      rewrite <- E in Hlt |- *. apply binary_normalize_R; assumption.
Qed.

(** ** The operations on bit patterns *)

Lemma exp_field_div x : F32.exp_field x = (x / 8388608) mod 256.
Proof.
  unfold F32.exp_field. change 255 with (Z.ones 8). rewrite Z.land_ones by lia.
  rewrite Z.shiftr_div_pow2 by lia. reflexivity.
Qed.

Lemma frac_field_mod x : F32.frac_field x = x mod 8388608.
Proof.
  unfold F32.frac_field. change 8388607 with (Z.ones 23). apply Z.land_ones. lia.
Qed.

(** The three fields of a pattern assembled from its parts. *)
Lemma fields_of_parts s E F :
  0 <= E < 256 -> 0 <= F < 8388608 ->
  let b := F32.sign_bit s + E * 8388608 + F in
  F32.sign_field b = s /\ F32.exp_field b = E /\ F32.frac_field b = F.
Proof.
  intros HE HF b.
  set (S := if s then 1 else 0).
  assert (Hb : b = 8388608 * (S * 256 + E) + F).
  { unfold b, F32.sign_bit, S. destruct s; lia. }
  assert (HS : 0 <= S <= 1) by (unfold S; destruct s; lia).
  split; [|split].
  - unfold F32.sign_field. rewrite Z.testbit_odd, Z.shiftr_div_pow2 by lia.
    replace (b / 2 ^ 31) with S.
    + unfold S. destruct s; reflexivity.
    + apply Z.div_unique with (r := E * 8388608 + F); [lia|].
      change (2 ^ 31) with 2147483648. lia.
  - rewrite exp_field_div.
    replace (b / 8388608) with (S * 256 + E) by (apply Z.div_unique with (r := F); lia).
    symmetry. apply Z.mod_unique_pos with (q := S); lia.
  - rewrite frac_field_mod. symmetry.
    apply Z.mod_unique_pos with (q := S * 256 + E); lia.
Qed.

Lemma digits2_pos_24 p : 8388608 <= Zpos p < 16777216 -> Zpos (digits2_pos p) = 24.
Proof. intros Hp. apply digits2_pos_unique. change (2 ^ (24 - 1)) with 8388608.
  change (2 ^ 24) with 16777216. exact Hp. Qed.

Lemma digits2_pos_small p : Zpos p < 8388608 -> Zpos (digits2_pos p) <= 23.
Proof.
  intros Hp. pose proof (digits2_pos_bounds p) as [Dl _].
  destruct (Z_le_gt_dec (Zpos (digits2_pos p)) 23) as [|Hgt]; [assumption|].
  assert (2 ^ 23 <= 2 ^ (Zpos (digits2_pos p) - 1)) by (apply Z.pow_le_mono_r; lia).
  change (2 ^ 23) with 8388608 in *. lia.
Qed.

(** Every pattern decodes to a valid float. *)
Lemma to_sf_valid x : valid_binary 24 128 (F32.to_sf x) = true.
Proof.
  unfold F32.to_sf. pose proof (exp_field_range x) as He.
  pose proof (frac_field_range x) as Hf.
  destruct (F32.exp_field x =? 0) eqn:E0.
  - destruct (F32.frac_field x) as [|p|p] eqn:Ef; try reflexivity.
    cbn [valid_binary]. unfold bounded, canonical_mantissa.
    rewrite andb_true_iff, Z.eqb_eq, Z.leb_le, fexp32.
    pose proof (digits2_pos_small p ltac:(lia)). lia.
  - destruct (F32.exp_field x =? 255) eqn:E255.
    + destruct (F32.frac_field x =? 0); reflexivity.
    + apply Z.eqb_neq in E0, E255.
      destruct (F32.frac_field x + 8388608) as [|p|p] eqn:Ef; try reflexivity.
      cbn [valid_binary]. unfold bounded, canonical_mantissa.
      rewrite andb_true_iff, Z.eqb_eq, Z.leb_le, fexp32.
      rewrite (digits2_pos_24 p) by lia. lia.
Qed.

(** Encoding then decoding a valid finite float gives it back. *)
Lemma to_sf_of_sf r :
  valid_binary 24 128 r = true -> is_finite_SF r = true ->
  F32.to_sf (F32.of_sf r) = r.
Proof.
  intros Hv Hf. destruct r as [s|s| |s m e]; try discriminate.
  - destruct s; vm_compute; reflexivity.
  - apply valid_finite_spec in Hv. destruct Hv as (Hd & He & Hc).
    pose proof (digits2_pos_bounds m) as [Dl Du].
    assert (Hm : Zpos m < 16777216).
    { assert (2 ^ Zpos (digits2_pos m) <= 2 ^ 24) by (apply Z.pow_le_mono_r; lia).
      change (2 ^ 24) with 16777216 in *. lia. }
    unfold F32.of_sf. destruct (Zpos m <? 8388608) eqn:Elt.
    + apply Z.ltb_lt in Elt.
      assert (e = -149).
      { destruct Hc as [Hc|Hc]; [|exact Hc].
        pose proof (digits2_pos_small m Elt). lia. }
      subst e.
      destruct (fields_of_parts s 0 (Zpos m) ltac:(lia) ltac:(lia)) as (Hs & Hx & Hfr).
      cbn zeta in Hs, Hx, Hfr. rewrite Z.add_0_r in Hs, Hx, Hfr.
      unfold F32.to_sf. rewrite Hs, Hx, Hfr. reflexivity.
    + apply Z.ltb_ge in Elt.
      assert (He' : -149 <= e).
      { lia. }
      rewrite Z.shiftl_mul_pow2 by lia. change (2 ^ 23) with 8388608.
      assert (Hd24 : Zpos (digits2_pos m) = 24) by (apply digits2_pos_24; lia).
      destruct (fields_of_parts s (e + 150) (Zpos m - 8388608) ltac:(lia) ltac:(lia))
        as (Hs & Hx & Hfr).
      cbn zeta in Hs, Hx, Hfr.
      unfold F32.to_sf. rewrite Hs, Hx, Hfr.
      destruct (e + 150 =? 0) eqn:E0; [apply Z.eqb_eq in E0; lia|].
      destruct (e + 150 =? 255) eqn:E255; [apply Z.eqb_eq in E255; lia|].
      replace (Zpos m - 8388608 + 8388608) with (Zpos m) by lia.
      f_equal. lia.
Qed.

Lemma F32_mul_R a b k :
  fin a -> fin b -> -125 <= k <= 127 ->
  (Rabs (val a * val b) < bpow k)%R ->
  fin (F32.mul a b) /\
  (Rabs (val (F32.mul a b) - val a * val b) <= bpow (k - 25))%R.
Proof.
  unfold fin, val, F32.mul, F32.prec, F32.emax. intros Fa Fb Hk Hlt.
  destruct (SFmul_R _ _ k (to_sf_valid a) (to_sf_valid b) Fa Fb Hk Hlt) as (Hf & Hv & He).
  rewrite to_sf_of_sf by assumption. split; assumption.
Qed.

Lemma F32_add_R a b k :
  fin a -> fin b -> -125 <= k <= 127 ->
  (Rabs (val a + val b) < bpow k)%R ->
  fin (F32.add a b) /\
  (Rabs (val (F32.add a b) - (val a + val b)) <= bpow (k - 25))%R.
Proof.
  unfold fin, val, F32.add, F32.prec, F32.emax. intros Fa Fb Hk Hlt.
  destruct (SFadd_R _ _ k (to_sf_valid a) (to_sf_valid b) Fa Fb Hk Hlt) as (Hf & Hv & He).
  rewrite to_sf_of_sf by assumption. split; assumption.
Qed.

Lemma F32_sub_R a b k :
  fin a -> fin b -> -125 <= k <= 127 ->
  (Rabs (val a - val b) < bpow k)%R ->
  fin (F32.sub a b) /\
  (Rabs (val (F32.sub a b) - (val a - val b)) <= bpow (k - 25))%R.
Proof.
  unfold fin, val, F32.sub, F32.prec, F32.emax. intros Fa Fb Hk Hlt.
  destruct (SFsub_R _ _ k (to_sf_valid a) (to_sf_valid b) Fa Fb Hk Hlt) as (Hf & Hv & He).
  rewrite to_sf_of_sf by assumption. split; assumption.
Qed.

Lemma F32_fma_R a b c k :
  fin a -> fin b -> fin c -> -125 <= k <= 127 ->
  (Rabs (val a * val b + val c) < bpow k)%R ->
  fin (F32.fma a b c) /\
  (Rabs (val (F32.fma a b c) - (val a * val b + val c)) <= bpow (k - 25))%R.
Proof.
  unfold fin, val, F32.fma. intros Fa Fb Fc Hk Hlt.
  destruct (SFfma_R _ _ _ k (to_sf_valid a) (to_sf_valid b) (to_sf_valid c) Fa Fb Fc Hk Hlt)
    as (Hf & Hv & He).
  rewrite to_sf_of_sf by assumption. split; assumption.
Qed.

(** Conversion of a small integer is exact. *)
Lemma F32_of_Z_R v :
  Z.abs v < 16777216 -> fin (F32.of_Z v) /\ val (F32.of_Z v) = IZR v.
Proof.
  intros Hv. unfold fin, val, F32.of_Z, F32.prec, F32.emax.
  destruct (binary_normalize_exact v 0 Hv ltac:(lia)) as (Hf & Hva & He).
  rewrite to_sf_of_sf by assumption. split; [exact Hf|].
  rewrite He, bpow_0. ring.
Qed.

(** Conversion of a 24-bit fixed-point number is exact. *)
Lemma F32_of_fixed_R v n :
  Z.abs v < 16777216 -> -100 <= n <= 149 ->
  fin (F32.of_fixed v n) /\ val (F32.of_fixed v n) = (IZR v * bpow (- n))%R.
Proof.
  intros Hv Hn. unfold fin, val, F32.of_fixed, F32.prec, F32.emax.
  destruct (binary_normalize_exact v (- n) Hv ltac:(lia)) as (Hf & Hva & He).
  rewrite to_sf_of_sf by assumption. split; assumption.
Qed.

(** ** Propagating rounding errors *)

Lemma bpow_opp_IZR e : 0 <= e -> bpow (- e) = (/ IZR (2 ^ e))%R.
Proof.
  intros He. rewrite <- (bpow_IZR e He). unfold bpow. apply powerRZ_neg'. 
Qed.

(** Literal powers of two as numerals, for linear arithmetic. *)
Ltac bpow_num :=
  repeat match goal with
  | |- context [bpow ?z] =>
      let z' := eval vm_compute in z in
      match z' with
      | Z0 => replace (bpow z) with 1%R by (symmetry; exact bpow_0)
      | Zpos ?p =>
          let v := eval vm_compute in (2 ^ z') in
          replace (bpow z) with (IZR v)
            by (symmetry; exact (bpow_IZR z' ltac:(discriminate)))
      | Zneg ?p =>
          let v := eval vm_compute in (2 ^ (Zpos p)) in
          replace (bpow z) with (/ IZR v)%R
            by (symmetry; exact (bpow_opp_IZR (Zpos p) ltac:(discriminate)))
      end
  end.

Lemma Rabs_mul_le x y X Y :
  (Rabs x <= X -> Rabs y <= Y -> Rabs (x * y) <= X * Y)%R.
Proof.
  intros Hx Hy. rewrite Rabs_mult.
  apply Rmult_le_compat; auto using Rabs_pos.
Qed.

Lemma bnd_val a A ea MA : bnd a A ea MA -> (Rabs (val a) <= MA + ea)%R.
Proof.
  intros (_ & He & HM).
  replace (val a) with (A + (val a - A))%R by ring.
  eapply Rle_trans; [apply Rabs_triang|]. lra.
Qed.

Lemma bnd_nonneg a A ea MA : bnd a A ea MA -> (0 <= ea /\ 0 <= MA)%R.
Proof.
  intros (_ & He & HM). split; eapply Rle_trans; try apply Rabs_pos; eassumption.
Qed.

Lemma bnd_mul a b A B ea eb MA MB k e M :
  bnd a A ea MA -> bnd b B eb MB -> -125 <= k <= 127 ->
  ((MA + ea) * (MB + eb) < bpow k)%R ->
  (ea * (MB + eb) + MA * eb + bpow (k - 25) <= e)%R ->
  (MA * MB <= M)%R ->
  bnd (F32.mul a b) (A * B) e M.
Proof.
  intros Ha Hb Hk Hlt He HM.
  pose proof (bnd_val _ _ _ _ Ha) as Va. pose proof (bnd_val _ _ _ _ Hb) as Vb.
  destruct Ha as (Fa & Ea & Ma), Hb as (Fb & Eb & Mb).
  destruct (F32_mul_R a b k Fa Fb Hk) as (Fr & Er).
  { eapply Rle_lt_trans; [apply Rabs_mul_le; eassumption | exact Hlt]. }
  split; [exact Fr|]. split.
  - replace (val (F32.mul a b) - A * B)%R
      with ((val (F32.mul a b) - val a * val b)
            + ((val a - A) * val b + A * (val b - B)))%R by ring.
    eapply Rle_trans; [apply Rabs_triang|].
    assert (Rabs ((val a - A) * val b + A * (val b - B)) <= ea * (MB + eb) + MA * eb)%R.
    { eapply Rle_trans; [apply Rabs_triang|]. apply Rplus_le_compat; apply Rabs_mul_le; assumption. }
    lra.
  - eapply Rle_trans; [apply Rabs_mul_le; eassumption | exact HM].
Qed.

Lemma bnd_add a b A B ea eb MA MB k e M :
  bnd a A ea MA -> bnd b B eb MB -> -125 <= k <= 127 ->
  (MA + ea + (MB + eb) < bpow k)%R ->
  (ea + eb + bpow (k - 25) <= e)%R ->
  (MA + MB <= M)%R ->
  bnd (F32.add a b) (A + B) e M.
Proof.
  intros Ha Hb Hk Hlt He HM.
  pose proof (bnd_val _ _ _ _ Ha) as Va. pose proof (bnd_val _ _ _ _ Hb) as Vb.
  destruct Ha as (Fa & Ea & Ma), Hb as (Fb & Eb & Mb).
  destruct (F32_add_R a b k Fa Fb Hk) as (Fr & Er).
  { eapply Rle_lt_trans; [apply Rabs_triang|]. lra. }
  split; [exact Fr|]. split.
  - replace (val (F32.add a b) - (A + B))%R
      with ((val (F32.add a b) - (val a + val b))
            + ((val a - A) + (val b - B)))%R by ring.
    eapply Rle_trans; [apply Rabs_triang|].
    assert (Rabs ((val a - A) + (val b - B)) <= ea + eb)%R.
    { eapply Rle_trans; [apply Rabs_triang|]. lra. }
    lra.
  - eapply Rle_trans; [apply Rabs_triang|]. lra.
Qed.

Lemma bnd_sub a b A B ea eb MA MB k e M :
  bnd a A ea MA -> bnd b B eb MB -> -125 <= k <= 127 ->
  (MA + ea + (MB + eb) < bpow k)%R ->
  (ea + eb + bpow (k - 25) <= e)%R ->
  (MA + MB <= M)%R ->
  bnd (F32.sub a b) (A - B) e M.
Proof.
  intros Ha Hb Hk Hlt He HM.
  pose proof (bnd_val _ _ _ _ Ha) as Va. pose proof (bnd_val _ _ _ _ Hb) as Vb.
  destruct Ha as (Fa & Ea & Ma), Hb as (Fb & Eb & Mb).
  assert (T : forall u v, (Rabs (u - v) <= Rabs u + Rabs v)%R).
  { intros u v. unfold Rminus. eapply Rle_trans; [apply Rabs_triang|].
    rewrite Rabs_Ropp. lra. }
  destruct (F32_sub_R a b k Fa Fb Hk) as (Fr & Er).
  { eapply Rle_lt_trans; [apply T|]. lra. }
  split; [exact Fr|]. split.
  - replace (val (F32.sub a b) - (A - B))%R
      with ((val (F32.sub a b) - (val a - val b))
            + ((val a - A) - (val b - B)))%R by ring.
    eapply Rle_trans; [apply Rabs_triang|].
    pose proof (T (val a - A) (val b - B))%R. lra.
  - eapply Rle_trans; [apply T|]. lra.
Qed.

Lemma bnd_fma a b c A B C ea eb ec MA MB MC k e M :
  bnd a A ea MA -> bnd b B eb MB -> bnd c C ec MC -> -125 <= k <= 127 ->
  ((MA + ea) * (MB + eb) + (MC + ec) < bpow k)%R ->
  (ea * (MB + eb) + MA * eb + ec + bpow (k - 25) <= e)%R ->
  (MA * MB + MC <= M)%R ->
  bnd (F32.fma a b c) (A * B + C) e M.
Proof.
  intros Ha Hb Hc Hk Hlt He HM.
  pose proof (bnd_val _ _ _ _ Ha) as Va. pose proof (bnd_val _ _ _ _ Hb) as Vb.
  pose proof (bnd_val _ _ _ _ Hc) as Vc.
  destruct Ha as (Fa & Ea & Ma), Hb as (Fb & Eb & Mb), Hc as (Fc & Ec & Mc).
  destruct (F32_fma_R a b c k Fa Fb Fc Hk) as (Fr & Er).
  { eapply Rle_lt_trans; [apply Rabs_triang|].
    pose proof (Rabs_mul_le _ _ _ _ Va Vb). lra. }
  split; [exact Fr|]. split.
  - replace (val (F32.fma a b c) - (A * B + C))%R
      with ((val (F32.fma a b c) - (val a * val b + val c))
            + (((val a - A) * val b + A * (val b - B)) + (val c - C)))%R by ring.
    eapply Rle_trans; [apply Rabs_triang|].
    assert (Rabs (((val a - A) * val b + A * (val b - B)) + (val c - C))
            <= ea * (MB + eb) + MA * eb + ec)%R.
    { eapply Rle_trans; [apply Rabs_triang|]. apply Rplus_le_compat; [|assumption].
      eapply Rle_trans; [apply Rabs_triang|].
      apply Rplus_le_compat; apply Rabs_mul_le; assumption. }
    lra.
  - eapply Rle_trans; [apply Rabs_triang|].
    pose proof (Rabs_mul_le _ _ _ _ Ma Mb). lra.
Qed.

Lemma bnd_exact a A M : fin a -> val a = A -> (Rabs A <= M)%R -> bnd a A 0 M.
Proof.
  intros Fa Va HM. split; [exact Fa|]. split; [|exact HM].
  rewrite Va, Rminus_diag, Rabs_R0. lra.
Qed.

(** A constant whose decoding is known. *)
Lemma bnd_const c s m e M :
  F32.to_sf c = S754_finite s m e ->
  (IZR (Zpos m) * bpow e <= M)%R ->
  bnd c (IZR (cond_Zopp s (Zpos m)) * bpow e) 0 M.
Proof.
  intros Hc HM. apply bnd_exact.
  - unfold fin. rewrite Hc. reflexivity.
  - unfold val. rewrite Hc. reflexivity.
  - rewrite Rabs_mult, IZR_cond_Zopp, Rabs_mult, Rabs_sgn, Rmult_1_l.
    rewrite !Rabs_pos_eq; [exact HM | left; apply bpow_pos | apply IZR_le; lia].
Qed.

(** ** Rounding in the lanes *)

Lemma normal_pos_fields x :
  normal_pos x ->
  F32.sign_field x = false /\ F32.exp_field x = x / 8388608 /\
  F32.frac_field x = x mod 8388608 /\ 1 <= x / 8388608 <= 254.
Proof.
  intros [Hl Hu].
  assert (Hq : 1 <= x / 8388608 <= 254).
  { split; [apply Z.div_le_lower_bound; lia|].
    assert (x / 8388608 < 255) by (apply Z.div_lt_upper_bound; lia). lia. }
  pose proof (Z.mod_pos_bound x 8388608 eq_refl) as Hr.
  pose proof (Z.div_mod x 8388608 ltac:(lia)) as Hx.
  destruct (fields_of_parts false (x / 8388608) (x mod 8388608) ltac:(lia) Hr)
    as (Hs & He & Hf).
  cbn zeta in Hs, He, Hf. unfold F32.sign_bit in Hs, He, Hf.
  replace (0 + x / 8388608 * 8388608 + x mod 8388608) with x in Hs, He, Hf by lia.
  auto.
Qed.

Lemma sig_R_range x : (1 <= sig_R x < 2)%R.
Proof.
  unfold sig_R. pose proof (Z.mod_pos_bound x 8388608 eq_refl) as Hr.
  assert (H1 : (IZR 8388608 <= IZR (8388608 + x mod 8388608))%R) by (apply IZR_le; lia).
  assert (H2 : (IZR (8388608 + x mod 8388608) < IZR 16777216)%R) by (apply IZR_lt; lia).
  bpow_num. lra.
Qed.

Lemma exp_Z_range x : normal_pos x -> -126 <= exp_Z x <= 127.
Proof. intros H. destruct (normal_pos_fields x H) as (_ & _ & _ & Hq). unfold exp_Z. lia. Qed.

(** The value of a positive normal float. *)
Lemma val_normal_pos x :
  normal_pos x -> fin x /\ val x = (sig_R x * bpow (exp_Z x))%R.
Proof.
  intros H. destruct (normal_pos_fields x H) as (Hs & He & Hf & Hq).
  pose proof (Z.mod_pos_bound x 8388608 eq_refl) as Hr.
  unfold fin, val, F32.to_sf. rewrite Hs, He, Hf.
  destruct (x / 8388608 =? 0) eqn:E0; [apply Z.eqb_eq in E0; lia|].
  destruct (x / 8388608 =? 255) eqn:E255; [apply Z.eqb_eq in E255; lia|].
  destruct (x mod 8388608 + 8388608) as [|p|p] eqn:Ep; try lia.
  split; [reflexivity|].
  cbn [B2R cond_Zopp]. unfold sig_R, exp_Z.
  rewrite (Z.add_comm 8388608), Ep.
  rewrite Rmult_assoc, <- bpow_add. f_equal. f_equal. lia.
Qed.

(** The two inputs of the polynomial in the x86 lanes. *)
Lemma lane_frac_R x : fin (lane_frac x) /\ val (lane_frac x) = sig_R x.
Proof.
  rewrite lane_frac_spec, Spec_m_bits, frac_field_mod.
  pose proof (Z.mod_pos_bound x 8388608 eq_refl) as Hr.
  unfold fin, val. rewrite to_sf_one_plus by exact Hr.
  split; [reflexivity|].
  cbn [B2R cond_Zopp]. unfold sig_R. rewrite Z2Pos.id by lia. reflexivity.
Qed.

Lemma lane_exponent_R x :
  normal_pos x -> fin (lane_exponent x) /\ val (lane_exponent x) = IZR (exp_Z x).
Proof.
  intros H. destruct (normal_pos_fields x H) as (_ & He & _ & Hq).
  rewrite lane_exponent_spec. unfold Spec.E. rewrite He.
  apply F32_of_Z_R. unfold exp_Z. lia.
Qed.

Lemma bnd_tighten a A e M M' : bnd a A e M -> (Rabs A <= M')%R -> bnd a A e M'.
Proof. intros (Hf & He & _) HM. repeat split; assumption. Qed.

Lemma bnd_conv a A A' e e' M M' :
  bnd a A e M -> A = A' -> (e <= e')%R -> (M <= M')%R -> bnd a A' e' M'.
Proof.
  intros (Hf & He & HM) <- Hle HMle. split; [exact Hf|]. split; lra.
Qed.

Lemma bnd_c0 : bnd c0 (IZR (836388480) * bpow (-28)) 0 (3191 / 1024).
Proof.
  apply bnd_exact.
  - vm_compute. reflexivity.
  - unfold val.
    replace (F32.to_sf c0) with (S754_finite false 13068570 (-22)) by (vm_compute; reflexivity).
    cbn [B2R]. rewrite IZR_cond_Zopp. cbn [sgn_R]. bpow_num. lra.
  - bpow_num. apply Rabs_le. lra.
Qed.

Lemma bnd_c1 : bnd c1 (IZR (-892332864) * bpow (-28)) 0 (851 / 256).
Proof.
  apply bnd_exact.
  - vm_compute. reflexivity.
  - unfold val.
    replace (F32.to_sf c1) with (S754_finite true 13942701 (-22)) by (vm_compute; reflexivity).
    cbn [B2R]. rewrite IZR_cond_Zopp. cbn [sgn_R]. bpow_num. lra.
  - bpow_num. apply Rabs_le. lra.
Qed.

Lemma bnd_c2 : bnd c2 (IZR (697622208) * bpow (-28)) 0 (1331 / 512).
Proof.
  apply bnd_exact.
  - vm_compute. reflexivity.
  - unfold val.
    replace (F32.to_sf c2) with (S754_finite false 10900347 (-22)) by (vm_compute; reflexivity).
    cbn [B2R]. rewrite IZR_cond_Zopp. cbn [sgn_R]. bpow_num. lra.
  - bpow_num. apply Rabs_le. lra.
Qed.

Lemma bnd_c3 : bnd c3 (IZR (-330586400) * bpow (-28)) 0 (631 / 512).
Proof.
  apply bnd_exact.
  - vm_compute. reflexivity.
  - unfold val.
    replace (F32.to_sf c3) with (S754_finite true 10330825 (-23)) by (vm_compute; reflexivity).
    cbn [B2R]. rewrite IZR_cond_Zopp. cbn [sgn_R]. bpow_num. lra.
  - bpow_num. apply Rabs_le. lra.
Qed.

Lemma bnd_c4 : bnd c4 (IZR (85419752) * bpow (-28)) 0 (163 / 512).
Proof.
  apply bnd_exact.
  - vm_compute. reflexivity.
  - unfold val.
    replace (F32.to_sf c4) with (S754_finite false 10677469 (-25)) by (vm_compute; reflexivity).
    cbn [B2R]. rewrite IZR_cond_Zopp. cbn [sgn_R]. bpow_num. lra.
  - bpow_num. apply Rabs_le. lra.
Qed.

Lemma bnd_c5 : bnd c5 (IZR (-9243845) * bpow (-28)) 0 (9 / 256).
Proof.
  apply bnd_exact.
  - vm_compute. reflexivity.
  - unfold val.
    replace (F32.to_sf c5) with (S754_finite true 9243845 (-28)) by (vm_compute; reflexivity).
    cbn [B2R]. rewrite IZR_cond_Zopp. cbn [sgn_R]. bpow_num. lra.
  - bpow_num. apply Rabs_le. lra.
Qed.

Lemma bnd_p0 : bnd neon_p0 (IZR (-1632109184) * bpow (-29)) 0 (1557 / 512).
Proof.
  apply bnd_exact.
  - vm_compute. reflexivity.
  - unfold val.
    replace (F32.to_sf neon_p0) with (S754_finite true 12750853 (-22)) by (vm_compute; reflexivity).
    cbn [B2R]. rewrite IZR_cond_Zopp. cbn [sgn_R]. bpow_num. lra.
  - bpow_num. apply Rabs_le. lra.
Qed.

Lemma bnd_p1 : bnd neon_p1 (IZR (3281872128) * bpow (-29)) 0 (1565 / 256).
Proof.
  apply bnd_exact.
  - vm_compute. reflexivity.
  - unfold val.
    replace (F32.to_sf neon_p1) with (S754_finite false 12819813 (-21)) by (vm_compute; reflexivity).
    cbn [B2R]. rewrite IZR_cond_Zopp. cbn [sgn_R]. bpow_num. lra.
  - bpow_num. apply Rabs_le. lra.
Qed.

Lemma bnd_p2 : bnd neon_p2 (IZR (-2867958528) * bpow (-29)) 0 (5471 / 1024).
Proof.
  apply bnd_exact.
  - vm_compute. reflexivity.
  - unfold val.
    replace (F32.to_sf neon_p2) with (S754_finite true 11202963 (-21)) by (vm_compute; reflexivity).
    cbn [B2R]. rewrite IZR_cond_Zopp. cbn [sgn_R]. bpow_num. lra.
  - bpow_num. apply Rabs_le. lra.
Qed.

Lemma bnd_p3 : bnd neon_p3 (IZR (1764441728) * bpow (-29)) 0 (1683 / 512).
Proof.
  apply bnd_exact.
  - vm_compute. reflexivity.
  - unfold val.
    replace (F32.to_sf neon_p3) with (S754_finite false 13784701 (-22)) by (vm_compute; reflexivity).
    cbn [B2R]. rewrite IZR_cond_Zopp. cbn [sgn_R]. bpow_num. lra.
  - bpow_num. apply Rabs_le. lra.
Qed.

Lemma bnd_p4 : bnd neon_p4 (IZR (-680171584) * bpow (-29)) 0 (649 / 512).
Proof.
  apply bnd_exact.
  - vm_compute. reflexivity.
  - unfold val.
    replace (F32.to_sf neon_p4) with (S754_finite true 10627681 (-23)) by (vm_compute; reflexivity).
    cbn [B2R]. rewrite IZR_cond_Zopp. cbn [sgn_R]. bpow_num. lra.
  - bpow_num. apply Rabs_le. lra.
Qed.

Lemma bnd_p5 : bnd neon_p5 (IZR (147719376) * bpow (-29)) 0 (141 / 512).
Proof.
  apply bnd_exact.
  - vm_compute. reflexivity.
  - unfold val.
    replace (F32.to_sf neon_p5) with (S754_finite false 9232461 (-25)) by (vm_compute; reflexivity).
    cbn [B2R]. rewrite IZR_cond_Zopp. cbn [sgn_R]. bpow_num. lra.
  - bpow_num. apply Rabs_le. lra.
Qed.

Lemma bnd_p6 : bnd neon_p6 (IZR (-13792798) * bpow (-29)) 0 (27 / 1024).
Proof.
  apply bnd_exact.
  - vm_compute. reflexivity.
  - unfold val.
    replace (F32.to_sf neon_p6) with (S754_finite true 13792798 (-29)) by (vm_compute; reflexivity).
    cbn [B2R]. rewrite IZR_cond_Zopp. cbn [sgn_R]. bpow_num. lra.
  - bpow_num. apply Rabs_le. lra.
Qed.

Lemma bnd_one : bnd (F32.lit 1 1) 1 0 1.
Proof.
  apply bnd_exact.
  - vm_compute. reflexivity.
  - unfold val.
    replace (F32.to_sf (F32.lit 1 1)) with (S754_finite false 8388608 (-23))
      by (vm_compute; reflexivity).
    cbn [B2R]. rewrite IZR_cond_Zopp. cbn [sgn_R]. bpow_num. lra.
  - apply Rabs_le. lra.
Qed.

(** Rounding in the polynomial of the non-fused x86 lanes. *)
Lemma horner_round frac m :
  bnd frac m 0 2 ->
  bnd (horner frac) (poly_x86 m) (169 / 16777216) (37111 / 1024).
Proof.
  intros Hm.
  pose proof bnd_c0 as Hc0. pose proof bnd_c1 as Hc1. pose proof bnd_c2 as Hc2.
  pose proof bnd_c3 as Hc3. pose proof bnd_c4 as Hc4. pose proof bnd_c5 as Hc5.
  pose proof (bnd_mul _ _ _ _ _ _ _ _ (-3) (1 / 268435456) (9 / 128) Hc5 Hm ltac:(lia) ltac:(bpow_num; lra) ltac:(bpow_num; lra) ltac:(lra)) as S1.
  pose proof (bnd_add _ _ _ _ _ _ _ _ (-1) (5 / 268435456) (199 / 512) S1 Hc4 ltac:(lia) ltac:(bpow_num; lra) ltac:(bpow_num; lra) ltac:(lra)) as S2.
  pose proof (bnd_mul _ _ _ _ _ _ _ _ (0) (9 / 134217728) (199 / 256) S2 Hm ltac:(lia) ltac:(bpow_num; lra) ltac:(bpow_num; lra) ltac:(lra)) as S3.
  pose proof (bnd_add _ _ _ _ _ _ _ _ (2) (25 / 134217728) (1029 / 512) S3 Hc3 ltac:(lia) ltac:(bpow_num; lra) ltac:(bpow_num; lra) ltac:(lra)) as S4.
  pose proof (bnd_mul _ _ _ _ _ _ _ _ (3) (41 / 67108864) (1029 / 256) S4 Hm ltac:(lia) ltac:(bpow_num; lra) ltac:(bpow_num; lra) ltac:(lra)) as S5.
  pose proof (bnd_add _ _ _ _ _ _ _ _ (3) (57 / 67108864) (3389 / 512) S5 Hc2 ltac:(lia) ltac:(bpow_num; lra) ltac:(bpow_num; lra) ltac:(lra)) as S6.
  pose proof (bnd_mul _ _ _ _ _ _ _ _ (4) (73 / 33554432) (3389 / 256) S6 Hm ltac:(lia) ltac:(bpow_num; lra) ltac:(bpow_num; lra) ltac:(lra)) as S7.
  pose proof (bnd_add _ _ _ _ _ _ _ _ (5) (105 / 33554432) (265 / 16) S7 Hc1 ltac:(lia) ltac:(bpow_num; lra) ltac:(bpow_num; lra) ltac:(lra)) as S8.
  pose proof (bnd_mul _ _ _ _ _ _ _ _ (6) (137 / 16777216) (265 / 8) S8 Hm ltac:(lia) ltac:(bpow_num; lra) ltac:(bpow_num; lra) ltac:(lra)) as S9.
  pose proof (bnd_add _ _ _ _ _ _ _ _ (6) (169 / 16777216) (37111 / 1024) S9 Hc0 ltac:(lia) ltac:(bpow_num; lra) ltac:(bpow_num; lra) ltac:(lra)) as S10.
  unfold horner. eapply bnd_conv; [exact S10 | | lra | lra].
  unfold poly_x86, evalR, x86_coeffs. cbn [fold_right]. ring.
Qed.

Lemma horner_fma_round frac m :
  bnd frac m 0 2 ->
  bnd (horner_fma frac) (poly_x86 m) (25 / 4194304) (37111 / 1024).
Proof.
  intros Hm.
  pose proof bnd_c0 as Hc0. pose proof bnd_c1 as Hc1. pose proof bnd_c2 as Hc2.
  pose proof bnd_c3 as Hc3. pose proof bnd_c4 as Hc4. pose proof bnd_c5 as Hc5.
  pose proof (bnd_fma _ _ _ _ _ _ _ _ _ _ _ _ (-1) (1 / 67108864) (199 / 512) Hc5 Hm Hc4 ltac:(lia) ltac:(bpow_num; lra) ltac:(bpow_num; lra) ltac:(lra)) as S1.
  pose proof (bnd_fma _ _ _ _ _ _ _ _ _ _ _ _ (2) (5 / 33554432) (1029 / 512) S1 Hm Hc3 ltac:(lia) ltac:(bpow_num; lra) ltac:(bpow_num; lra) ltac:(lra)) as S2.
  pose proof (bnd_fma _ _ _ _ _ _ _ _ _ _ _ _ (3) (9 / 16777216) (3389 / 512) S2 Hm Hc2 ltac:(lia) ltac:(bpow_num; lra) ltac:(bpow_num; lra) ltac:(lra)) as S3.
  pose proof (bnd_fma _ _ _ _ _ _ _ _ _ _ _ _ (5) (17 / 8388608) (265 / 16) S3 Hm Hc1 ltac:(lia) ltac:(bpow_num; lra) ltac:(bpow_num; lra) ltac:(lra)) as S4.
  pose proof (bnd_fma _ _ _ _ _ _ _ _ _ _ _ _ (6) (25 / 4194304) (37111 / 1024) S4 Hm Hc0 ltac:(lia) ltac:(bpow_num; lra) ltac:(bpow_num; lra) ltac:(lra)) as S5.
  unfold horner_fma. eapply bnd_conv; [exact S5 | | lra | lra].
  unfold poly_x86, evalR, x86_coeffs. cbn [fold_right]. ring.
Qed.

(** Rounding in a whole x86 lane: the float result against
    [E + P(m) * (m - 1)] over the reals. *)
Lemma lane_x86_round x :
  normal_pos x ->
  let A := (IZR (exp_Z x) + poly_x86 (sig_R x) * (sig_R x - 1))%R in
  bnd (lane_sse4_1 x) A (1 / 32768) 164 /\
  bnd (lane_avx2 x) A (1 / 32768) 164 /\
  bnd (lane_avx2_fma x) A (1 / 32768) 164.
Proof.
  intros Hx. destruct (lane_frac_R x) as [Ff Vf].
  destruct (lane_exponent_R x Hx) as [FE VE].
  pose proof (sig_R_range x) as Hr. pose proof (exp_Z_range x Hx) as HEr.
  assert (Hm : bnd (lane_frac x) (sig_R x) 0 2)
    by (apply bnd_exact; [exact Ff | exact Vf | apply Rabs_le; lra]).
  assert (HE : bnd (lane_exponent x) (IZR (exp_Z x)) 0 127).
  { apply bnd_exact; [exact FE | exact VE |].
    apply Rabs_le. split; [rewrite <- opp_IZR|]; apply IZR_le; lia. }
  pose proof bnd_one as Hone.
  split; [|split].
  - pose proof (horner_round _ _ Hm) as HP.
    pose proof (bnd_sub _ _ _ _ _ _ _ _ (2) (1 / 8388608) 3 Hm Hone ltac:(lia) ltac:(bpow_num; lra) ltac:(bpow_num; lra) ltac:(lra)) as S11.
    pose proof (bnd_tighten _ _ _ _ 1 S11 ltac:(apply Rabs_le; lra)) as S12.
    pose proof (bnd_mul _ _ _ _ _ _ _ _ (6) (8961473 / 549755813888) (37111 / 1024) HP S12 ltac:(lia) ltac:(bpow_num; lra) ltac:(bpow_num; lra) ltac:(lra)) as S13.
    pose proof (bnd_add _ _ _ _ _ _ _ _ (8) (13155777 / 549755813888) (167159 / 1024) HE S13 ltac:(lia) ltac:(bpow_num; lra) ltac:(bpow_num; lra) ltac:(lra)) as S14.
    pose proof (bnd_add _ _ _ _ _ _ _ _ (8) (13155777 / 549755813888) (167159 / 1024) S13 HE ltac:(lia) ltac:(bpow_num; lra) ltac:(bpow_num; lra) ltac:(lra)) as S15.
    unfold lane_sse4_1. cbv zeta. eapply bnd_conv; [exact S14 | reflexivity | lra | lra].
  - pose proof (horner_round _ _ Hm) as HP.
    pose proof (bnd_sub _ _ _ _ _ _ _ _ (2) (1 / 8388608) 3 Hm Hone ltac:(lia) ltac:(bpow_num; lra) ltac:(bpow_num; lra) ltac:(lra)) as S11.
    pose proof (bnd_tighten _ _ _ _ 1 S11 ltac:(apply Rabs_le; lra)) as S12.
    pose proof (bnd_mul _ _ _ _ _ _ _ _ (6) (8961473 / 549755813888) (37111 / 1024) HP S12 ltac:(lia) ltac:(bpow_num; lra) ltac:(bpow_num; lra) ltac:(lra)) as S13.
    pose proof (bnd_add _ _ _ _ _ _ _ _ (8) (13155777 / 549755813888) (167159 / 1024) HE S13 ltac:(lia) ltac:(bpow_num; lra) ltac:(bpow_num; lra) ltac:(lra)) as S14.
    pose proof (bnd_add _ _ _ _ _ _ _ _ (8) (13155777 / 549755813888) (167159 / 1024) S13 HE ltac:(lia) ltac:(bpow_num; lra) ltac:(bpow_num; lra) ltac:(lra)) as S15.
    unfold lane_avx2. cbv zeta. eapply bnd_conv; [exact S15 | ring | lra | lra].
  - pose proof (horner_fma_round _ _ Hm) as HP.
    pose proof (bnd_sub _ _ _ _ _ _ _ _ (2) (1 / 8388608) 3 Hm Hone ltac:(lia) ltac:(bpow_num; lra) ltac:(bpow_num; lra) ltac:(lra)) as S6.
    pose proof (bnd_tighten _ _ _ _ 1 S6 ltac:(apply Rabs_le; lra)) as S7.
    pose proof (bnd_fma _ _ _ _ _ _ _ _ _ _ _ _ (8) (19692417 / 1099511627776) (167159 / 1024) HP S7 HE ltac:(lia) ltac:(bpow_num; lra) ltac:(bpow_num; lra) ltac:(lra)) as S8.
    unfold lane_avx2_fma. cbv zeta. eapply bnd_conv; [exact S8 | ring | lra | lra].
Qed.

Lemma neon_poly_round e s E m :
  bnd e E 0 127 -> bnd s m 0 2 ->
  bnd (neon_poly e s) (E + poly_neon m) (1 / 8192) 221.
Proof.
  intros HE Hm.
  pose proof bnd_p0 as Hp0. pose proof bnd_p1 as Hp1. pose proof bnd_p2 as Hp2.
  pose proof bnd_p3 as Hp3. pose proof bnd_p4 as Hp4. pose proof bnd_p5 as Hp5.
  pose proof bnd_p6 as Hp6.
  pose proof (bnd_add _ _ _ _ _ _ _ _ (8) (1 / 131072) (66581 / 512) HE Hp0 ltac:(lia) ltac:(bpow_num; lra) ltac:(bpow_num; lra) ltac:(lra)) as S1.
  pose proof (bnd_mul _ _ _ _ _ _ _ _ (4) (1 / 2097152) (1565 / 128) Hm Hp1 ltac:(lia) ltac:(bpow_num; lra) ltac:(bpow_num; lra) ltac:(lra)) as S2.
  pose proof (bnd_add _ _ _ _ _ _ _ _ (8) (33 / 2097152) (72841 / 512) S1 S2 ltac:(lia) ltac:(bpow_num; lra) ltac:(bpow_num; lra) ltac:(lra)) as S3.
  pose proof (bnd_mul _ _ _ _ _ _ _ _ (3) (1 / 4194304) 4 Hm Hm ltac:(lia) ltac:(bpow_num; lra) ltac:(bpow_num; lra) ltac:(lra)) as S4.
  pose proof (bnd_mul _ _ _ _ _ _ _ _ (5) (9567 / 4294967296) (5471 / 256) S4 Hp2 ltac:(lia) ltac:(bpow_num; lra) ltac:(bpow_num; lra) ltac:(lra)) as S5.
  pose proof (bnd_add _ _ _ _ _ _ _ _ (8) (109919 / 4294967296) (83783 / 512) S3 S5 ltac:(lia) ltac:(bpow_num; lra) ltac:(bpow_num; lra) ltac:(lra)) as S6.
  pose proof (bnd_mul _ _ _ _ _ _ _ _ (4) (1 / 1048576) 8 S4 Hm ltac:(lia) ltac:(bpow_num; lra) ltac:(bpow_num; lra) ltac:(lra)) as S7.
  pose proof (bnd_mul _ _ _ _ _ _ _ _ (5) (2195 / 536870912) (1683 / 64) S7 Hp3 ltac:(lia) ltac:(bpow_num; lra) ltac:(bpow_num; lra) ltac:(lra)) as S8.
  pose proof (bnd_add _ _ _ _ _ _ _ _ (8) (160247 / 4294967296) (97247 / 512) S6 S8 ltac:(lia) ltac:(bpow_num; lra) ltac:(bpow_num; lra) ltac:(lra)) as S9.
  pose proof (bnd_mul _ _ _ _ _ _ _ _ (5) (3145729 / 1099511627776) 16 S4 S4 ltac:(lia) ltac:(bpow_num; lra) ltac:(bpow_num; lra) ltac:(lra)) as S10.
  pose proof (bnd_mul _ _ _ _ _ _ _ _ (5) (2518017 / 549755813888) (649 / 32) S10 Hp4 ltac:(lia) ltac:(bpow_num; lra) ltac:(bpow_num; lra) ltac:(lra)) as S11.
  pose proof (bnd_add _ _ _ _ _ _ _ _ (8) (27223937 / 549755813888) (107631 / 512) S9 S11 ltac:(lia) ltac:(bpow_num; lra) ltac:(bpow_num; lra) ltac:(lra)) as S12.
  pose proof (bnd_mul _ _ _ _ _ _ _ _ (6) (8388609 / 1099511627776) 32 S7 S4 ltac:(lia) ltac:(bpow_num; lra) ltac:(bpow_num; lra) ltac:(lra)) as S13.
  pose proof (bnd_mul _ _ _ _ _ _ _ _ (4) (2834433 / 1099511627776) (141 / 16) S13 Hp5 ltac:(lia) ltac:(bpow_num; lra) ltac:(bpow_num; lra) ltac:(lra)) as S14.
  pose proof (bnd_add _ _ _ _ _ _ _ _ (8) (65670915 / 1099511627776) (112143 / 512) S12 S14 ltac:(lia) ltac:(bpow_num; lra) ltac:(bpow_num; lra) ltac:(lra)) as S15.
  pose proof (bnd_mul _ _ _ _ _ _ _ _ (7) (20971521 / 1099511627776) 64 S7 S7 ltac:(lia) ltac:(bpow_num; lra) ltac:(bpow_num; lra) ltac:(lra)) as S16.
  pose proof (bnd_mul _ _ _ _ _ _ _ _ (1) (618497 / 1099511627776) (27 / 16) S16 Hp6 ltac:(lia) ltac:(bpow_num; lra) ltac:(bpow_num; lra) ltac:(lra)) as S17.
  pose proof (bnd_add _ _ _ _ _ _ _ _ (8) (18669505 / 274877906944) (113007 / 512) S15 S17 ltac:(lia) ltac:(bpow_num; lra) ltac:(bpow_num; lra) ltac:(lra)) as S18.
  unfold neon_poly. cbv zeta. eapply bnd_conv; [exact S18 | | lra | lra].
  unfold poly_neon, evalR, neon_coeffs. cbn [fold_right]. ring.
Qed.

Lemma lane_neon_poly x :
  lane_neon x =
  neon_poly
    (F32.of_Z (signed32 (Z.shiftr (Z.land (signed32 x) (signed32 0x7f800000)) 23
                         - signed32 127)))
    (F32.of_fixed (Z.lor (signed32 0x000800000) (Z.land (signed32 x) (signed32 0x007fffff))) 23).
Proof.
  unfold lane_neon, VLOG2Q_NEON_F32, neon_poly,
    neon_p0, neon_p1, neon_p2, neon_p3, neon_p4, neon_p5, neon_p6,
    vdupq_n_s32, vdupq_n_f32, vandq_s32, vorrq_s32, vshrq_n_s32, vsubq_s32,
    vcvtq_f32_s32, vcvtq_n_f32_s32, vaddq_f32, vmulq_f32.
  cbn [zip_with zip fmap list_fmap replicate fst snd].
  reflexivity.
Qed.

Lemma lor_implicit_one f : 0 <= f < 8388608 -> Z.lor 8388608 f = 8388608 + f.
Proof.
  intros Hf.
  assert (Hd : Z.land 8388608 f = 0).
  { apply Z.bits_inj'. intros n Hn. rewrite Z.land_spec, Z.bits_0.
    destruct (Z_lt_le_dec n 23) as [Hlt|Hge].
    - change 8388608 with (Z.shiftl 1 23).
      rewrite Z.shiftl_spec_low by lia. reflexivity.
    - destruct (Z.eq_dec f 0) as [->|Hf0]; [rewrite Z.bits_0; apply andb_false_r|].
      rewrite (Z.bits_above_log2 f n); [apply andb_false_r | lia |].
      assert (Z.log2 f < 23) by (apply Z.log2_lt_pow2; lia). lia. }
  rewrite <- Z.lxor_lor by exact Hd. symmetry. apply Z.add_nocarry_lxor. exact Hd.
Qed.

Lemma signed32_normal_pos x : normal_pos x -> signed32 x = x.
Proof.
  intros [Hl Hu]. unfold signed32, wrap32. rewrite Z.mod_small by lia.
  destruct (x <? 2147483648) eqn:E; [reflexivity | apply Z.ltb_ge in E; lia].
Qed.

(** The integer preamble of the NEON lane delivers the same exponent and
    significand as the x86 one. *)
Lemma neon_inputs x :
  normal_pos x ->
  signed32 (Z.shiftr (Z.land (signed32 x) (signed32 0x7f800000)) 23 - signed32 127)
    = exp_Z x /\
  Z.lor (signed32 0x000800000) (Z.land (signed32 x) (signed32 0x007fffff))
    = 8388608 + x mod 8388608.
Proof.
  intros Hx. destruct (normal_pos_fields x Hx) as (_ & He & Hf & Hq).
  rewrite (signed32_normal_pos x Hx).
  change (signed32 2139095040) with 2139095040. change (signed32 127) with 127.
  change (signed32 8388608) with 8388608. change (signed32 8388607) with 8388607.
  split.
  - rewrite Z.shiftr_land. change (Z.shiftr 2139095040 23) with 255.
    fold (F32.exp_field x). rewrite He. unfold exp_Z.
    unfold signed32, wrap32.
    destruct (Z_lt_le_dec (x / 8388608 - 127) 0) as [Hn|Hp].
    + replace ((x / 8388608 - 127) mod 4294967296) with (x / 8388608 - 127 + 4294967296)
        by (apply Z.mod_unique_pos with (q := -1); lia).
      destruct (x / 8388608 - 127 + 4294967296 <? 2147483648) eqn:E;
        [apply Z.ltb_lt in E; lia | lia].
    + rewrite Z.mod_small by lia.
      destruct (x / 8388608 - 127 <? 2147483648) eqn:E;
        [reflexivity | apply Z.ltb_ge in E; lia].
  - fold (F32.frac_field x). rewrite Hf. apply lor_implicit_one.
    apply Z.mod_pos_bound. lia.
Qed.

Lemma lane_neon_round x :
  normal_pos x ->
  bnd (lane_neon x) (IZR (exp_Z x) + poly_neon (sig_R x)) (1 / 8192) 221.
Proof.
  intros Hx. rewrite lane_neon_poly. destruct (neon_inputs x Hx) as [-> ->].
  pose proof (sig_R_range x) as Hr. pose proof (exp_Z_range x Hx) as HEr.
  pose proof (Z.mod_pos_bound x 8388608 eq_refl) as Hm.
  apply neon_poly_round.
  - destruct (F32_of_Z_R (exp_Z x) ltac:(lia)) as [Ff Vf].
    apply bnd_exact; [exact Ff | exact Vf |].
    apply Rabs_le. split; [rewrite <- opp_IZR|]; apply IZR_le; lia.
  - destruct (F32_of_fixed_R (8388608 + x mod 8388608) 23 ltac:(lia) ltac:(lia)) as [Ff Vf].
    apply bnd_exact; [exact Ff | exact Vf | apply Rabs_le; lra].
Qed.

(** ** The polynomials against the logarithm *)

Lemma ln_le_sub1 x : (0 < x -> ln x <= x - 1)%R.
Proof.
  intros Hx. pose proof (exp_ineq1_le (x - 1)) as H.
  replace (1 + (x - 1))%R with x in H by ring.
  destruct H as [H|H].
  - left. rewrite <- (ln_exp (x - 1)). apply ln_increasing; assumption.
  - right. rewrite H at 1. apply ln_exp.
Qed.

Lemma ln_step a b :
  (0 < a -> a <= b -> (b - a) / b <= ln b - ln a <= (b - a) / a)%R.
Proof.
  intros Ha Hab. assert (Hb : (0 < b)%R) by lra.
  assert (Hia : (0 < / a)%R) by (apply Rinv_0_lt_compat; exact Ha).
  assert (Hib : (0 < / b)%R) by (apply Rinv_0_lt_compat; exact Hb).
  split.
  - pose proof (ln_le_sub1 (a * / b) ltac:(apply Rmult_lt_0_compat; assumption)) as H.
    rewrite ln_mult, ln_Rinv in H by assumption.
    replace ((b - a) / b)%R with (- (a * / b - 1))%R by (field; lra). lra.
  - pose proof (ln_le_sub1 (b * / a) ltac:(apply Rmult_lt_0_compat; assumption)) as H.
    rewrite ln_mult, ln_Rinv in H by assumption.
    replace ((b - a) / a)%R with (b * / a - 1)%R by (field; lra). lra.
Qed.

Lemma ln2_pos : (0 < ln 2)%R.
Proof. pose proof ln_lt_2. lra. Qed.

Lemma ln_bpow e : ln (bpow e) = (IZR e * ln 2)%R.
Proof.
  assert (Hp : forall p, ln (bpow (Zpos p)) = (IZR (Zpos p) * ln 2)%R).
  { intros p. unfold bpow, powerRZ. rewrite ln_pow by lra.
    rewrite INR_IZR_INZ, positive_nat_Z. reflexivity. }
  destruct e as [|p|p].
  - rewrite bpow_0, ln_1. lra.
  - apply Hp.
  - assert (H : (bpow (Zneg p) * bpow (Zpos p) = 1)%R).
    { rewrite <- bpow_add. replace (Zneg p + Zpos p) with 0 by lia. apply bpow_0. }
    apply (f_equal ln) in H. rewrite ln_mult, ln_1, Hp in H by apply bpow_pos.
    replace (IZR (Zneg p)) with (- IZR (Zpos p))%R by (rewrite <- opp_IZR; reflexivity). lra.
Qed.

Lemma log2_R_scale m e :
  (0 < m)%R -> log2_R (m * bpow e) = (IZR e + log2_R m)%R.
Proof.
  intros Hm. unfold log2_R. rewrite ln_mult, ln_bpow by (assumption || apply bpow_pos).
  field. pose proof ln2_pos. lra.
Qed.

Lemma evalR_padd a b x : evalR (padd a b) x = (evalR a x + evalR b x)%R.
Proof.
  revert b. induction a as [|c a IH]; intros [|d b]; cbn [padd evalR fold_right];
    try lra.
  fold (evalR (padd a b) x). fold (evalR a x). fold (evalR b x).
  rewrite IH, plus_IZR. ring.
Qed.

Lemma evalR_cons c l x : evalR (c :: l) x = (IZR c + x * evalR l x)%R.
Proof. reflexivity. Qed.

Lemma evalR_shift1 p t : evalR (shift1 p) t = evalR p (1 + t).
Proof.
  induction p as [|c p IH]; [reflexivity|].
  cbn [shift1]. rewrite evalR_padd, !evalR_cons, IH. ring.
Qed.

Lemma evalR_split l x :
  evalR l x = (evalR (pos_part l) x - evalR (neg_part l) x)%R.
Proof.
  induction l as [|c l IH]; [cbn; lra|].
  unfold pos_part, neg_part in *. rewrite !fmap_cons, !evalR_cons, IH.
  assert (IZR c = IZR (Z.max 0 c) - IZR (Z.max 0 (- c)))%R.
  { rewrite <- minus_IZR. f_equal. lia. }
  lra.
Qed.

Lemma evalR_mono l x y :
  Forall (fun c => 0 <= c) l -> (0 <= x <= y)%R ->
  (0 <= evalR l x <= evalR l y)%R.
Proof.
  intros Hl Hxy. induction Hl as [|c l Hc Hl IH]; [cbn; lra|].
  rewrite !evalR_cons. assert (0 <= IZR c)%R by (apply IZR_le; exact Hc).
  assert (0 <= x * evalR l x)%R by (apply Rmult_le_pos; lra).
  assert (x * evalR l x <= y * evalR l y)%R by (apply Rmult_le_compat; lra).
  lra.
Qed.

Lemma pos_part_nonneg l : Forall (fun c => 0 <= c) (pos_part l).
Proof. unfold pos_part. apply Forall_fmap, Forall_forall. intros c _. cbn. lia. Qed.

Lemma neg_part_nonneg l : Forall (fun c => 0 <= c) (neg_part l).
Proof. unfold neg_part. apply Forall_fmap, Forall_forall. intros c _. cbn. lia. Qed.

(** Over a cell [a, b] of nonnegative arguments a polynomial lies between
    these combinations of its two monotone parts at the end points. *)
Lemma evalR_cell l a b t :
  (0 <= a <= t)%R -> (t <= b)%R ->
  (evalR (pos_part l) a - evalR (neg_part l) b <= evalR l t
   <= evalR (pos_part l) b - evalR (neg_part l) a)%R.
Proof.
  intros Ha Hb. rewrite (evalR_split l t).
  pose proof (evalR_mono _ a t (pos_part_nonneg l) ltac:(lra)).
  pose proof (evalR_mono _ t b (pos_part_nonneg l) ltac:(lra)).
  pose proof (evalR_mono _ a t (neg_part_nonneg l) ltac:(lra)).
  pose proof (evalR_mono _ t b (neg_part_nonneg l) ltac:(lra)).
  lra.
Qed.

Lemma IZR_div_bounds a b :
  0 < b -> (IZR (a / b) <= IZR a / IZR b < IZR (a / b) + 1)%R.
Proof.
  intros Hb. assert (Hb' : (0 < IZR b)%R) by (apply IZR_lt; exact Hb).
  pose proof (Z.mul_div_le a b Hb) as H1.
  pose proof (Z.mul_succ_div_gt a b Hb) as H2.
  apply IZR_le in H1. apply IZR_lt in H2.
  rewrite mult_IZR in H1. rewrite mult_IZR, succ_IZR in H2.
  split.
  - apply Rmult_le_reg_r with (IZR b); [exact Hb'|].
    unfold Rdiv. rewrite Rmult_assoc, Rinv_l by lra. lra.
  - apply Rmult_lt_reg_r with (IZR b); [exact Hb'|].
    unfold Rdiv. rewrite Rmult_assoc, Rinv_l by lra. lra.
Qed.

Lemma lowZ_upZ_sound logn l i :
  0 <= logn -> 0 <= i ->
  (IZR (lowZ logn l i) <= evalR l (IZR i / IZR (2 ^ logn)) <= IZR (upZ logn l i))%R.
Proof.
  intros Hn Hi. set (n := 2 ^ logn). assert (Hnp : 0 < n) by (apply Z.pow_pos_nonneg; lia).
  assert (Hn' : (0 < IZR n)%R) by (apply IZR_lt; exact Hnp).
  assert (Hi' : (0 <= IZR i)%R) by (apply IZR_le; exact Hi).
  induction l as [|c l IH]; [cbn; lra|].
  cbn [lowZ upZ]. rewrite evalR_cons, !plus_IZR, !Z.shiftr_div_pow2 by exact Hn.
  fold n. destruct IH as [IHl IHu].
  pose proof (IZR_div_bounds (i * lowZ logn l i) n Hnp) as [L1 _].
  assert (U1 : (IZR (i * upZ logn l i) / IZR n <= IZR ((i * upZ logn l i + (n - 1)) / n))%R).
  { pose proof (Z.div_mod (i * upZ logn l i + (n - 1)) n ltac:(lia)) as E.
    pose proof (Z.mod_pos_bound (i * upZ logn l i + (n - 1)) n Hnp) as B.
    apply Rmult_le_reg_r with (IZR n); [exact Hn'|].
    unfold Rdiv. rewrite Rmult_assoc, Rinv_l, Rmult_1_r by lra.
    rewrite <- mult_IZR. apply IZR_le. nia. }
  rewrite mult_IZR in L1, U1.
  assert (M1 : (IZR i * IZR (lowZ logn l i) <= IZR i * evalR l (IZR i / IZR n))%R)
    by (apply Rmult_le_compat_l; assumption).
  assert (M2 : (IZR i * evalR l (IZR i / IZR n) <= IZR i * IZR (upZ logn l i))%R)
    by (apply Rmult_le_compat_l; assumption).
  assert (D1 : (IZR i * IZR (lowZ logn l i) / IZR n <= IZR i * evalR l (IZR i / IZR n) / IZR n)%R).
  { unfold Rdiv. apply Rmult_le_compat_r; [left; apply Rinv_0_lt_compat; exact Hn' | exact M1]. }
  assert (D2 : (IZR i * evalR l (IZR i / IZR n) / IZR n <= IZR i * IZR (upZ logn l i) / IZR n)%R).
  { unfold Rdiv. apply Rmult_le_compat_r; [left; apply Rinv_0_lt_compat; exact Hn' | exact M2]. }
  replace (IZR i / IZR n * evalR l (IZR i / IZR n))%R
    with (IZR i * evalR l (IZR i / IZR n) / IZR n)%R by (field; lra).
  lra.
Qed.

(** Soundness of the checker: a run that returns [true] bounds the
    distance between the polynomial and log2 on the whole of [1, 2). *)
Section Checker.

Variables (S logn sc Tz n : Z) (l : list Z).
Hypothesis S_pos : 0 < S.
Hypothesis logn_nonneg : 0 <= logn.
Hypothesis sc_nonneg : 0 <= sc.
Hypothesis n_def : n = 2 ^ logn.

Lemma grid_size_pos : 0 < n.
Proof. rewrite n_def. apply Z.pow_pos_nonneg; lia. Qed.

Lemma grid_point_step i :
  0 <= i ->
  (0 < grid_point n i /\ grid_point n i <= grid_point n (i + 1) /\
   (grid_point n (i + 1) - grid_point n i) / grid_point n (i + 1) = 1 / IZR (n + i + 1) /\
   (grid_point n (i + 1) - grid_point n i) / grid_point n i = 1 / IZR (n + i))%R.
Proof.
  intros Hi. pose proof grid_size_pos as Hn.
  assert (Hn' : (0 < IZR n)%R) by (apply IZR_lt; exact Hn).
  assert (Hi' : (0 <= IZR i)%R) by (apply IZR_le; exact Hi).
  unfold grid_point. rewrite !plus_IZR.
  assert (0 <= IZR i / IZR n)%R by (apply Rmult_le_pos; [lra | left; apply Rinv_0_lt_compat; lra]).
  assert (0 < / IZR n)%R by (apply Rinv_0_lt_compat; lra).
  repeat split.
  - lra.
  - unfold Rdiv. rewrite Rmult_plus_distr_r. lra.
  - field. lra.
  - field. lra.
Qed.

Lemma ln_enclosed_0 : ln_enclosed S n 0 0 0.
Proof.
  unfold ln_enclosed, grid_point. replace (1 + 0 / IZR n)%R with 1%R by (unfold Rdiv; ring).
  rewrite ln_1. lra.
Qed.

Lemma ln_enclosed_step i lo hi :
  0 <= i -> ln_enclosed S n i lo hi ->
  ln_enclosed S n (i + 1) (lo + S / (n + i + 1)) (hi + (S / (n + i) + 1)).
Proof.
  intros Hi [Hlo Hhi]. pose proof grid_size_pos as Hn.
  destruct (grid_point_step i Hi) as (Hp & Hle & E1 & E2).
  pose proof (ln_step _ _ Hp Hle) as [L1 L2]. rewrite E1 in L1. rewrite E2 in L2.
  pose proof (IZR_div_bounds S (n + i + 1) ltac:(lia)) as [B1 _].
  pose proof (IZR_div_bounds S (n + i) ltac:(lia)) as [_ B2].
  assert (HS : (0 < IZR S)%R) by (apply IZR_lt; exact S_pos).
  assert (M1 : (IZR S * (1 / IZR (n + i + 1)) <= IZR S * (ln (grid_point n (i + 1)) - ln (grid_point n i)))%R)
    by (apply Rmult_le_compat_l; lra).
  assert (M2 : (IZR S * (ln (grid_point n (i + 1)) - ln (grid_point n i)) <= IZR S * (1 / IZR (n + i)))%R)
    by (apply Rmult_le_compat_l; lra).
  unfold ln_enclosed. rewrite !plus_IZR. unfold Rdiv in *. lra.
Qed.

Lemma ln_enclosure_sound fuel : forall i lo hi,
  0 <= i -> ln_enclosed S n i lo hi ->
  ln_enclosed S n (i + Z.of_nat fuel) (fst (ln_enclosure S n fuel i lo hi))
                          (snd (ln_enclosure S n fuel i lo hi)).
Proof.
  induction fuel as [|f IH]; intros i lo hi Hi HI.
  - cbn [ln_enclosure fst snd]. rewrite Z.add_0_r. exact HI.
  - cbn [ln_enclosure]. rewrite Nat2Z.inj_succ.
    replace (i + Z.succ (Z.of_nat f)) with ((i + 1) + Z.of_nat f) by lia.
    apply IH; [lia | apply ln_enclosed_step; assumption].
Qed.

Lemma check_cells_sound lpos lneg l2lo l2hi fuel : forall i lo hi,
  0 <= i -> ln_enclosed S n i lo hi ->
  check_cells S n logn sc Tz lpos lneg l2lo l2hi fuel i lo hi = true ->
  forall j, i <= j < i + Z.of_nat fuel ->
  exists lo' hi',
    (IZR lo' <= IZR S * ln (grid_point n j))%R /\ (IZR S * ln (grid_point n (j + 1)) <= IZR hi')%R /\
    cell_ok logn sc Tz lpos lneg l2lo l2hi j lo' hi' = true.
Proof.
  induction fuel as [|f IH]; intros i lo hi Hi HI Hc j Hj; [lia|].
  cbn [check_cells] in Hc. apply andb_true_iff in Hc. destruct Hc as [Hc1 Hc2].
  pose proof (ln_enclosed_step i lo hi Hi HI) as HI'.
  destruct (Z.eq_dec j i) as [->|Hne].
  - exists lo, (hi + (S / (n + i) + 1)). destruct HI as [Hl _], HI' as [_ Hu]. auto.
  - apply (IH (i + 1) _ _ ltac:(lia) HI' Hc2). lia.
Qed.

Lemma between_le X c c1 c2 B :
  (c1 <= c <= c2 -> X * c1 <= B -> X * c2 <= B -> X * c <= B)%R.
Proof.
  intros Hc H1 H2. destruct (Rle_dec 0 X) as [Hx|Hx].
  - assert (X * c <= X * c2)%R by (apply Rmult_le_compat_l; lra). lra.
  - apply Rnot_le_lt in Hx.
    assert (- X * c1 <= - X * c)%R by (apply Rmult_le_compat_l; lra). lra.
Qed.

Lemma between_ge X c c1 c2 B :
  (c1 <= c <= c2 -> B <= X * c1 -> B <= X * c2 -> B <= X * c)%R.
Proof.
  intros Hc H1 H2. destruct (Rle_dec 0 X) as [Hx|Hx].
  - assert (X * c1 <= X * c)%R by (apply Rmult_le_compat_l; lra). lra.
  - apply Rnot_le_lt in Hx.
    assert (- X * c <= - X * c2)%R by (apply Rmult_le_compat_l; lra). lra.
Qed.

Lemma IZR_shiftl a : IZR (Z.shiftl a sc) = (IZR a * bpow sc)%R.
Proof. rewrite Z.shiftl_mul_pow2, mult_IZR, bpow_IZR by exact sc_nonneg. reflexivity. Qed.

Lemma cell_ok_sound l2lo l2hi j lo hi' t :
  0 <= j ->
  (IZR l2lo <= IZR S * ln 2 <= IZR l2hi)%R ->
  (IZR lo <= IZR S * ln (grid_point n j))%R -> (IZR S * ln (grid_point n (j + 1)) <= IZR hi')%R ->
  cell_ok logn sc Tz (pos_part l) (neg_part l) l2lo l2hi j lo hi' = true ->
  (IZR j / IZR n <= t <= IZR (j + 1) / IZR n)%R ->
  ((evalR l t - IZR Tz) * ln 2 <= bpow sc * ln (1 + t)
   <= (evalR l t + IZR Tz) * ln 2)%R.
Proof.
  intros Hj Hl2 Hlo Hhi Hc Ht. pose proof grid_size_pos as Hn.
  assert (Hn' : (0 < IZR n)%R) by (apply IZR_lt; exact Hn).
  assert (HS : (0 < IZR S)%R) by (apply IZR_lt; exact S_pos).
  assert (Hj' : (0 <= IZR j / IZR n)%R).
  { apply Rmult_le_pos; [apply IZR_le; exact Hj | left; apply Rinv_0_lt_compat; lra]. }
  unfold cell_ok in Hc. cbv zeta in Hc.
  rewrite !andb_true_iff, !Z.leb_le in Hc. destruct Hc as (((C1 & C2) & C3) & C4).
  apply IZR_le in C1, C2, C3, C4.
  rewrite mult_IZR, IZR_shiftl in C1, C2, C3, C4.
  rewrite !minus_IZR in C1, C2. rewrite plus_IZR, minus_IZR in C3, C4.
  (* the polynomial on the cell *)
  pose proof (evalR_cell l _ _ t (conj Hj' (proj1 Ht)) (proj2 Ht)) as [Pl Pu].
  pose proof (lowZ_upZ_sound logn (pos_part l) j logn_nonneg Hj) as [Lp _].
  pose proof (lowZ_upZ_sound logn (neg_part l) j logn_nonneg Hj) as [Ln _].
  pose proof (lowZ_upZ_sound logn (pos_part l) (j + 1) logn_nonneg ltac:(lia)) as [_ Up].
  pose proof (lowZ_upZ_sound logn (neg_part l) (j + 1) logn_nonneg ltac:(lia)) as [_ Un].
  rewrite <- n_def in Lp, Ln, Up, Un.
  (* the logarithm on the cell *)
  assert (Hl1 : (ln (grid_point n j) <= ln (1 + t))%R).
  { unfold grid_point. destruct (proj1 Ht) as [H|H]; [left; apply ln_increasing; lra | rewrite H; lra]. }
  assert (Hl2' : (ln (1 + t) <= ln (grid_point n (j + 1)))%R).
  { unfold grid_point. destruct (proj2 Ht) as [H|H]; [left; apply ln_increasing; lra | rewrite H; lra]. }
  assert (G1 : (IZR lo <= IZR S * ln (1 + t))%R).
  { eapply Rle_trans; [exact Hlo|]. apply Rmult_le_compat_l; lra. }
  assert (G2 : (IZR S * ln (1 + t) <= IZR hi')%R).
  { eapply Rle_trans; [|exact Hhi]. apply Rmult_le_compat_l; lra. }
  set (c := (IZR S * ln 2)%R) in *.
  assert (Hc0 : (0 < c)%R) by (apply Rmult_lt_0_compat; [exact HS | exact ln2_pos]).
  set (Fhi := (IZR (upZ logn (pos_part l) (j + 1)) - IZR (lowZ logn (neg_part l) j))%R) in *.
  set (Flo := (IZR (lowZ logn (pos_part l) j) - IZR (upZ logn (neg_part l) (j + 1)))%R) in *.
  pose proof (bpow_pos sc) as Hb.
  assert (U : ((Fhi - IZR Tz) * c <= IZR lo * bpow sc)%R)
    by (apply (between_le _ c (IZR l2lo) (IZR l2hi)); assumption).
  assert (L : (IZR hi' * bpow sc <= (Flo + IZR Tz) * c)%R)
    by (apply (between_ge _ c (IZR l2lo) (IZR l2hi)); assumption).
  assert (U' : ((evalR l t - IZR Tz) * c <= (Fhi - IZR Tz) * c)%R)
    by (apply Rmult_le_compat_r; unfold Fhi; lra).
  assert (L' : ((Flo + IZR Tz) * c <= (evalR l t + IZR Tz) * c)%R)
    by (apply Rmult_le_compat_r; unfold Flo; lra).
  assert (G1' : (IZR lo * bpow sc <= IZR S * ln (1 + t) * bpow sc)%R)
    by (apply Rmult_le_compat_r; lra).
  assert (G2' : (IZR S * ln (1 + t) * bpow sc <= IZR hi' * bpow sc)%R)
    by (apply Rmult_le_compat_r; lra).
  split.
  - apply Rmult_le_reg_l with (IZR S); [exact HS|]. unfold c in *. lra.
  - apply Rmult_le_reg_l with (IZR S); [exact HS|]. unfold c in *. lra.
Qed.

(** A successful run of the checker bounds the approximation error on the
    whole interval. *)
Lemma check_poly_sound t :
  check_poly S logn sc Tz l = true ->
  (0 <= t < 1)%R ->
  (Rabs (evalR l t * bpow (- sc) - log2_R (1 + t)) <= IZR Tz * bpow (- sc))%R.
Proof.
  intros Hc Ht. pose proof grid_size_pos as Hn.
  assert (Hn' : (0 < IZR n)%R) by (apply IZR_lt; exact Hn).
  unfold check_poly in Hc. cbv zeta in Hc. rewrite <- n_def in Hc.
  pose proof (ln_enclosure_sound (Z.to_nat n) 0 0 0 ltac:(lia) ln_enclosed_0) as Hl2.
  rewrite Z2Nat.id, Z.add_0_l in Hl2 by lia.
  assert (Hpn : grid_point n n = 2%R).
  { unfold grid_point, Rdiv. rewrite Rinv_r by lra. lra. }
  unfold ln_enclosed in Hl2. rewrite Hpn in Hl2.
  (* the cell of t *)
  set (j := (up (t * IZR n) - 1)%Z).
  destruct (archimed (t * IZR n)) as [A1 A2]. 
  assert (Hj1 : (IZR j <= t * IZR n)%R) by (unfold j; rewrite minus_IZR; lra).
  assert (Hj2 : (t * IZR n < IZR j + 1)%R) by (unfold j; rewrite minus_IZR; lra).
  assert (Htn : (0 <= t * IZR n < IZR n)%R).
  { split; [apply Rmult_le_pos; lra|].
    replace (IZR n) with (1 * IZR n)%R at 2 by ring. apply Rmult_lt_compat_r; lra. }
  assert (Hj0 : 0 <= j).
  { assert (IZR (-1) < IZR j)%R by lra. apply lt_IZR in H. lia. }
  assert (Hjn : j < n) by (apply lt_IZR; lra).
  destruct (check_cells_sound _ _ _ _ (Z.to_nat n) 0 0 0 ltac:(lia) ln_enclosed_0 Hc j)
    as (lo' & hi' & Hlo & Hhi & Hcell).
  { rewrite Z2Nat.id by lia. lia. }
  assert (Hcell_t : (IZR j / IZR n <= t <= IZR (j + 1) / IZR n)%R).
  { rewrite plus_IZR. split.
    - apply Rmult_le_reg_r with (IZR n); [exact Hn'|].
      unfold Rdiv. rewrite Rmult_assoc, Rinv_l by lra. lra.
    - apply Rmult_le_reg_r with (IZR n); [exact Hn'|].
      unfold Rdiv. rewrite Rmult_assoc, Rinv_l by lra. lra. }
  pose proof (cell_ok_sound _ _ j lo' hi' t Hj0 Hl2 Hlo Hhi Hcell Hcell_t) as [B1 B2].
  pose proof ln2_pos as H2. pose proof (bpow_pos sc) as Hb.
  assert (Hbb : (bpow (- sc) * bpow sc = 1)%R).
  { rewrite <- bpow_add. replace (- sc + sc) with 0 by lia. apply bpow_0. }
  pose proof (bpow_pos (- sc)) as Hb'.
  unfold log2_R.
  assert (E : (evalR l t * bpow (- sc) - ln (1 + t) / ln 2
               = (evalR l t * ln 2 - bpow sc * ln (1 + t)) * (bpow (- sc) / ln 2))%R).
  { transitivity (evalR l t * bpow (- sc)
                    - (bpow (- sc) * bpow sc) * (ln (1 + t) / ln 2))%R;
      [rewrite Hbb; ring | field; lra]. }
  rewrite E.
  assert (Hk : (0 < bpow (- sc) / ln 2)%R).
  { apply Rmult_lt_0_compat; [exact Hb' | apply Rinv_0_lt_compat; exact H2]. }
  rewrite Rabs_mult, (Rabs_pos_eq (bpow (- sc) / ln 2)) by lra.
  assert (Ha : (Rabs (evalR l t * ln 2 - bpow sc * ln (1 + t)) <= IZR Tz * ln 2)%R)
    by (apply Rabs_le; lra).
  replace (IZR Tz * bpow (- sc))%R with (IZR Tz * ln 2 * (bpow (- sc) / ln 2))%R
    by (field; lra).
  apply Rmult_le_compat_r; lra.
Qed.

End Checker.

Lemma check_x86 : check_poly 1099511627776 13 28 229376 approx_x86 = true.
Proof. vm_compute. reflexivity. Qed.

Lemma check_neon : check_poly 1099511627776 13 29 458752 approx_neon = true.
Proof. vm_compute. reflexivity. Qed.

(** The polynomial of the x86 lanes, times [m - 1], against log2 on [1, 2). *)
Lemma poly_x86_approx m :
  (1 <= m < 2)%R ->
  (Rabs (poly_x86 m * (m - 1) - log2_R m) <= 7 / 8192)%R.
Proof.
  intros Hm.
  pose proof (check_poly_sound 1099511627776 13 28 229376 8192 approx_x86
                ltac:(lia) ltac:(lia) ltac:(lia) eq_refl (m - 1) check_x86 ltac:(lra)) as H.
  unfold approx_x86 in H. rewrite evalR_cons, evalR_shift1 in H.
  replace (1 + (m - 1))%R with m in H by ring.
  replace (poly_x86 m * (m - 1))%R
    with ((IZR 0 + (m - 1) * evalR x86_coeffs m) * bpow (- (28)))%R
    by (unfold poly_x86; change (- (28)) with (-28); ring).
  eapply Rle_trans; [exact H|]. bpow_num. lra.
Qed.

Lemma poly_neon_approx m :
  (1 <= m < 2)%R ->
  (Rabs (poly_neon m - log2_R m) <= 7 / 8192)%R.
Proof.
  intros Hm.
  pose proof (check_poly_sound 1099511627776 13 29 458752 8192 approx_neon
                ltac:(lia) ltac:(lia) ltac:(lia) eq_refl (m - 1) check_neon ltac:(lra)) as H.
  unfold approx_neon in H. rewrite evalR_shift1 in H.
  replace (1 + (m - 1))%R with m in H by ring.
  unfold poly_neon. change (-29) with (- (29)).
  eapply Rle_trans; [exact H|]. bpow_num. lra.
Qed.

(** ** The error of a whole call *)

Lemma log2_R_normal_pos x :
  normal_pos x -> log2_R (val x) = (IZR (exp_Z x) + log2_R (sig_R x))%R.
Proof.
  intros Hx. destruct (val_normal_pos x Hx) as [_ ->].
  apply log2_R_scale. pose proof (sig_R_range x). lra.
Qed.

Lemma rounding_plus_approximation a E P L e M T :
  bnd a (E + P) e M -> (Rabs (P - L) <= T)%R -> (e + T <= 1 / 1000)%R ->
  fin a /\ (Rabs (val a - (E + L)) <= 1 / 1000)%R.
Proof.
  intros (Hf & He & _) HT Hs. split; [exact Hf|].
  replace (val a - (E + L))%R with ((val a - (E + P)) + (P - L))%R by ring.
  eapply Rle_trans; [apply Rabs_triang|]. lra.
Qed.

(** Every vector lane is within 1e-3 of log2 on positive normal floats. *)
Lemma lane_within log2f v x :
  (1 < width v)%nat -> normal_pos x -> close_to_log2 x (lane log2f v x).
Proof.
  intros Hw Hx. unfold close_to_log2. rewrite (log2_R_normal_pos x Hx).
  pose proof (sig_R_range x) as Hr.
  destruct (lane_x86_round x Hx) as (Hs & Ha & Hf).
  pose proof (lane_neon_round x Hx) as Hn.
  pose proof (poly_x86_approx (sig_R x) Hr) as Ax.
  pose proof (poly_neon_approx (sig_R x) Hr) as An.
  destruct v; cbn [lane width] in *;
    [ exfalso; lia
    | eapply rounding_plus_approximation; [exact Hf | exact Ax | lra]
    | eapply rounding_plus_approximation; [exact Ha | exact Ax | lra]
    | eapply rounding_plus_approximation; [exact Hs | exact Ax | lra]
    | eapply rounding_plus_approximation; [exact Hn | exact An | lra]
    | exfalso; lia
    | eapply rounding_plus_approximation; [exact Hs | exact Ax | lra]
    | eapply rounding_plus_approximation; [exact Hf | exact Ax | lra]
    | eapply rounding_plus_approximation; [exact Ha | exact Ax | lra] ].
Qed.

Lemma fin_not_inf y : fin y -> isinf y = false.
Proof. unfold fin, isinf. destruct (F32.to_sf y); cbn [is_finite_SF]; intros; congruence. Qed.

Lemma tail_passes_finite log2f v x : fin (log2f x) -> tail log2f v x = log2f x.
Proof.
  intros Hf. destruct (tails_on_other log2f x (fin_not_inf _ Hf)) as [Hp Hc].
  destruct v;
    [ exact Hp | exact Hp | exact Hp | exact Hp | exact Hp
    | exact Hc | exact Hc | exact Hc | exact Hc ].
Qed.

Lemma vector_part_width v N : (0 < vector_part v N)%nat -> (1 < width v)%nat.
Proof. destruct v; cbn [vector_part width]; lia. Qed.

Lemma log2_R_1 : log2_R 1 = 0%R.
Proof. unfold log2_R. rewrite ln_1. unfold Rdiv. ring. Qed.

(** The stand-in [log2f] is exact at 2.0. *)
Lemma log2f_ref_at_two : close_to_log2 0x40000000 (log2f_ref 0x40000000).
Proof.
  unfold close_to_log2.
  replace (log2f_ref 0x40000000) with (F32.of_Z 1) by (vm_compute; reflexivity).
  destruct (F32_of_Z_R 1 ltac:(lia)) as [Hf Hv]. split; [exact Hf|].
  rewrite Hv. unfold val.
  replace (F32.to_sf 0x40000000) with (S754_finite false 8388608 (-22))
    by (vm_compute; reflexivity).
  cbn [B2R cond_Zopp].
  replace (IZR 8388608 * bpow (-22))%R with (1 * bpow 1)%R by (bpow_num; lra).
  rewrite log2_R_scale, log2_R_1 by lra.
  replace (1 - (1 + 0))%R with 0%R by ring. rewrite Rabs_R0. lra.
Qed.

(** The stand-in [log2f] is exact at the smallest subnormal, 2^-149. *)
Lemma log2f_ref_at_smallest : close_to_log2 1 (log2f_ref 1).
Proof.
  unfold close_to_log2.
  replace (log2f_ref 1) with (F32.of_Z (-149)) by (vm_compute; reflexivity).
  destruct (F32_of_Z_R (-149) ltac:(lia)) as [Hf Hv]. split; [exact Hf|].
  rewrite Hv. unfold val.
  replace (F32.to_sf 1) with (S754_finite false 1 (-149)) by (vm_compute; reflexivity).
  cbn [B2R cond_Zopp].
  rewrite log2_R_scale, log2_R_1 by lra.
  replace (-149 - (-149 + 0))%R with 0%R by ring. rewrite Rabs_R0. lra.
Qed.

(** C1, amended: every variant writes, for each input x, a finite float
    within 1e-3 (absolute) of log2(x): in the cells of the vector loop for
    every positive normal x, in the cells of a scalar kernel for every x on
    which the platform's [log2f] is that accurate, subnormal or not. *)
Theorem positive_inputs_within_1e3 log2f v a_base a b_base b N :
  length a = N -> length b = N ->
  a_base mod alignment v = 0 -> b_base mod alignment v = 0 ->
  Forall normal_pos (take (vector_part v N) a) ->
  (forall x, x ∈ drop (vector_part v N) a -> close_to_log2 x (log2f x)) ->
  exists m,
    run (kernel log2f v) a_base a b_base b N = Some m /\
    Forall2 close_to_log2 a (out_cells m).
Proof.
  intros Ha Hb Haa Hba Hnorm Hlibm.
  destruct (run_cell log2f v a_base a b_base b N Ha Hb Haa Hba) as (m & Hm & Hc & _ & Hi).
  exists m. split; [exact Hm|].
  apply Forall2_same_length_lookup_2.
  - rewrite Hc, kernel_cells_length; lia.
  - intros i x y Hx Hy. rewrite (Hi i x Hx) in Hy. injection Hy as <-.
    destruct (decide (i < vector_part v N)%nat) as [Hlt|Hge].
    + assert (Hnx : normal_pos x).
      { apply (proj1 (Forall_lookup _ _) Hnorm i x).
        rewrite lookup_take_lt by exact Hlt. exact Hx. }
      apply lane_within; [apply (vector_part_width v N); lia | exact Hnx].
    + assert (Hin : x ∈ drop (vector_part v N) a).
      { apply (list_elem_of_lookup_2 _ (i - vector_part v N)%nat).
        rewrite lookup_drop. rewrite <- Hx. f_equal. lia. }
      destruct (Hlibm x Hin) as [Hf He].
      rewrite (tail_passes_finite log2f v x Hf). split; assumption.
Qed.

Lemma positive_inputs_within_1e3_witness :
  exists m,
    run (kernel log2f_ref a_sse4_1) 0
        [0x40400000; 0x3f800001; 0x00800000; 0x7f7fffff; 0x40000000; 1]
        64 [0; 0; 0; 0; 0; 0] 6 = Some m /\
    Forall2 close_to_log2
      [0x40400000; 0x3f800001; 0x00800000; 0x7f7fffff; 0x40000000; 1] (out_cells m).
Proof.
  apply (positive_inputs_within_1e3 log2f_ref a_sse4_1 0
           [0x40400000; 0x3f800001; 0x00800000; 0x7f7fffff; 0x40000000; 1]
           64 [0; 0; 0; 0; 0; 0] 6).
  - reflexivity.
  - reflexivity.
  - reflexivity.
  - reflexivity.
  - change (Forall normal_pos [0x40400000; 0x3f800001; 0x00800000; 0x7f7fffff]).
    repeat constructor; unfold normal_pos; lia.
  - intros x Hx. change (x ∈ [0x40000000; 1]) in Hx.
    apply elem_of_cons in Hx. destruct Hx as [->|Hx]; [exact log2f_ref_at_two|].
    apply list_elem_of_singleton in Hx. subst x. exact log2f_ref_at_smallest.
Defined.

(** Just below 1.0 the logarithm is tiny: for x = 1 - 2^-24 (0x3f7fffff),
    |log2 x| <= 2^-22. *)
Lemma log2_just_below_one :
  val 0x3f7fffff = (1 - bpow (-24))%R /\
  (Rabs (log2_R (val 0x3f7fffff%Z)) <= 1 / 4000000)%R.
Proof.
  assert (V : val 0x3f7fffff = (1 - bpow (-24))%R).
  { unfold val. replace (F32.to_sf 0x3f7fffff) with (S754_finite false 16777215 (-24))
      by (vm_compute; reflexivity).
    cbn [B2R cond_Zopp]. bpow_num. lra. }
  split; [exact V|]. rewrite V. unfold log2_R.
  assert (Ha : (0 < 1 - bpow (-24) <= 1)%R) by (bpow_num; lra).
  destruct (ln_step (1 - bpow (-24)) 1 (proj1 Ha) (proj2 Ha)) as [L1 L2].
  rewrite ln_1 in L1, L2.
  assert (L3 : ((1 - (1 - bpow (-24))) / (1 - bpow (-24)) <= 1 / 8000000)%R).
  { bpow_num. apply Rmult_le_reg_r with (1 - / 16777216)%R; [lra|].
    unfold Rdiv. rewrite Rmult_assoc, Rinv_l by lra. lra. }
  assert (L4 : (0 <= (1 - (1 - bpow (-24))) / 1)%R) by (bpow_num; lra).
  set (u := ln (1 - bpow (-24))) in *.
  pose proof ln_lt_2 as H2.
  assert (Hi : (0 < / ln 2 < 2)%R).
  { split; [apply Rinv_0_lt_compat; lra|].
    apply Rmult_lt_reg_r with (ln 2); [lra|]. rewrite Rinv_l by lra. lra. }
  apply Rabs_le. unfold Rdiv. split.
  - assert ((- u) * / ln 2 <= (1 / 8000000) * 2)%R
      by (apply Rmult_le_compat; lra).
    lra.
  - assert (0 <= (- u) * / ln 2)%R by (apply Rmult_le_pos; lra). lra.
Qed.

(** C1 as stated fails in two ways.  On subnormal inputs: the lanes read an
    exponent field of zero as the exponent -127 and a significand of 1.f,
    so the smallest positive float 2^-149 (pattern 1) comes out as -127.0
    (0xc2fe0000), 22 away from its logarithm -149.  And as a relative
    bound: for the normal input 1 - 2^-24 (0x3f7fffff) the SSE4.1 lane
    writes -7.5e-6 (0xb6fc0000) where |log2 x| <= 2.5e-7, an error of at
    least 7e-6, more than 28 times the logarithm itself. *)
Lemma subnormal_off_by_22_and_error_not_relative :
  run (kernel log2f_ref a_sse4_1) 0 [1; 1; 1; 1] 0 [0; 0; 0; 0] 4
    = Some (Mem 0 [1; 1; 1; 1] 0 [0xc2fe0000; 0xc2fe0000; 0xc2fe0000; 0xc2fe0000]
              [(0, 4)%nat]) /\
  lane_avx2 1 = 0xc2fe0000 /\ lane_avx2_fma 1 = 0xc2fe0000 /\
  lane_neon 1 = 0xc2fe0001 /\
  val 1 = bpow (-149) /\
  log2_R (val 1) = (-149)%R /\
  val 0xc2fe0000 = (-127)%R /\
  Rabs (val 0xc2fe0000 - log2_R (val 1)) = 22%R /\
  normal_pos 0x3f7fffff /\
  lane_sse4_1 0x3f7fffff = 0xb6fc0000 /\
  (Rabs (log2_R (val 0x3f7fffff%Z)) <= 1 / 4000000)%R /\
  (7 / 1000000 <= Rabs (val 0xb6fc0000%Z - log2_R (val 0x3f7fffff%Z)))%R.
Proof.
  assert (V1 : val 1 = bpow (-149)).
  { unfold val. replace (F32.to_sf 1) with (S754_finite false 1 (-149))
      by (vm_compute; reflexivity).
    cbn [B2R cond_Zopp]. ring. }
  assert (L1 : log2_R (val 1) = (-149)%R).
  { rewrite V1. replace (bpow (-149)) with (1 * bpow (-149))%R by ring.
    rewrite log2_R_scale, log2_R_1 by lra. ring. }
  assert (V2 : val 0xc2fe0000 = (-127)%R).
  { unfold val. replace (F32.to_sf 0xc2fe0000) with (S754_finite true 16646144 (-17))
      by (vm_compute; reflexivity).
    cbn [B2R]. rewrite IZR_cond_Zopp. cbn [sgn_R]. bpow_num. lra. }
  assert (V3 : val 0xb6fc0000 = (- IZR 16515072 * bpow (-41))%R).
  { unfold val. replace (F32.to_sf 0xb6fc0000) with (S754_finite true 16515072 (-41))
      by (vm_compute; reflexivity).
    cbn [B2R]. rewrite IZR_cond_Zopp. cbn [sgn_R]. ring. }
  destruct log2_just_below_one as [_ L].
  do 4 (split; [vm_compute; reflexivity|]).
  split; [exact V1|]. split; [exact L1|]. split; [exact V2|].
  split.
  { rewrite V2, L1. replace (-127 - -149)%R with 22%R by ring.
    apply Rabs_pos_eq. lra. }
  split; [unfold normal_pos; lia|]. split; [vm_compute; reflexivity|].
  split; [exact L|].
  assert (La : (log2_R (val 0x3f7fffff%Z) <= 1 / 4000000)%R)
    by (eapply Rle_trans; [apply Rle_abs | exact L]).
  assert (Lb : (- log2_R (val 0x3f7fffff%Z) <= 1 / 4000000)%R)
    by (eapply Rle_trans; [apply Rle_abs | rewrite Rabs_Ropp; exact L]).
  rewrite V3. rewrite Rabs_left; [bpow_num; lra | bpow_num; lra].
Qed.

(** ** The lanes on arbitrary bit patterns *)

(** A mask of at most 32 bits sees the same bits in a pattern and in its
    reading as a signed 32-bit integer. *)
Lemma land_signed32 x mask :
  0 <= mask < 4294967296 -> Z.land (signed32 x) mask = Z.land x mask.
Proof.
  intros Hm. apply Z.bits_inj'. intros n Hn. rewrite !Z.land_spec.
  destruct (Z_lt_le_dec n 32) as [Hlt|Hge].
  - f_equal.
    assert (E : signed32 x mod 2 ^ 32 = x mod 2 ^ 32).
    { unfold signed32, wrap32. change 4294967296 with (2 ^ 32).
      destruct (x mod 2 ^ 32 <? 2147483648).
      - apply Z.mod_mod. lia.
      - replace (x mod 2 ^ 32 - 2 ^ 32) with (x mod 2 ^ 32 + (-1) * 2 ^ 32) by lia.
        rewrite Z_mod_plus_full. apply Z.mod_mod. lia. }
    rewrite <- (Z.mod_pow2_bits_low (signed32 x) 32 n) by lia.
    rewrite E. apply Z.mod_pow2_bits_low. lia.
  - replace (Z.testbit mask n) with false; [rewrite !andb_false_r; reflexivity|].
    symmetry. destruct (Z.eq_dec mask 0) as [->|Hne]; [apply Z.bits_0|].
    apply Z.bits_above_log2; [lia|].
    assert (Z.log2 mask < 32) by (apply Z.log2_lt_pow2; lia). lia.
Qed.

Lemma signed32_exponent e : 0 <= e <= 255 -> signed32 (e - 127) = e - 127.
Proof.
  intros He. rewrite <- (signed32_small (e - 127)) at 2 by lia.
  unfold signed32, wrap32. rewrite Z.mod_mod by lia. reflexivity.
Qed.

(** The integer preamble of the NEON lane, on any pattern. *)
Lemma neon_inputs_any x :
  signed32 (Z.shiftr (Z.land (signed32 x) (signed32 0x7f800000)) 23 - signed32 127)
    = F32.exp_field x - 127 /\
  Z.lor (signed32 0x000800000) (Z.land (signed32 x) (signed32 0x007fffff))
    = 8388608 + F32.frac_field x.
Proof.
  change (signed32 2139095040) with 2139095040. change (signed32 127) with 127.
  change (signed32 8388608) with 8388608. change (signed32 8388607) with 8388607.
  rewrite !land_signed32 by lia. split.
  - rewrite Z.shiftr_land. change (Z.shiftr 2139095040 23) with 255.
    fold (F32.exp_field x). apply signed32_exponent, exp_field_range.
  - fold (F32.frac_field x). apply lor_implicit_one, frac_field_range.
Qed.

(** A lane looks at the exponent and significand fields only. *)
Lemma lanes_of_fields x y :
  F32.exp_field x = F32.exp_field y -> F32.frac_field x = F32.frac_field y ->
  lane_sse4_1 x = lane_sse4_1 y /\ lane_avx2 x = lane_avx2 y /\
  lane_avx2_fma x = lane_avx2_fma y /\ lane_neon x = lane_neon y.
Proof.
  intros He Hf.
  assert (HE : lane_exponent x = lane_exponent y)
    by (rewrite !lane_exponent_spec; unfold Spec.E; rewrite He; reflexivity).
  assert (HF : lane_frac x = lane_frac y)
    by (rewrite !lane_frac_spec; unfold Spec.m; rewrite Hf; reflexivity).
  split; [|split; [|split]].
  - unfold lane_sse4_1. rewrite HE, HF. reflexivity.
  - unfold lane_avx2. rewrite HE, HF. reflexivity.
  - unfold lane_avx2_fma. rewrite HE, HF. reflexivity.
  - rewrite !lane_neon_poly.
    destruct (neon_inputs_any x) as [-> ->]. destruct (neon_inputs_any y) as [-> ->].
    rewrite He, Hf. reflexivity.
Qed.

Lemma fields_ignore_sign x :
  F32.exp_field (x + 2147483648) = F32.exp_field x /\
  F32.frac_field (x + 2147483648) = F32.frac_field x.
Proof.
  rewrite !exp_field_div, !frac_field_mod. split.
  - replace (x + 2147483648) with (x + 256 * 8388608) by lia.
    rewrite Z.div_add by lia.
    replace (x / 8388608 + 256) with (x / 8388608 + 1 * 256) by lia.
    apply Z_mod_plus_full.
  - replace (x + 2147483648) with (x + 256 * 8388608) by lia.
    apply Z_mod_plus_full.
Qed.

Lemma neon_poly_round_any e s E m :
  bnd e E 0 128 -> bnd s m 0 2 ->
  bnd (neon_poly e s) (E + poly_neon m) (1 / 8192) 222.
Proof.
  intros HE Hm.
  pose proof bnd_p0 as Hp0. pose proof bnd_p1 as Hp1. pose proof bnd_p2 as Hp2.
  pose proof bnd_p3 as Hp3. pose proof bnd_p4 as Hp4. pose proof bnd_p5 as Hp5.
  pose proof bnd_p6 as Hp6.
  pose proof (bnd_add _ _ _ _ _ _ _ _ (8) (1 / 131072) (67093 / 512) HE Hp0 ltac:(lia) ltac:(bpow_num; lra) ltac:(bpow_num; lra) ltac:(lra)) as S1.
  pose proof (bnd_mul _ _ _ _ _ _ _ _ (4) (1 / 2097152) (1565 / 128) Hm Hp1 ltac:(lia) ltac:(bpow_num; lra) ltac:(bpow_num; lra) ltac:(lra)) as S2.
  pose proof (bnd_add _ _ _ _ _ _ _ _ (8) (33 / 2097152) (73353 / 512) S1 S2 ltac:(lia) ltac:(bpow_num; lra) ltac:(bpow_num; lra) ltac:(lra)) as S3.
  pose proof (bnd_mul _ _ _ _ _ _ _ _ (3) (1 / 4194304) 4 Hm Hm ltac:(lia) ltac:(bpow_num; lra) ltac:(bpow_num; lra) ltac:(lra)) as S4.
  pose proof (bnd_mul _ _ _ _ _ _ _ _ (5) (9567 / 4294967296) (5471 / 256) S4 Hp2 ltac:(lia) ltac:(bpow_num; lra) ltac:(bpow_num; lra) ltac:(lra)) as S5.
  pose proof (bnd_add _ _ _ _ _ _ _ _ (8) (109919 / 4294967296) (84295 / 512) S3 S5 ltac:(lia) ltac:(bpow_num; lra) ltac:(bpow_num; lra) ltac:(lra)) as S6.
  pose proof (bnd_mul _ _ _ _ _ _ _ _ (4) (1 / 1048576) 8 S4 Hm ltac:(lia) ltac:(bpow_num; lra) ltac:(bpow_num; lra) ltac:(lra)) as S7.
  pose proof (bnd_mul _ _ _ _ _ _ _ _ (5) (2195 / 536870912) (1683 / 64) S7 Hp3 ltac:(lia) ltac:(bpow_num; lra) ltac:(bpow_num; lra) ltac:(lra)) as S8.
  pose proof (bnd_add _ _ _ _ _ _ _ _ (8) (160247 / 4294967296) (97759 / 512) S6 S8 ltac:(lia) ltac:(bpow_num; lra) ltac:(bpow_num; lra) ltac:(lra)) as S9.
  pose proof (bnd_mul _ _ _ _ _ _ _ _ (5) (3145729 / 1099511627776) 16 S4 S4 ltac:(lia) ltac:(bpow_num; lra) ltac:(bpow_num; lra) ltac:(lra)) as S10.
  pose proof (bnd_mul _ _ _ _ _ _ _ _ (5) (2518017 / 549755813888) (649 / 32) S10 Hp4 ltac:(lia) ltac:(bpow_num; lra) ltac:(bpow_num; lra) ltac:(lra)) as S11.
  pose proof (bnd_add _ _ _ _ _ _ _ _ (8) (27223937 / 549755813888) (108143 / 512) S9 S11 ltac:(lia) ltac:(bpow_num; lra) ltac:(bpow_num; lra) ltac:(lra)) as S12.
  pose proof (bnd_mul _ _ _ _ _ _ _ _ (6) (8388609 / 1099511627776) 32 S7 S4 ltac:(lia) ltac:(bpow_num; lra) ltac:(bpow_num; lra) ltac:(lra)) as S13.
  pose proof (bnd_mul _ _ _ _ _ _ _ _ (4) (2834433 / 1099511627776) (141 / 16) S13 Hp5 ltac:(lia) ltac:(bpow_num; lra) ltac:(bpow_num; lra) ltac:(lra)) as S14.
  pose proof (bnd_add _ _ _ _ _ _ _ _ (8) (65670915 / 1099511627776) (112655 / 512) S12 S14 ltac:(lia) ltac:(bpow_num; lra) ltac:(bpow_num; lra) ltac:(lra)) as S15.
  pose proof (bnd_mul _ _ _ _ _ _ _ _ (7) (20971521 / 1099511627776) 64 S7 S7 ltac:(lia) ltac:(bpow_num; lra) ltac:(bpow_num; lra) ltac:(lra)) as S16.
  pose proof (bnd_mul _ _ _ _ _ _ _ _ (1) (618497 / 1099511627776) (27 / 16) S16 Hp6 ltac:(lia) ltac:(bpow_num; lra) ltac:(bpow_num; lra) ltac:(lra)) as S17.
  pose proof (bnd_add _ _ _ _ _ _ _ _ (8) (18669505 / 274877906944) (113519 / 512) S15 S17 ltac:(lia) ltac:(bpow_num; lra) ltac:(bpow_num; lra) ltac:(lra)) as S18.
  unfold neon_poly. cbv zeta. eapply bnd_conv; [exact S18 | | lra | lra].
  unfold poly_neon, evalR, neon_coeffs. cbn [fold_right]. ring.
Qed.

(** Rounding in the four lanes on any pattern: the float result against
    the real [E + P(m) * (m - 1)], respectively [E + Q(m)], with [E] the
    exponent field minus 127 and [m] the significand field read as 1.f. *)
Lemma lanes_round_any x :
  let E := IZR (F32.exp_field x - 127) in
  let A := (E + poly_x86 (sig_R x) * (sig_R x - 1))%R in
  bnd (lane_sse4_1 x) A (1 / 32768) 165 /\
  bnd (lane_avx2 x) A (1 / 32768) 165 /\
  bnd (lane_avx2_fma x) A (1 / 32768) 165 /\
  bnd (lane_neon x) (E + poly_neon (sig_R x)) (1 / 8192) 222.
Proof.
  cbv zeta. destruct (lane_frac_R x) as [Ff Vf].
  pose proof (sig_R_range x) as Hr. pose proof (exp_field_range x) as HEr.
  assert (Hm : bnd (lane_frac x) (sig_R x) 0 2)
    by (apply bnd_exact; [exact Ff | exact Vf | apply Rabs_le; lra]).
  assert (HEb : (Rabs (IZR (F32.exp_field x - 127)) <= 128)%R).
  { apply Rabs_le. split; [rewrite <- opp_IZR|]; apply IZR_le; lia. }
  assert (HE : bnd (lane_exponent x) (IZR (F32.exp_field x - 127)) 0 128).
  { rewrite lane_exponent_spec. unfold Spec.E.
    destruct (F32_of_Z_R (F32.exp_field x - 127) ltac:(lia)) as [FE VE].
    apply bnd_exact; assumption. }
  pose proof bnd_one as Hone.
  split; [|split; [|split]].
  - pose proof (horner_round _ _ Hm) as HP.
    pose proof (bnd_sub _ _ _ _ _ _ _ _ (2) (1 / 8388608) 3 Hm Hone ltac:(lia) ltac:(bpow_num; lra) ltac:(bpow_num; lra) ltac:(lra)) as S11.
    pose proof (bnd_tighten _ _ _ _ 1 S11 ltac:(apply Rabs_le; lra)) as S12.
    pose proof (bnd_mul _ _ _ _ _ _ _ _ (6) (8961473 / 549755813888) (37111 / 1024) HP S12 ltac:(lia) ltac:(bpow_num; lra) ltac:(bpow_num; lra) ltac:(lra)) as S13.
    pose proof (bnd_add _ _ _ _ _ _ _ _ (8) (13155777 / 549755813888) (168183 / 1024) HE S13 ltac:(lia) ltac:(bpow_num; lra) ltac:(bpow_num; lra) ltac:(lra)) as S14.
    pose proof (bnd_add _ _ _ _ _ _ _ _ (8) (13155777 / 549755813888) (168183 / 1024) S13 HE ltac:(lia) ltac:(bpow_num; lra) ltac:(bpow_num; lra) ltac:(lra)) as S15.
    unfold lane_sse4_1. cbv zeta. eapply bnd_conv; [exact S14 | reflexivity | lra | lra].
  - pose proof (horner_round _ _ Hm) as HP.
    pose proof (bnd_sub _ _ _ _ _ _ _ _ (2) (1 / 8388608) 3 Hm Hone ltac:(lia) ltac:(bpow_num; lra) ltac:(bpow_num; lra) ltac:(lra)) as S11.
    pose proof (bnd_tighten _ _ _ _ 1 S11 ltac:(apply Rabs_le; lra)) as S12.
    pose proof (bnd_mul _ _ _ _ _ _ _ _ (6) (8961473 / 549755813888) (37111 / 1024) HP S12 ltac:(lia) ltac:(bpow_num; lra) ltac:(bpow_num; lra) ltac:(lra)) as S13.
    pose proof (bnd_add _ _ _ _ _ _ _ _ (8) (13155777 / 549755813888) (168183 / 1024) HE S13 ltac:(lia) ltac:(bpow_num; lra) ltac:(bpow_num; lra) ltac:(lra)) as S14.
    pose proof (bnd_add _ _ _ _ _ _ _ _ (8) (13155777 / 549755813888) (168183 / 1024) S13 HE ltac:(lia) ltac:(bpow_num; lra) ltac:(bpow_num; lra) ltac:(lra)) as S15.
    unfold lane_avx2. cbv zeta. eapply bnd_conv; [exact S15 | ring | lra | lra].
  - pose proof (horner_fma_round _ _ Hm) as HP.
    pose proof (bnd_sub _ _ _ _ _ _ _ _ (2) (1 / 8388608) 3 Hm Hone ltac:(lia) ltac:(bpow_num; lra) ltac:(bpow_num; lra) ltac:(lra)) as S6.
    pose proof (bnd_tighten _ _ _ _ 1 S6 ltac:(apply Rabs_le; lra)) as S7.
    pose proof (bnd_fma _ _ _ _ _ _ _ _ _ _ _ _ (8) (19692417 / 1099511627776) (168183 / 1024) HP S7 HE ltac:(lia) ltac:(bpow_num; lra) ltac:(bpow_num; lra) ltac:(lra)) as S8.
    unfold lane_avx2_fma. cbv zeta. eapply bnd_conv; [exact S8 | ring | lra | lra].
  - rewrite lane_neon_poly. destruct (neon_inputs_any x) as [-> ->].
    pose proof (frac_field_range x) as Hfr.
    apply neon_poly_round_any.
    + destruct (F32_of_Z_R (F32.exp_field x - 127) ltac:(lia)) as [FE VE].
      apply bnd_exact; assumption.
    + destruct (F32_of_fixed_R (8388608 + F32.frac_field x) 23 ltac:(lia) ltac:(lia))
        as [Ff' Vf'].
      apply bnd_exact; [exact Ff' | | apply Rabs_le; lra].
      rewrite Vf'. unfold sig_R. rewrite frac_field_mod. reflexivity.
Qed.

Lemma log2_sig_range x : (0 <= log2_R (sig_R x) < 1)%R.
Proof.
  pose proof (sig_R_range x) as [H1 H2]. pose proof ln2_pos as Hl.
  unfold log2_R. split.
  - apply Rmult_le_pos; [|left; apply Rinv_0_lt_compat; exact Hl].
    rewrite <- ln_1. destruct H1 as [H1|H1]; [left; apply ln_increasing; lra | rewrite H1; lra].
  - apply Rmult_lt_reg_r with (ln 2); [exact Hl|].
    unfold Rdiv. rewrite Rmult_assoc, Rinv_l, Rmult_1_r, Rmult_1_l by lra.
    apply ln_increasing; lra.
Qed.

(** X1: on every bit pattern whatsoever (negative, zero, subnormal,
    infinite and NaN inputs included) each of the four vector lanes returns
    a finite float within 1e-3 of E + log2(1.f), where E is the exponent
    field minus 127 and 1.f the significand field behind an implicit one:
    the lanes never look at the sign bit and know no special values. *)
Theorem lanes_follow_the_fields x :
  let L := (IZR (F32.exp_field x - 127) + log2_R (sig_R x))%R in
  (fin (lane_sse4_1 x) /\ (Rabs (val (lane_sse4_1 x) - L) <= 1 / 1000)%R) /\
  (fin (lane_avx2 x) /\ (Rabs (val (lane_avx2 x) - L) <= 1 / 1000)%R) /\
  (fin (lane_avx2_fma x) /\ (Rabs (val (lane_avx2_fma x) - L) <= 1 / 1000)%R) /\
  (fin (lane_neon x) /\ (Rabs (val (lane_neon x) - L) <= 1 / 1000)%R).
Proof.
  cbv zeta. destruct (lanes_round_any x) as (Hs & Ha & Hf & Hn).
  pose proof (poly_x86_approx _ (sig_R_range x)) as Ax.
  pose proof (poly_neon_approx _ (sig_R_range x)) as An.
  split; [|split; [|split]].
  - eapply rounding_plus_approximation; [exact Hs | exact Ax | lra].
  - eapply rounding_plus_approximation; [exact Ha | exact Ax | lra].
  - eapply rounding_plus_approximation; [exact Hf | exact Ax | lra].
  - eapply rounding_plus_approximation; [exact Hn | exact An | lra].
Qed.

Lemma lane_in_range a E P L e M T :
  bnd a (E + P) e M -> (Rabs (P - L) <= T)%R -> (e + T <= 1 / 1000)%R ->
  (-127 <= E <= 128)%R -> (0 <= L < 1)%R ->
  fin a /\ (-127 - 1 / 1000 <= val a <= 129 + 1 / 1000)%R.
Proof.
  intros Hb HT Hs HE HL.
  destruct (rounding_plus_approximation a E P L e M T Hb HT Hs) as [Hf Hv].
  split; [exact Hf|].
  assert (H1 : (val a - (E + L) <= 1 / 1000)%R)
    by (eapply Rle_trans; [apply Rle_abs | exact Hv]).
  assert (H2 : (- (val a - (E + L)) <= 1 / 1000)%R)
    by (eapply Rle_trans; [apply Rle_abs | rewrite Rabs_Ropp; exact Hv]).
  lra.
Qed.

(** X2: whatever the input pattern, the value a vector lane writes is a
    finite float between -127.001 and 129.001; a lane never produces a NaN
    or an infinity. *)
Theorem lanes_stay_in_range x :
  (fin (lane_sse4_1 x) /\
   (-127 - 1 / 1000 <= val (lane_sse4_1 x) <= 129 + 1 / 1000)%R) /\
  (fin (lane_avx2 x) /\
   (-127 - 1 / 1000 <= val (lane_avx2 x) <= 129 + 1 / 1000)%R) /\
  (fin (lane_avx2_fma x) /\
   (-127 - 1 / 1000 <= val (lane_avx2_fma x) <= 129 + 1 / 1000)%R) /\
  (fin (lane_neon x) /\
   (-127 - 1 / 1000 <= val (lane_neon x) <= 129 + 1 / 1000)%R).
Proof.
  destruct (lanes_round_any x) as (Hs & Ha & Hf & Hn).
  pose proof (poly_x86_approx _ (sig_R_range x)) as Ax.
  pose proof (poly_neon_approx _ (sig_R_range x)) as An.
  pose proof (log2_sig_range x) as HL.
  pose proof (exp_field_range x) as He.
  assert (HE : (-127 <= IZR (F32.exp_field x - 127) <= 128)%R)
    by (split; apply IZR_le; lia).
  split; [|split; [|split]].
  - eapply lane_in_range; [exact Hs | exact Ax | lra | exact HE | exact HL].
  - eapply lane_in_range; [exact Ha | exact Ax | lra | exact HE | exact HL].
  - eapply lane_in_range; [exact Hf | exact Ax | lra | exact HE | exact HL].
  - eapply lane_in_range; [exact Hn | exact An | lra | exact HE | exact HL].
Qed.

Lemma bnd_apart a b A ea eb Ma Mb :
  bnd a A ea Ma -> bnd b A eb Mb -> (Rabs (val a - val b) <= ea + eb)%R.
Proof.
  intros (_ & Ha & _) (_ & Hb & _).
  replace (val a - val b)%R with ((val a - A) - (val b - A))%R by ring.
  unfold Rminus at 1. eapply Rle_trans; [apply Rabs_triang|].
  rewrite Rabs_Ropp. lra.
Qed.

(** X3: the lanes of the different instruction sets against each other, on
    every input pattern: the SSE4.1 and the AVX2 lane are bit-identical
    (they differ in the order of the operands of two additions only), the
    AVX2+FMA lane, which rounds once where they round twice, is within
    2^-14 of them, and the NEON lane, which uses another polynomial, within
    2e-3. *)
Theorem lanes_across_instruction_sets x :
  lane_sse4_1 x = lane_avx2 x /\
  (Rabs (val (lane_avx2_fma x) - val (lane_sse4_1 x)) <= 1 / 16384)%R /\
  (Rabs (val (lane_neon x) - val (lane_sse4_1 x)) <= 2 / 1000)%R.
Proof.
  destruct (lanes_round_any x) as (Hs & Ha & Hf & Hn).
  pose proof (poly_x86_approx _ (sig_R_range x)) as Ax.
  pose proof (poly_neon_approx _ (sig_R_range x)) as An.
  split; [rewrite lane_sse4_1_spec, lane_avx2_spec; reflexivity|].
  pose proof (bnd_apart _ _ _ _ _ _ _ Hf Hs) as D1.
  destruct (rounding_plus_approximation _ _ _ _ _ _ _ Hs Ax ltac:(lra)) as [_ H1].
  destruct (rounding_plus_approximation _ _ _ _ _ _ _ Hn An ltac:(lra)) as [_ H2].
  clear Hs Ha Hf Hn Ax An.
  revert D1 H1 H2.
  generalize (val (lane_neon x)) (val (lane_sse4_1 x)) (val (lane_avx2_fma x))
    (IZR (F32.exp_field x - 127) + log2_R (sig_R x))%R.
  intros vn vs vf L D1 H1 H2. split; [lra|].
  replace (vn - vs)%R with ((vn - L) - (vs - L))%R by ring.
  unfold Rminus at 1. eapply Rle_trans; [apply Rabs_triang|].
  rewrite Rabs_Ropp. lra.
Qed.

(** X4: the lanes ignore the sign bit: a pattern and the same pattern with
    bit 31 flipped give the same result in every lane, so a negative input
    -x comes out as the logarithm of x, not as a NaN. *)
Theorem sign_bit_is_ignored x :
  lane_sse4_1 (x + 2147483648) = lane_sse4_1 x /\
  lane_avx2 (x + 2147483648) = lane_avx2 x /\
  lane_avx2_fma (x + 2147483648) = lane_avx2_fma x /\
  lane_neon (x + 2147483648) = lane_neon x /\
  (0 <= x < 2147483648 ->
   F32.sign_field x = false /\ F32.sign_field (x + 2147483648) = true).
Proof.
  destruct (fields_ignore_sign x) as [He Hf].
  destruct (lanes_of_fields _ _ He Hf) as (H1 & H2 & H3 & H4).
  do 4 (split; [assumption|]).
  clear H1 H2 H3 H4 He Hf. intros Hx.
  pose proof (Z.div_mod x 8388608 ltac:(lia)) as Hd.
  pose proof (Z.mod_pos_bound x 8388608 eq_refl) as Hr.
  assert (Hq : 0 <= x / 8388608 < 256).
  { split; [apply Z.div_pos; lia | apply Z.div_lt_upper_bound; lia]. }
  destruct (fields_of_parts false (x / 8388608) (x mod 8388608) Hq Hr) as (Hs0 & _).
  destruct (fields_of_parts true (x / 8388608) (x mod 8388608) Hq Hr) as (Hs1 & _).
  cbn zeta in Hs0, Hs1. unfold F32.sign_bit in Hs0, Hs1.
  replace (0 + x / 8388608 * 8388608 + x mod 8388608) with x in Hs0 by lia.
  replace (2147483648 + x / 8388608 * 8388608 + x mod 8388608)
    with (x + 2147483648) in Hs1 by lia.
  split; assumption.
Qed.

(** ** When a call is undefined *)

Lemma vstep_None W al g p m :
  aligned_at al (in_base m) (snd p) = false \/
  (length (in_cells m) < snd p + W)%nat \/
  aligned_at al (out_base m) (fst p) = false \/
  (length (out_cells m) < fst p + W)%nat ->
  vstep W al g p m = None.
Proof.
  intros H. unfold vstep, bind, load_vec, store_vec, aligned_at in *.
  destruct (match al with
            | Some al0 => is_aligned al0 (in_base m) (snd p)
            | None => true
            end) eqn:E1; [|reflexivity].
  destruct (decide (snd p + W <= length (in_cells m))%nat) as [D1|D1]; [|reflexivity].
  destruct (match al with
            | Some al0 => is_aligned al0 (out_base m) (fst p)
            | None => true
            end) eqn:E2; [|reflexivity].
  destruct (decide (fst p + W <= length (out_cells m))%nat) as [D2|D2]; [|reflexivity].
  exfalso. destruct H as [H|[H|[H|H]]]; first [discriminate H | lia].
Qed.

Lemma for_loop_misaligned W al g n bPtr aPtr m :
  (0 < n)%nat ->
  aligned_at al (in_base m) aPtr = false \/ aligned_at al (out_base m) bPtr = false ->
  for_loop n (vstep W al g) (bPtr, aPtr) m = None.
Proof.
  intros Hn H. destruct n as [|n]; [lia|].
  cbn [for_loop]. unfold bind at 1.
  rewrite vstep_None; [reflexivity|]. cbn [fst snd]. tauto.
Qed.

Lemma ok_align_aligned_at al W base p :
  match al with Some a => a = 4 * Z.of_nat W | None => True end ->
  aligned_at al base p = true -> ok_align al W base p.
Proof. destruct al; cbn; auto. Qed.

(** A sweep that would leave a buffer fails. *)
Lemma for_loop_vstep_None W al g f n :
  (forall v, length v = W -> g v = f <$> v) ->
  forall bPtr aPtr m,
    (0 < n)%nat ->
    ok_align al W (in_base m) aPtr ->
    ok_align al W (out_base m) bPtr ->
    (length (in_cells m) < aPtr + n * W)%nat \/
    (length (out_cells m) < bPtr + n * W)%nat ->
    for_loop n (vstep W al g) (bPtr, aPtr) m = None.
Proof.
  intros Hg. induction n as [|n IH]; intros bPtr aPtr m Hn Hia Hoa Hlen; [lia|].
  cbn [for_loop]. unfold bind at 1.
  destruct (decide (aPtr + W <= length (in_cells m))%nat) as [Di|Di];
    [|rewrite vstep_None; [reflexivity | cbn [fst snd]; lia]].
  destruct (decide (bPtr + W <= length (out_cells m))%nat) as [Do|Do];
    [|rewrite vstep_None; [reflexivity | cbn [fst snd]; lia]].
  unfold vstep at 1. unfold bind. cbn [fst snd].
  rewrite load_vec_ok by assumption.
  rewrite store_vec_ok by assumption.
  unfold ret.
  assert (Hv : length (take W (drop aPtr (in_cells m))) = W)
    by (rewrite length_take, length_drop; lia).
  rewrite Hg by exact Hv.
  destruct n as [|n]; [cbn in Hlen; lia|].
  apply IH; cbn [in_base in_cells out_base out_cells].
  - lia.
  - apply ok_align_step; exact Hia.
  - apply ok_align_step; exact Hoa.
  - rewrite !length_app, length_take, length_take, length_fmap, Hv, length_drop.
    cbn [Nat.mul] in Hlen. lia.
Qed.

Lemma sweep_then_tail_None W al g fl ft body tbody N m :
  (forall p m, body p m = vstep W al g p m) ->
  (forall v, length v = W -> g v = fl <$> v) ->
  (forall p m, tbody p m = vstep 1 None (fmap ft) p m) ->
  (0 < W)%nat ->
  match al with Some a => a = 4 * Z.of_nat W | None => True end ->
  ~ ((N <= length (in_cells m))%nat /\ (N <= length (out_cells m))%nat /\
     ((W <= N)%nat ->
      aligned_at al (in_base m) 0 = true /\ aligned_at al (out_base m) 0 = true)) ->
  for_loop (N / W) body (0, 0)%nat m = None \/
  exists m1,
    for_loop (N / W) body (0, 0)%nat m = Some ((N / W * W, N / W * W)%nat, m1) /\
    for_loop (N - N / W * W) tbody (N / W * W, N / W * W)%nat m1 = None.
Proof.
  intros Hbody Hg Htail HW Hal HnP.
  set (n := (N / W * W)%nat).
  assert (Hn : (n <= N)%nat).
  { unfold n. rewrite Nat.mul_comm. apply Nat.Div0.mul_div_le. }
  rewrite (for_loop_ext _ _ Hbody).
  destruct (decide (W <= N)%nat) as [Hw|Hw].
  - assert (Hq : (0 < N / W)%nat) by (apply Nat.div_str_pos; lia).
    destruct (aligned_at al (in_base m) 0) eqn:Ai;
      [|left; apply for_loop_misaligned; auto].
    destruct (aligned_at al (out_base m) 0) eqn:Ao;
      [|left; apply for_loop_misaligned; auto].
    pose proof (ok_align_aligned_at al W _ _ Hal Ai) as Oi.
    pose proof (ok_align_aligned_at al W _ _ Hal Ao) as Oo.
    destruct (decide (n <= length (in_cells m))%nat) as [Li|Li];
      [|left; apply (for_loop_vstep_None W al g fl (N / W) Hg); auto; fold n; lia].
    destruct (decide (n <= length (out_cells m))%nat) as [Lo|Lo];
      [|left; apply (for_loop_vstep_None W al g fl (N / W) Hg); auto; fold n; lia].
    right. eexists. split.
    + rewrite (for_loop_vstep W al g fl (N / W) Hg) by (auto; fold n; lia).
      reflexivity.
    + rewrite (for_loop_ext _ _ Htail).
      apply (for_loop_vstep_None 1 None (fmap ft) ft).
      * intros v _. reflexivity.
      * assert (~ ((N <= length (in_cells m))%nat /\ (N <= length (out_cells m))%nat))
          by (intros [? ?]; apply HnP; auto).
        lia.
      * exact I.
      * exact I.
      * cbn [in_cells out_cells]. fold n.
        rewrite !length_app, length_take, length_fmap, length_take, !length_drop.
        assert (~ ((N <= length (in_cells m))%nat /\ (N <= length (out_cells m))%nat))
          by (intros [? ?]; apply HnP; auto).
        lia.
  - assert (Hq : (N / W = 0)%nat) by (apply Nat.div_small; lia).
    assert (HnN : ~ ((N <= length (in_cells m))%nat /\ (N <= length (out_cells m))%nat))
      by (intros [? ?]; apply HnP; split; [|split]; auto; intros; lia).
    right. exists m. unfold n. rewrite Hq. split; [reflexivity|].
    rewrite (for_loop_ext _ _ Htail).
    apply (for_loop_vstep_None 1 None (fmap ft) ft).
    + intros v _. reflexivity.
    + lia.
    + exact I.
    + exact I.
    + lia.
Qed.

Lemma aligned_at_base al base :
  aligned_at (Some al) base 0 = true -> base mod al = 0.
Proof.
  unfold aligned_at, is_aligned. cbn [Z.of_nat]. rewrite Z.mul_0_r, Z.add_0_r.
  apply Z.eqb_eq.
Qed.

Ltac vector_kernel_None W al g fl ft lanes_map body_eq :=
  intros HnP;
  unfold run, kernel,
    volk_32f_log2_32f_a_avx2_fma, volk_32f_log2_32f_a_avx2,
    volk_32f_log2_32f_a_sse4_1, volk_32f_log2_32f_neon,
    volk_32f_log2_32f_u_sse4_1, volk_32f_log2_32f_u_avx2_fma,
    volk_32f_log2_32f_u_avx2,
    volk_32f_log2_32f_generic, volk_32f_log2_32f_u_generic;
  unfold bind at 1;
  match goal with
  | |- context [for_loop _ ?body (0%nat, 0%nat) (Mem ?a_base ?a ?b_base ?b _)] =>
      match goal with
      | |- context [for_loop (?N - _) ?tbody _] =>
          destruct (sweep_then_tail_None W al g fl ft body tbody N
                      (Mem a_base a b_base b []))
            as [Hvec | [m1 [Hvec Htl]]];
          [ body_eq
          | exact lanes_map
          | intros p0 m0; apply (scalar_body_vstep _ p0 m0)
          | lia
          | first [reflexivity | exact I]
          | cbn [in_cells out_cells in_base out_base];
            intros (H1 & H2 & H3); apply HnP;
            split; [exact H1|]; split; [exact H2|];
            cbn [width alignment]; intros Hw;
            first [ split; apply Z.mod_1_r
                  | destruct (H3 Hw) as [A B]; split; apply aligned_at_base; assumption ]
          | rewrite Hvec; reflexivity
          | rewrite Hvec; unfold bind at 1; rewrite Htl; reflexivity ]
      end
  end.

(** Outside its preconditions a call is undefined. *)
Lemma run_undefined log2f v a_base a b_base b N :
  ~ ((N <= length a)%nat /\ (N <= length b)%nat /\
     ((width v <= N)%nat ->
      a_base mod alignment v = 0 /\ b_base mod alignment v = 0)) ->
  run (kernel log2f v) a_base a b_base b N = None.
Proof.
  assert (Hscalar : forall f,
    ~ ((N <= length a)%nat /\ (N <= length b)%nat) ->
    for_loop N (vstep 1 None (fmap f)) (0, 0)%nat (Mem a_base a b_base b []) = None).
  { intros f H. apply (for_loop_vstep_None 1 None (fmap f) f).
    - intros u _. reflexivity.
    - lia.
    - exact I.
    - exact I.
    - cbn [in_cells out_cells]. lia. }
  destruct v.
  - intros HnP. unfold run, kernel, volk_32f_log2_32f_generic. unfold bind at 1.
    rewrite (for_loop_ext _ _ (scalar_body_vstep (log2f_non_ieee log2f))).
    rewrite Hscalar; [reflexivity|].
    intros [? ?]. apply HnP. cbn [alignment]. rewrite !Z.mod_1_r. auto.
  - vector_kernel_None 8%nat (Some 32) avx2_fma_lanes lane_avx2_fma (tail log2f a_avx2_fma)
      avx2_fma_lanes_map ltac:(intros [? ?] ?; reflexivity).
  - vector_kernel_None 8%nat (Some 32) avx2_lanes lane_avx2 (tail log2f a_avx2)
      avx2_lanes_map ltac:(intros [? ?] ?; reflexivity).
  - vector_kernel_None 4%nat (Some 16) sse4_1_lanes lane_sse4_1 (tail log2f a_sse4_1)
      sse4_1_lanes_map ltac:(intros [? ?] ?; reflexivity).
  - vector_kernel_None 4%nat (@None Z) (fun v => VLOG2Q_NEON_F32 (signed32 <$> v)) lane_neon
      (tail log2f neon) neon_lanes_map ltac:(exact neon_body_vstep).
  - intros HnP. unfold run, kernel, volk_32f_log2_32f_u_generic. unfold bind at 1.
    rewrite (for_loop_ext _ _ (scalar_body_vstep (tail log2f u_generic))).
    rewrite Hscalar; [reflexivity|].
    intros [? ?]. apply HnP. cbn [alignment]. rewrite !Z.mod_1_r. auto.
  - vector_kernel_None 4%nat (@None Z) sse4_1_lanes lane_sse4_1 (tail log2f u_sse4_1)
      sse4_1_lanes_map ltac:(intros [? ?] ?; reflexivity).
  - vector_kernel_None 8%nat (@None Z) avx2_fma_lanes lane_avx2_fma (tail log2f u_avx2_fma)
      avx2_fma_lanes_map ltac:(intros [? ?] ?; reflexivity).
  - vector_kernel_None 8%nat (@None Z) avx2_lanes lane_avx2 (tail log2f u_avx2)
      avx2_lanes_map ltac:(intros [? ?] ?; reflexivity).
Qed.

(** With fewer points than lanes the vector loop is not entered and the
    call is the scalar kernel's. *)
Lemma run_short log2f v a_base a b_base b N :
  (N < width v)%nat ->
  run (kernel log2f v) a_base a b_base b N
  = run (kernel log2f (scalar_of v)) a_base a b_base b N.
Proof.
  intros HN.
  destruct v; cbn [width scalar_of] in *; try reflexivity;
    unfold run, kernel,
      volk_32f_log2_32f_a_avx2_fma, volk_32f_log2_32f_a_avx2,
      volk_32f_log2_32f_a_sse4_1, volk_32f_log2_32f_neon,
      volk_32f_log2_32f_u_sse4_1, volk_32f_log2_32f_u_avx2_fma,
      volk_32f_log2_32f_u_avx2; cbv zeta;
    rewrite !(Nat.div_small N _ HN); cbn [for_loop];
    unfold bind at 1; unfold ret at 1;
    rewrite Nat.mul_0_l, Nat.sub_0_r; reflexivity.
Qed.

Lemma kernel_cells_short log2f v N a :
  (N < width v)%nat ->
  kernel_cells log2f (scalar_of v) N a = kernel_cells log2f v N a /\
  expected_stores (scalar_of v) N = expected_stores v N.
Proof.
  intros HN. unfold kernel_cells, expected_stores.
  assert (Hv : vector_part v N = 0%nat).
  { destruct v; cbn [vector_part width] in *; try reflexivity;
      rewrite (Nat.div_small N _ HN); reflexivity. }
  assert (Hs : vector_part (scalar_of v) N = 0%nat) by (destruct v; reflexivity).
  assert (Hw : width (scalar_of v) = 1%nat) by (destruct v; reflexivity).
  rewrite Hv, Hs, Hw, tail_scalar_of. cbn [take fmap list_fmap app]. split.
  - reflexivity.
  - replace (0 / 1)%nat with 0%nat by reflexivity.
    replace (0 / width v)%nat with 0%nat by (destruct v; reflexivity).
    reflexivity.
Qed.

(** [kernel_run] under the weakest alignment condition: the addresses
    matter only when the vector loop is entered. *)
Lemma kernel_run_weak log2f v a_base a b_base b N :
  (N <= length a)%nat -> (N <= length b)%nat ->
  ((width v <= N)%nat -> a_base mod alignment v = 0 /\ b_base mod alignment v = 0) ->
  run (kernel log2f v) a_base a b_base b N =
    Some (Mem a_base a b_base (kernel_cells log2f v N a ++ drop N b)
            (expected_stores v N)).
Proof.
  intros Ha Hb Hal. destruct (decide (width v <= N)%nat) as [Hw|Hw].
  - destruct (Hal Hw). apply kernel_run; assumption.
  - rewrite run_short by lia.
    rewrite kernel_run by (try assumption; destruct v; apply Z.mod_1_r).
    destruct (kernel_cells_short log2f v N a ltac:(lia)) as [-> ->]. reflexivity.
Qed.

(** What a defined call returned. *)
Lemma run_Some_inv log2f v a_base a b_base b N m :
  run (kernel log2f v) a_base a b_base b N = Some m ->
  ((N <= length a)%nat /\ (N <= length b)%nat /\
   ((width v <= N)%nat -> a_base mod alignment v = 0 /\ b_base mod alignment v = 0)) /\
  m = Mem a_base a b_base (kernel_cells log2f v N a ++ drop N b) (expected_stores v N).
Proof.
  intros H.
  destruct (decide ((N <= length a)%nat /\ (N <= length b)%nat /\
     ((width v <= N)%nat -> a_base mod alignment v = 0 /\ b_base mod alignment v = 0)))
    as [P|nP].
  - split; [exact P|]. destruct P as (Ha & Hb & Hal).
    rewrite (kernel_run_weak log2f v a_base a b_base b N Ha Hb Hal) in H.
    injection H as <-. reflexivity.
  - rewrite (run_undefined log2f v a_base a b_base b N nP) in H. discriminate H.
Qed.

(** X5: a call is defined exactly when both buffers hold at least
    [num_points] cells and, if there are enough points for the vector loop
    to be entered at all, both addresses meet the variant's alignment (16
    bytes for a_sse4_1, 32 for a_avx2 and a_avx2_fma, none otherwise).
    A buffer that is too short or an aligned load or store at a misaligned
    address is undefined behaviour. *)
Theorem defined_iff_preconditions log2f v a_base a b_base b N :
  is_Some (run (kernel log2f v) a_base a b_base b N) <->
  (N <= length a)%nat /\ (N <= length b)%nat /\
  ((width v <= N)%nat -> a_base mod alignment v = 0 /\ b_base mod alignment v = 0).
Proof.
  split.
  - intros [m Hm]. exact (proj1 (run_Some_inv _ _ _ _ _ _ _ _ Hm)).
  - intros (Ha & Hb & Hal). rewrite (kernel_run_weak _ _ _ _ _ _ _ Ha Hb Hal).
    eexists. reflexivity.
Qed.

(** X6: a call with [num_points = 0] touches nothing, for every variant,
    whatever the buffers (even empty ones) and their addresses (even
    misaligned ones): memory is as before and no store is made. *)
Theorem empty_call log2f v a_base a b_base b :
  run (kernel log2f v) a_base a b_base b 0 = Some (Mem a_base a b_base b []).
Proof.
  rewrite kernel_run_weak.
  - unfold kernel_cells, expected_stores.
    assert (Hv : vector_part v 0 = 0%nat) by (destruct v; reflexivity).
    rewrite Hv. replace (0 / width v)%nat with 0%nat by (destruct v; reflexivity).
    reflexivity.
  - lia.
  - lia.
  - intros Hw. destruct v; cbn [width] in Hw; lia.
Qed.

(** X7: with fewer points than the vector has lanes, a vector entry point
    is in every respect its scalar kernel: the two calls end in the same
    memory with the same stores, or are both undefined, and since the
    scalar kernel has no alignment demand the addresses play no part. *)
Theorem short_call_is_the_scalar_kernel log2f v a_base a b_base b N :
  (N < width v)%nat ->
  run (kernel log2f v) a_base a b_base b N
  = run (kernel log2f (scalar_of v)) a_base a b_base b N /\
  alignment (scalar_of v) = 1.
Proof.
  intros HN. split; [apply run_short; exact HN | destruct v; reflexivity].
Qed.

Lemma short_call_is_the_scalar_kernel_witness :
  run (kernel log2f_ref a_avx2) 4 [0x40000000; 0x7f800000; 0x3f800000] 12 [0; 0; 0; 7] 3
  = run (kernel log2f_ref (scalar_of a_avx2)) 4 [0x40000000; 0x7f800000; 0x3f800000]
      12 [0; 0; 0; 7] 3 /\
  alignment (scalar_of a_avx2) = 1.
Proof.
  apply (short_call_is_the_scalar_kernel log2f_ref a_avx2 4
           [0x40000000; 0x7f800000; 0x3f800000] 12 [0; 0; 0; 7] 3).
  cbn [width]. lia.
Defined.

(** ** What a call touches *)

Lemma kernel_cells_take log2f v N a :
  kernel_cells log2f v N (take N a) = kernel_cells log2f v N a.
Proof.
  unfold kernel_cells. pose proof (vector_part_le v N) as Hn.
  set (n := vector_part v N) in *.
  rewrite take_take, Nat.min_l by lia.
  rewrite skipn_firstn_comm, take_take, Nat.min_id. reflexivity.
Qed.

(** X8: a call on buffers that do not overlap keeps the length of the
    output buffer and every output cell from index [num_points] on, and
    what it writes to the first [num_points] output cells depends on the
    first [num_points] input cells only: not on the cells behind them and
    not on what the output buffer held. *)
Theorem call_footprint log2f v a_base a b_base b N m :
  disjoint_buffers a_base b_base N ->
  run (kernel log2f v) a_base a b_base b N = Some m ->
  length (out_cells m) = length b /\
  drop N (out_cells m) = drop N b /\
  forall a' b' m',
    take N a' = take N a ->
    run (kernel log2f v) a_base a' b_base b' N = Some m' ->
    take N (out_cells m') = take N (out_cells m).
Proof.
  intros _ H. destruct (run_Some_inv _ _ _ _ _ _ _ _ H) as [(Ha & Hb & _) ->].
  cbn [out_cells].
  assert (Hk : forall a0, (N <= length a0)%nat ->
            length (kernel_cells log2f v N a0) = N)
    by (intros; apply kernel_cells_length; assumption).
  split; [rewrite length_app, Hk, length_drop by exact Ha; lia|].
  split; [rewrite drop_app_length' by (symmetry; apply Hk; exact Ha); reflexivity|].
  intros a' b' m' Ht H'.
  destruct (run_Some_inv _ _ _ _ _ _ _ _ H') as [(Ha' & Hb' & _) ->].
  cbn [out_cells].
  rewrite !take_app_length' by (symmetry; apply Hk; assumption).
  rewrite <- (kernel_cells_take log2f v N a'), Ht. apply kernel_cells_take.
Qed.

Lemma call_footprint_witness :
  length (out_cells
            (Mem 16 [0x3f800000; 0x40000000; 0x40800000; 0x44800000; 0x3f000000; 0x41000000]
               64 [0; 0x3f800000; 0x40000000; 0x41200000; 0xbf800000; 9; 9]
               [(0, 4); (4, 1)]%nat)) = length [9; 9; 9; 9; 9; 9; 9] /\
  drop 5 (out_cells
            (Mem 16 [0x3f800000; 0x40000000; 0x40800000; 0x44800000; 0x3f000000; 0x41000000]
               64 [0; 0x3f800000; 0x40000000; 0x41200000; 0xbf800000; 9; 9]
               [(0, 4); (4, 1)]%nat)) = drop 5 [9; 9; 9; 9; 9; 9; 9] /\
  forall a' b' m',
    take 5 a' = take 5 [0x3f800000; 0x40000000; 0x40800000; 0x44800000; 0x3f000000;
                        0x41000000] ->
    run (kernel log2f_ref a_sse4_1) 16 a' 64 b' 5 = Some m' ->
    take 5 (out_cells m')
    = take 5 (out_cells
                (Mem 16 [0x3f800000; 0x40000000; 0x40800000; 0x44800000; 0x3f000000;
                         0x41000000]
                   64 [0; 0x3f800000; 0x40000000; 0x41200000; 0xbf800000; 9; 9]
                   [(0, 4); (4, 1)]%nat)).
Proof.
  apply (call_footprint log2f_ref a_sse4_1 16
           [0x3f800000; 0x40000000; 0x40800000; 0x44800000; 0x3f000000; 0x41000000]
           64 [9; 9; 9; 9; 9; 9; 9] 5).
  - unfold disjoint_buffers. lia.
  - vm_compute. reflexivity.
Defined.

(** ** Nothing infinite is written *)

Lemma tail_not_inf log2f v x : isinf (tail log2f v x) = false.
Proof.
  assert (Hp : isinf (log2f_non_ieee log2f x) = false).
  { unfold log2f_non_ieee, copysignf. cbv zeta.
    destruct (isinf (log2f x)) eqn:E; [|exact E].
    destruct (F32.sign_field (log2f x)); vm_compute; reflexivity. }
  assert (Hc : isinf (tail log2f u_generic x) = false).
  { unfold tail. cbv zeta.
    destruct (isinf (log2f x)) eqn:E; [vm_compute; reflexivity | exact E]. }
  destruct v;
    [ exact Hp | exact Hp | exact Hp | exact Hp | exact Hp
    | exact Hc | exact Hc | exact Hc | exact Hc ].
Qed.

Lemma fin_not_nan y : fin y -> is_nan y = false.
Proof. unfold fin, is_nan. destruct (F32.to_sf y); cbn [is_finite_SF]; intros; congruence. Qed.

Lemma lane_fin log2f v x : (1 < width v)%nat -> fin (lane log2f v x).
Proof.
  intros Hw. destruct (lanes_round_any x) as ((Hs & _) & (Ha & _) & (Hf & _) & (Hn & _)).
  destruct v; cbn [width] in Hw;
    [ exfalso; lia | exact Hf | exact Ha | exact Hs | exact Hn
    | exfalso; lia | exact Hs | exact Hf | exact Ha ].
Qed.

(** X9: no call ever writes an infinity, whatever the input holds and
    whatever the platform's [log2f] returns: the scalar kernels replace an
    infinite result by 127.0 or -127.0, and a vector lane cannot produce
    one; the cells written by the vector loop are never a NaN either. *)
Theorem no_infinity_is_written log2f v a_base a b_base b N m :
  run (kernel log2f v) a_base a b_base b N = Some m ->
  (forall i y, (i < N)%nat -> out_cells m !! i = Some y -> isinf y = false) /\
  (forall i y, (i < vector_part v N)%nat -> out_cells m !! i = Some y ->
     isinf y = false /\ is_nan y = false).
Proof.
  intros H. destruct (run_Some_inv _ _ _ _ _ _ _ _ H) as [(Ha & Hb & _) ->].
  cbn [out_cells].
  assert (Hcell : forall i y, (i < N)%nat ->
            (kernel_cells log2f v N a ++ drop N b) !! i = Some y ->
            exists x, y = if decide (i < vector_part v N)%nat
                          then lane log2f v x else tail log2f v x).
  { intros i y Hi Hy.
    rewrite lookup_app_l in Hy by (rewrite kernel_cells_length; lia).
    destruct (lookup_lt_is_Some_2 a i ltac:(lia)) as [x Hx].
    rewrite (kernel_cells_lookup log2f v N a i x Ha Hi Hx) in Hy.
    injection Hy as <-. exists x. reflexivity. }
  pose proof (vector_part_le v N) as Hle.
  split.
  - intros i y Hi Hy. destruct (Hcell i y Hi Hy) as [x ->].
    destruct (decide (i < vector_part v N)%nat) as [Hlt|_].
    + apply fin_not_inf, lane_fin, (vector_part_width v N). lia.
    + apply tail_not_inf.
  - intros i y Hi Hy. destruct (Hcell i y ltac:(lia) Hy) as [x ->].
    destruct (decide (i < vector_part v N)%nat) as [_|?]; [|lia].
    assert (Hf : fin (lane log2f v x))
      by (apply lane_fin, (vector_part_width v N); lia).
    split; [apply fin_not_inf | apply fin_not_nan]; exact Hf.
Qed.

Lemma no_infinity_is_written_witness :
  (forall i y, (i < 5)%nat ->
     out_cells (Mem 16 [F32.pos_inf; 0x7fc00000; 0xbf800000; 0; F32.pos_inf] 32
                  [0x43000000; 0x430095c0; 0; 0xc2fe0000; 0x42fe0000]
                  [(0, 4); (4, 1)]%nat) !! i = Some y ->
     isinf y = false) /\
  (forall i y, (i < vector_part a_sse4_1 5)%nat ->
     out_cells (Mem 16 [F32.pos_inf; 0x7fc00000; 0xbf800000; 0; F32.pos_inf] 32
                  [0x43000000; 0x430095c0; 0; 0xc2fe0000; 0x42fe0000]
                  [(0, 4); (4, 1)]%nat) !! i = Some y ->
     isinf y = false /\ is_nan y = false).
Proof.
  apply (no_infinity_is_written log2f_ref a_sse4_1 16
           [F32.pos_inf; 0x7fc00000; 0xbf800000; 0; F32.pos_inf] 32 [0; 0; 0; 0; 0] 5).
  vm_compute. reflexivity.
Defined.

(** ** Whole vectors *)

Lemma lane_any_libm log2f1 log2f2 v x :
  (1 < width v)%nat -> lane log2f1 v x = lane log2f2 v x.
Proof.
  intros Hw. destruct v; cbn [width lane] in *;
    [ exfalso; lia | reflexivity | reflexivity | reflexivity | reflexivity
    | exfalso; lia | reflexivity | reflexivity | reflexivity ].
Qed.

Lemma vector_part_multiple v N :
  (1 < width v)%nat -> (N mod width v = 0)%nat -> vector_part v N = N.
Proof.
  intros Hw Hm.
  destruct v; cbn [width vector_part] in *;
    [ exfalso; lia
    | pose proof (Nat.div_mod_eq N 8); lia
    | pose proof (Nat.div_mod_eq N 8); lia
    | pose proof (Nat.div_mod_eq N 4); lia
    | pose proof (Nat.div_mod_eq N 4); lia
    | exfalso; lia
    | pose proof (Nat.div_mod_eq N 4); lia
    | pose proof (Nat.div_mod_eq N 8); lia
    | pose proof (Nat.div_mod_eq N 8); lia ].
Qed.

(** X10: when [num_points] is a multiple of the vector width, a vector
    entry point never consults the platform's [log2f]: the call, defined or
    not, is the same with any two implementations of it. *)
Theorem whole_vectors_need_no_libm log2f1 log2f2 v a_base a b_base b N :
  (1 < width v)%nat -> (N mod width v = 0)%nat ->
  run (kernel log2f1 v) a_base a b_base b N = run (kernel log2f2 v) a_base a b_base b N.
Proof.
  intros Hw Hm.
  destruct (decide ((N <= length a)%nat /\ (N <= length b)%nat /\
     ((width v <= N)%nat -> a_base mod alignment v = 0 /\ b_base mod alignment v = 0)))
    as [(Ha & Hb & Hal)|nP].
  - rewrite !kernel_run_weak by assumption. do 3 f_equal.
    unfold kernel_cells. rewrite (vector_part_multiple v N Hw Hm), Nat.sub_diag.
    cbn [take fmap list_fmap]. f_equal.
    apply list_fmap_ext. intros i x _. apply lane_any_libm. exact Hw.
  - rewrite !run_undefined by exact nP. reflexivity.
Qed.

Lemma whole_vectors_need_no_libm_witness :
  run (kernel log2f_ref u_avx2) 3
      [0x40400000; 0x3f800000; 0x40000000; 0x40800000; 0x44800000; 0x3f000000;
       0x41000000; 0x40400000] 5 [9; 9; 9; 9; 9; 9; 9; 9] 8
  = run (kernel (fun _ => 0) u_avx2) 3
      [0x40400000; 0x3f800000; 0x40000000; 0x40800000; 0x44800000; 0x3f000000;
       0x41000000; 0x40400000] 5 [9; 9; 9; 9; 9; 9; 9; 9] 8.
Proof.
  apply (whole_vectors_need_no_libm log2f_ref (fun _ => 0) u_avx2); cbn [width].
  - lia.
  - reflexivity.
Defined.

(** ** Calls on consecutive chunks *)

Lemma chunk_is_aligned v base N1 :
  (N1 mod width v = 0)%nat -> base mod alignment v = 0 ->
  (base + 4 * Z.of_nat N1) mod alignment v = 0.
Proof.
  intros Hm Hb.
  assert (H : forall W : nat, (0 < W)%nat -> (N1 mod W = 0)%nat ->
            base mod (4 * Z.of_nat W) = 0 ->
            (base + 4 * Z.of_nat N1) mod (4 * Z.of_nat W) = 0).
  { intros W HW HN HB. pose proof (Nat.div_mod_eq N1 W) as E.
    rewrite HN, Nat.add_0_r in E. rewrite E at 1.
    rewrite Nat2Z.inj_mul.
    replace (base + 4 * (Z.of_nat W * Z.of_nat (N1 / W)))
      with (base + Z.of_nat (N1 / W) * (4 * Z.of_nat W)) by lia.
    rewrite Z_mod_plus_full. exact HB. }
  destruct v; cbn [alignment width] in *;
    [ apply Z.mod_1_r
    | apply (H 8%nat); [lia | exact Hm | exact Hb]
    | apply (H 8%nat); [lia | exact Hm | exact Hb]
    | apply (H 4%nat); [lia | exact Hm | exact Hb]
    | apply Z.mod_1_r | apply Z.mod_1_r | apply Z.mod_1_r | apply Z.mod_1_r
    | apply Z.mod_1_r ].
Qed.

(** Whether cell [i] of a call on [N] points is a lane's or the tail's. *)
Lemma cell_of_chunk log2f v N1 N2 i x :
  (N1 mod width v = 0)%nat ->
  (if decide (i < vector_part v (N1 + N2))%nat then lane log2f v x else tail log2f v x)
  = if decide (i < N1)%nat
    then (if decide (i < vector_part v N1)%nat then lane log2f v x else tail log2f v x)
    else (if decide (i - N1 < vector_part v N2)%nat
          then lane log2f v x else tail log2f v x).
Proof.
  intros Hm.
  assert (Hs : (width v = 1)%nat -> lane log2f v x = tail log2f v x).
  { destruct v; cbn [width]; intros; first [reflexivity | exfalso; lia]. }
  destruct (decide (width v = 1)%nat) as [W1|W1].
  - rewrite (Hs W1). repeat destruct (decide _); reflexivity.
  - assert (Hw : (1 < width v)%nat) by (destruct v; cbn [width] in *; lia).
    assert (Hv1 : vector_part v N1 = N1) by (apply vector_part_multiple; assumption).
    assert (Hv : vector_part v (N1 + N2) = (N1 + vector_part v N2)%nat).
    { assert (G : forall W : nat, (0 < W)%nat -> (N1 mod W = 0)%nat ->
                ((N1 + N2) / W * W = N1 + N2 / W * W)%nat).
      { intros W HW HN. pose proof (Nat.div_mod_eq N1 W) as E.
        rewrite HN, Nat.add_0_r in E. rewrite E at 1.
        rewrite (Nat.mul_comm W), Nat.div_add_l by lia. lia. }
      destruct v; cbn [width vector_part] in *;
        [ exfalso; lia | apply G; lia | apply G; lia | apply G; lia | apply G; lia
        | exfalso; lia | apply G; lia | apply G; lia | apply G; lia ]. }
    rewrite Hv, Hv1.
    repeat destruct (decide _); first [reflexivity | exfalso; lia].
Qed.

Lemma kernel_cells_app log2f v a1 a2 :
  (length a1 mod width v = 0)%nat ->
  kernel_cells log2f v (length a1 + length a2) (a1 ++ a2)
  = kernel_cells log2f v (length a1) a1 ++ kernel_cells log2f v (length a2) a2.
Proof.
  intros Hm. apply list_eq_same_length with (n := (length a1 + length a2)%nat).
  - rewrite length_app, !kernel_cells_length; lia.
  - rewrite kernel_cells_length; [reflexivity | rewrite length_app; lia].
  - intros i y z Hi Hy Hz.
    destruct (lookup_lt_is_Some_2 (a1 ++ a2) i ltac:(rewrite length_app; lia)) as [x Hx].
    rewrite (kernel_cells_lookup log2f v (length a1 + length a2) (a1 ++ a2) i x
               ltac:(rewrite length_app; lia) Hi Hx) in Hy.
    rewrite (cell_of_chunk log2f v (length a1) (length a2) i x Hm) in Hy.
    destruct (decide (i < length a1)%nat) as [Hlt|Hge].
    + rewrite lookup_app_l in Hz by (rewrite kernel_cells_length; lia).
      rewrite lookup_app_l in Hx by lia.
      rewrite (kernel_cells_lookup log2f v (length a1) a1 i x ltac:(lia) Hlt Hx) in Hz.
      congruence.
    + rewrite lookup_app_r in Hz by (rewrite kernel_cells_length; lia).
      rewrite kernel_cells_length in Hz by lia.
      rewrite lookup_app_r in Hx by lia.
      rewrite (kernel_cells_lookup log2f v (length a2) a2 (i - length a1) x
                 ltac:(lia) ltac:(lia) Hx) in Hz.
      congruence.
Qed.

(** X11: a long array may be processed in chunks: if the first chunk is a
    whole number of vectors, one call on the whole array writes exactly the
    cells that a call on the first chunk followed by a call on the rest
    (both pointers advanced by the chunk) write; the advanced addresses
    meet the alignment again. *)
Theorem chunked_call log2f v a_base a1 a2 b_base b1 b2 :
  length b1 = length a1 -> length b2 = length a2 ->
  (length a1 mod width v = 0)%nat ->
  a_base mod alignment v = 0 -> b_base mod alignment v = 0 ->
  exists m m1 m2,
    run (kernel log2f v) a_base (a1 ++ a2) b_base (b1 ++ b2) (length a1 + length a2)
      = Some m /\
    run (kernel log2f v) a_base a1 b_base b1 (length a1) = Some m1 /\
    run (kernel log2f v) (a_base + 4 * Z.of_nat (length a1)) a2
        (b_base + 4 * Z.of_nat (length a1)) b2 (length a2) = Some m2 /\
    out_cells m = out_cells m1 ++ out_cells m2.
Proof.
  intros Hb1 Hb2 Hm Haa Hba.
  do 3 eexists. split; [|split; [|split]].
  - apply kernel_run; rewrite ?length_app; auto; lia.
  - apply kernel_run; auto; lia.
  - apply kernel_run; try lia; apply chunk_is_aligned; assumption.
  - cbn [out_cells].
    rewrite !drop_ge, !app_nil_r by (rewrite ?length_app; lia).
    apply kernel_cells_app. exact Hm.
Qed.

Lemma chunked_call_witness :
  exists m m1 m2,
    run (kernel log2f_ref a_sse4_1) 16
        ([0x40400000; 0x3f800000; 0x40000000; 0x40800000] ++ [0x44800000; 0x3f000000])
        32 ([0; 0; 0; 0] ++ [0; 0])
        (length [0x40400000; 0x3f800000; 0x40000000; 0x40800000]
         + length [0x44800000; 0x3f000000])
      = Some m /\
    run (kernel log2f_ref a_sse4_1) 16 [0x40400000; 0x3f800000; 0x40000000; 0x40800000]
        32 [0; 0; 0; 0] (length [0x40400000; 0x3f800000; 0x40000000; 0x40800000])
      = Some m1 /\
    run (kernel log2f_ref a_sse4_1)
        (16 + 4 * Z.of_nat (length [0x40400000; 0x3f800000; 0x40000000; 0x40800000]))
        [0x44800000; 0x3f000000]
        (32 + 4 * Z.of_nat (length [0x40400000; 0x3f800000; 0x40000000; 0x40800000]))
        [0; 0] (length [0x44800000; 0x3f000000]) = Some m2 /\
    out_cells m = out_cells m1 ++ out_cells m2.
Proof.
  apply (chunked_call log2f_ref a_sse4_1 16
           [0x40400000; 0x3f800000; 0x40000000; 0x40800000] [0x44800000; 0x3f000000]
           32 [0; 0; 0; 0] [0; 0]); reflexivity.
Defined.

(** ** Negative inputs *)





(** ** The other settings of [LOG_POLY_DEGREE] *)

(** With the setting of the header the parametrised bodies are the
    compiled ones. *)
Lemma lanes_degree_6 v :
  sse4_1_lanes_degree 6 v = Some (sse4_1_lanes v) /\
  avx2_lanes_degree 6 v = Some (avx2_lanes v) /\
  avx2_fma_lanes_degree 6 v = Some (avx2_fma_lanes v).
Proof. repeat split. Qed.

Lemma degree_cases d :
  3 <= d <= 6 -> d = 6 \/ d = 5 \/ d = 4 \/ d = 3.
Proof. lia. Qed.

Ltac lanewise_degree :=
  unfold sse4_1_lanes_degree, avx2_lanes_degree, avx2_fma_lanes_degree,
    mantissa_sse4_1, mantissa_avx2, mantissa_avx2_fma, degree_coefficients,
    degree_6, degree_5, degree_4, degree_3,
    lane_sse4_1_of, lane_avx2_of, lane_avx2_fma_of,
    POLY5, POLY4, POLY3, POLY2, POLY1, POLY0,
    POLY5_AVX2, POLY4_AVX2, POLY3_AVX2, POLY2_AVX2, POLY1_AVX2, POLY0_AVX2,
    POLY5_FMAAVX2, POLY4_FMAAVX2, POLY3_FMAAVX2, POLY2_FMAAVX2, POLY1_FMAAVX2,
    POLY0_FMAAVX2, lane_exponent, lane_frac, c0, c1, c2, c3, c4, c5,
    _mm_add_ps, _mm_mul_ps, _mm_sub_ps, _mm_or_ps, _mm_and_ps, _mm_cvtepi32_ps,
    _mm_sub_epi32, _mm_srli_epi32, _mm_and_si128, _mm_castps_si128, _mm_castsi128_ps,
    _mm_set1_ps, _mm_set1_epi32,
    _mm256_add_ps, _mm256_mul_ps, _mm256_sub_ps, _mm256_or_ps, _mm256_and_ps,
    _mm256_cvtepi32_ps, _mm256_sub_epi32, _mm256_srli_epi32, _mm256_and_si256,
    _mm256_castps_si256, _mm256_castsi256_ps, _mm256_set1_ps, _mm256_set1_epi32,
    _mm256_fmadd_ps;
  cbn [Z.eqb Pos.eqb zip_with zip fmap list_fmap option_fmap option_map replicate fst snd
       horner_of horner_fma_of];
  reflexivity.

Lemma sse4_1_lanes_degree_map d v :
  3 <= d <= 6 -> length v = 4%nat ->
  sse4_1_lanes_degree d v
    = (fun cs => lane_sse4_1_of cs <$> v) <$> degree_coefficients d.
Proof.
  intros Hd. destruct v as [|x0 [|x1 [|x2 [|x3 [|]]]]]; try discriminate. intros _.
  destruct (degree_cases d Hd) as [->|[->|[->| ->]]]; lanewise_degree.
Qed.

Lemma avx2_lanes_degree_map d v :
  3 <= d <= 6 -> length v = 8%nat ->
  avx2_lanes_degree d v
    = (fun cs => lane_avx2_of cs <$> v) <$> degree_coefficients d.
Proof.
  intros Hd.
  destruct v as [|x0 [|x1 [|x2 [|x3 [|x4 [|x5 [|x6 [|x7 [|]]]]]]]]]; try discriminate.
  intros _.
  destruct (degree_cases d Hd) as [->|[->|[->| ->]]]; lanewise_degree.
Qed.

Lemma avx2_fma_lanes_degree_map d v :
  3 <= d <= 6 -> length v = 8%nat ->
  avx2_fma_lanes_degree d v
    = (fun cs => lane_avx2_fma_of cs <$> v) <$> degree_coefficients d.
Proof.
  intros Hd.
  destruct v as [|x0 [|x1 [|x2 [|x3 [|x4 [|x5 [|x6 [|x7 [|]]]]]]]]]; try discriminate.
  intros _.
  destruct (degree_cases d Hd) as [->|[->|[->| ->]]]; lanewise_degree.
Qed.

Lemma bnd_degree_5_c0 : bnd (F32.lit 28882704548164776201 10000000000000000000) (IZR (775314176) * bpow (-28)) 0 (1479 / 512).
Proof.
  apply bnd_exact.
  - vm_compute. reflexivity.
  - unfold val.
    replace (F32.to_sf (F32.lit 28882704548164776201 10000000000000000000)) with (S754_finite false 12114284 (-22)) by (vm_compute; reflexivity).
    cbn [B2R]. rewrite IZR_cond_Zopp. cbn [sgn_R]. bpow_num. lra.
  - bpow_num. apply Rabs_le. lra.
Qed.

Lemma bnd_degree_5_c1 : bnd (F32.lit (-252074962577807006663) 100000000000000000000) (IZR (-676658560) * bpow (-28)) 0 (1291 / 512).
Proof.
  apply bnd_exact.
  - vm_compute. reflexivity.
  - unfold val.
    replace (F32.to_sf (F32.lit (-252074962577807006663) 100000000000000000000)) with (S754_finite true 10572790 (-22)) by (vm_compute; reflexivity).
    cbn [B2R]. rewrite IZR_cond_Zopp. cbn [sgn_R]. bpow_num. lra.
  - bpow_num. apply Rabs_le. lra.
Qed.

Lemma bnd_degree_5_c2 : bnd (F32.lit 148116647521213171641 100000000000000000000) (IZR (397597600) * bpow (-28)) 0 (1517 / 1024).
Proof.
  apply bnd_exact.
  - vm_compute. reflexivity.
  - unfold val.
    replace (F32.to_sf (F32.lit 148116647521213171641 100000000000000000000)) with (S754_finite false 12424925 (-23)) by (vm_compute; reflexivity).
    cbn [B2R]. rewrite IZR_cond_Zopp. cbn [sgn_R]. bpow_num. lra.
  - bpow_num. apply Rabs_le. lra.
Qed.

Lemma bnd_degree_5_c3 : bnd (F32.lit (-465725644288844778798) 1000000000000000000000) (IZR (-125017272) * bpow (-28)) 0 (477 / 1024).
Proof.
  apply bnd_exact.
  - vm_compute. reflexivity.
  - unfold val.
    replace (F32.to_sf (F32.lit (-465725644288844778798) 1000000000000000000000)) with (S754_finite true 15627159 (-25)) by (vm_compute; reflexivity).
    cbn [B2R]. rewrite IZR_cond_Zopp. cbn [sgn_R]. bpow_num. lra.
  - bpow_num. apply Rabs_le. lra.
Qed.

Lemma bnd_degree_5_c4 : bnd (F32.lit 596515482674574969533 10000000000000000000000) (IZR (16012591) * bpow (-28)) 0 (31 / 512).
Proof.
  apply bnd_exact.
  - vm_compute. reflexivity.
  - unfold val.
    replace (F32.to_sf (F32.lit 596515482674574969533 10000000000000000000000)) with (S754_finite false 16012591 (-28)) by (vm_compute; reflexivity).
    cbn [B2R]. rewrite IZR_cond_Zopp. cbn [sgn_R]. bpow_num. lra.
  - bpow_num. apply Rabs_le. lra.
Qed.

Lemma horner_of_degree_5_round frac m :
  bnd frac m 0 2 ->
  bnd (horner_of degree_5 frac) (evalR degree_5_coeffs m * bpow (-28)) (169 / 16777216) (37111 / 1024).
Proof.
  intros Hm.
  pose proof bnd_degree_5_c0 as H0. pose proof bnd_degree_5_c1 as H1. pose proof bnd_degree_5_c2 as H2. pose proof bnd_degree_5_c3 as H3. pose proof bnd_degree_5_c4 as H4.
  pose proof (bnd_mul _ _ _ _ _ _ _ _ (-3) (1 / 268435456) (31 / 256) H4 Hm ltac:(lia) ltac:(bpow_num; lra) ltac:(bpow_num; lra) ltac:(lra)) as S1.
  pose proof (bnd_add _ _ _ _ _ _ _ _ (0) (9 / 268435456) (601 / 1024) S1 H3 ltac:(lia) ltac:(bpow_num; lra) ltac:(bpow_num; lra) ltac:(lra)) as S2.
  pose proof (bnd_mul _ _ _ _ _ _ _ _ (1) (17 / 134217728) (601 / 512) S2 Hm ltac:(lia) ltac:(bpow_num; lra) ltac:(bpow_num; lra) ltac:(lra)) as S3.
  pose proof (bnd_add _ _ _ _ _ _ _ _ (2) (33 / 134217728) (2719 / 1024) S3 H2 ltac:(lia) ltac:(bpow_num; lra) ltac:(bpow_num; lra) ltac:(lra)) as S4.
  pose proof (bnd_mul _ _ _ _ _ _ _ _ (3) (49 / 67108864) (2719 / 512) S4 Hm ltac:(lia) ltac:(bpow_num; lra) ltac:(bpow_num; lra) ltac:(lra)) as S5.
  pose proof (bnd_add _ _ _ _ _ _ _ _ (3) (65 / 67108864) (2005 / 256) S5 H1 ltac:(lia) ltac:(bpow_num; lra) ltac:(bpow_num; lra) ltac:(lra)) as S6.
  pose proof (bnd_mul _ _ _ _ _ _ _ _ (4) (81 / 33554432) (2005 / 128) S6 Hm ltac:(lia) ltac:(bpow_num; lra) ltac:(bpow_num; lra) ltac:(lra)) as S7.
  pose proof (bnd_add _ _ _ _ _ _ _ _ (5) (113 / 33554432) (9499 / 512) S7 H0 ltac:(lia) ltac:(bpow_num; lra) ltac:(bpow_num; lra) ltac:(lra)) as S8.
  unfold degree_5, horner_of. eapply bnd_conv; [exact S8 | | lra | lra].
  unfold evalR, degree_5_coeffs. cbn [fold_right]. ring.
Qed.

Lemma horner_fma_of_degree_5_round frac m :
  bnd frac m 0 2 ->
  bnd (horner_fma_of degree_5 frac) (evalR degree_5_coeffs m * bpow (-28)) (169 / 16777216) (37111 / 1024).
Proof.
  intros Hm.
  pose proof bnd_degree_5_c0 as H0. pose proof bnd_degree_5_c1 as H1. pose proof bnd_degree_5_c2 as H2. pose proof bnd_degree_5_c3 as H3. pose proof bnd_degree_5_c4 as H4.
  pose proof (bnd_fma _ _ _ _ _ _ _ _ _ _ _ _ (0) (1 / 33554432) (601 / 1024) H4 Hm H3 ltac:(lia) ltac:(bpow_num; lra) ltac:(bpow_num; lra) ltac:(lra)) as S1.
  pose proof (bnd_fma _ _ _ _ _ _ _ _ _ _ _ _ (2) (3 / 16777216) (2719 / 1024) S1 Hm H2 ltac:(lia) ltac:(bpow_num; lra) ltac:(bpow_num; lra) ltac:(lra)) as S2.
  pose proof (bnd_fma _ _ _ _ _ _ _ _ _ _ _ _ (3) (5 / 8388608) (2005 / 256) S2 Hm H1 ltac:(lia) ltac:(bpow_num; lra) ltac:(bpow_num; lra) ltac:(lra)) as S3.
  pose proof (bnd_fma _ _ _ _ _ _ _ _ _ _ _ _ (5) (9 / 4194304) (9499 / 512) S3 Hm H0 ltac:(lia) ltac:(bpow_num; lra) ltac:(bpow_num; lra) ltac:(lra)) as S4.
  unfold degree_5, horner_fma_of. eapply bnd_conv; [exact S4 | | lra | lra].
  unfold evalR, degree_5_coeffs. cbn [fold_right]. ring.
Qed.

Lemma bnd_degree_4_c0 : bnd (F32.lit 261761038894603480148 100000000000000000000) (IZR (702659456) * bpow (-28)) 0 (2681 / 1024).
Proof.
  apply bnd_exact.
  - vm_compute. reflexivity.
  - unfold val.
    replace (F32.to_sf (F32.lit 261761038894603480148 100000000000000000000)) with (S754_finite false 10979054 (-22)) by (vm_compute; reflexivity).
    cbn [B2R]. rewrite IZR_cond_Zopp. cbn [sgn_R]. bpow_num. lra.
  - bpow_num. apply Rabs_le. lra.
Qed.

Lemma bnd_degree_4_c1 : bnd (F32.lit (-175647175389045657003) 100000000000000000000) (IZR (-471499296) * bpow (-28)) 0 (1799 / 1024).
Proof.
  apply bnd_exact.
  - vm_compute. reflexivity.
  - unfold val.
    replace (F32.to_sf (F32.lit (-175647175389045657003) 100000000000000000000)) with (S754_finite true 14734353 (-23)) by (vm_compute; reflexivity).
    cbn [B2R]. rewrite IZR_cond_Zopp. cbn [sgn_R]. bpow_num. lra.
  - bpow_num. apply Rabs_le. lra.
Qed.

Lemma bnd_degree_4_c2 : bnd (F32.lit 688243882994381274313 1000000000000000000000) (IZR (184749056) * bpow (-28)) 0 (705 / 1024).
Proof.
  apply bnd_exact.
  - vm_compute. reflexivity.
  - unfold val.
    replace (F32.to_sf (F32.lit 688243882994381274313 1000000000000000000000)) with (S754_finite false 11546816 (-24)) by (vm_compute; reflexivity).
    cbn [B2R]. rewrite IZR_cond_Zopp. cbn [sgn_R]. bpow_num. lra.
  - bpow_num. apply Rabs_le. lra.
Qed.

Lemma bnd_degree_4_c3 : bnd (F32.lit (-107254423828329604454) 1000000000000000000000) (IZR (-28790890) * bpow (-28)) 0 (55 / 512).
Proof.
  apply bnd_exact.
  - vm_compute. reflexivity.
  - unfold val.
    replace (F32.to_sf (F32.lit (-107254423828329604454) 1000000000000000000000)) with (S754_finite true 14395445 (-27)) by (vm_compute; reflexivity).
    cbn [B2R]. rewrite IZR_cond_Zopp. cbn [sgn_R]. bpow_num. lra.
  - bpow_num. apply Rabs_le. lra.
Qed.

Lemma horner_of_degree_4_round frac m :
  bnd frac m 0 2 ->
  bnd (horner_of degree_4 frac) (evalR degree_4_coeffs m * bpow (-28)) (169 / 16777216) (37111 / 1024).
Proof.
  intros Hm.
  pose proof bnd_degree_4_c0 as H0. pose proof bnd_degree_4_c1 as H1. pose proof bnd_degree_4_c2 as H2. pose proof bnd_degree_4_c3 as H3.
  pose proof (bnd_mul _ _ _ _ _ _ _ _ (-2) (1 / 134217728) (55 / 256) H3 Hm ltac:(lia) ltac:(bpow_num; lra) ltac:(bpow_num; lra) ltac:(lra)) as S1.
  pose proof (bnd_add _ _ _ _ _ _ _ _ (0) (5 / 134217728) (925 / 1024) S1 H2 ltac:(lia) ltac:(bpow_num; lra) ltac:(bpow_num; lra) ltac:(lra)) as S2.
  pose proof (bnd_mul _ _ _ _ _ _ _ _ (1) (9 / 67108864) (925 / 512) S2 Hm ltac:(lia) ltac:(bpow_num; lra) ltac:(bpow_num; lra) ltac:(lra)) as S3.
  pose proof (bnd_add _ _ _ _ _ _ _ _ (2) (17 / 67108864) (3649 / 1024) S3 H1 ltac:(lia) ltac:(bpow_num; lra) ltac:(bpow_num; lra) ltac:(lra)) as S4.
  pose proof (bnd_mul _ _ _ _ _ _ _ _ (3) (25 / 33554432) (3649 / 512) S4 Hm ltac:(lia) ltac:(bpow_num; lra) ltac:(bpow_num; lra) ltac:(lra)) as S5.
  pose proof (bnd_add _ _ _ _ _ _ _ _ (4) (41 / 33554432) (9979 / 1024) S5 H0 ltac:(lia) ltac:(bpow_num; lra) ltac:(bpow_num; lra) ltac:(lra)) as S6.
  unfold degree_4, horner_of. eapply bnd_conv; [exact S6 | | lra | lra].
  unfold evalR, degree_4_coeffs. cbn [fold_right]. ring.
Qed.

Lemma horner_fma_of_degree_4_round frac m :
  bnd frac m 0 2 ->
  bnd (horner_fma_of degree_4 frac) (evalR degree_4_coeffs m * bpow (-28)) (169 / 16777216) (37111 / 1024).
Proof.
  intros Hm.
  pose proof bnd_degree_4_c0 as H0. pose proof bnd_degree_4_c1 as H1. pose proof bnd_degree_4_c2 as H2. pose proof bnd_degree_4_c3 as H3.
  pose proof (bnd_fma _ _ _ _ _ _ _ _ _ _ _ _ (0) (1 / 33554432) (925 / 1024) H3 Hm H2 ltac:(lia) ltac:(bpow_num; lra) ltac:(bpow_num; lra) ltac:(lra)) as S1.
  pose proof (bnd_fma _ _ _ _ _ _ _ _ _ _ _ _ (2) (3 / 16777216) (3649 / 1024) S1 Hm H1 ltac:(lia) ltac:(bpow_num; lra) ltac:(bpow_num; lra) ltac:(lra)) as S2.
  pose proof (bnd_fma _ _ _ _ _ _ _ _ _ _ _ _ (4) (7 / 8388608) (9979 / 1024) S2 Hm H0 ltac:(lia) ltac:(bpow_num; lra) ltac:(bpow_num; lra) ltac:(lra)) as S3.
  unfold degree_4, horner_fma_of. eapply bnd_conv; [exact S3 | | lra | lra].
  unfold evalR, degree_4_coeffs. cbn [fold_right]. ring.
Qed.

Lemma bnd_degree_3_c0 : bnd (F32.lit 228330284476918490682 100000000000000000000) (IZR (612919424) * bpow (-28)) 0 (2339 / 1024).
Proof.
  apply bnd_exact.
  - vm_compute. reflexivity.
  - unfold val.
    replace (F32.to_sf (F32.lit 228330284476918490682 100000000000000000000)) with (S754_finite false 9576866 (-22)) by (vm_compute; reflexivity).
    cbn [B2R]. rewrite IZR_cond_Zopp. cbn [sgn_R]. bpow_num. lra.
  - bpow_num. apply Rabs_le. lra.
Qed.

Lemma bnd_degree_3_c1 : bnd (F32.lit (-104913055217340124191) 100000000000000000000) (IZR (-281623840) * bpow (-28)) 0 (1075 / 1024).
Proof.
  apply bnd_exact.
  - vm_compute. reflexivity.
  - unfold val.
    replace (F32.to_sf (F32.lit (-104913055217340124191) 100000000000000000000)) with (S754_finite true 8800745 (-23)) by (vm_compute; reflexivity).
    cbn [B2R]. rewrite IZR_cond_Zopp. cbn [sgn_R]. bpow_num. lra.
  - bpow_num. apply Rabs_le. lra.
Qed.

Lemma bnd_degree_3_c2 : bnd (F32.lit 204446009836232697516 1000000000000000000000) (IZR (54880556) * bpow (-28)) 0 (105 / 512).
Proof.
  apply bnd_exact.
  - vm_compute. reflexivity.
  - unfold val.
    replace (F32.to_sf (F32.lit 204446009836232697516 1000000000000000000000)) with (S754_finite false 13720139 (-26)) by (vm_compute; reflexivity).
    cbn [B2R]. rewrite IZR_cond_Zopp. cbn [sgn_R]. bpow_num. lra.
  - bpow_num. apply Rabs_le. lra.
Qed.

Lemma horner_of_degree_3_round frac m :
  bnd frac m 0 2 ->
  bnd (horner_of degree_3 frac) (evalR degree_3_coeffs m * bpow (-28)) (169 / 16777216) (37111 / 1024).
Proof.
  intros Hm.
  pose proof bnd_degree_3_c0 as H0. pose proof bnd_degree_3_c1 as H1. pose proof bnd_degree_3_c2 as H2.
  pose proof (bnd_mul _ _ _ _ _ _ _ _ (-1) (1 / 67108864) (105 / 256) H2 Hm ltac:(lia) ltac:(bpow_num; lra) ltac:(bpow_num; lra) ltac:(lra)) as S1.
  pose proof (bnd_add _ _ _ _ _ _ _ _ (1) (5 / 67108864) (1495 / 1024) S1 H1 ltac:(lia) ltac:(bpow_num; lra) ltac:(bpow_num; lra) ltac:(lra)) as S2.
  pose proof (bnd_mul _ _ _ _ _ _ _ _ (2) (9 / 33554432) (1495 / 512) S2 Hm ltac:(lia) ltac:(bpow_num; lra) ltac:(bpow_num; lra) ltac:(lra)) as S3.
  pose proof (bnd_add _ _ _ _ _ _ _ _ (3) (17 / 33554432) (5329 / 1024) S3 H0 ltac:(lia) ltac:(bpow_num; lra) ltac:(bpow_num; lra) ltac:(lra)) as S4.
  unfold degree_3, horner_of. eapply bnd_conv; [exact S4 | | lra | lra].
  unfold evalR, degree_3_coeffs. cbn [fold_right]. ring.
Qed.

Lemma horner_fma_of_degree_3_round frac m :
  bnd frac m 0 2 ->
  bnd (horner_fma_of degree_3 frac) (evalR degree_3_coeffs m * bpow (-28)) (169 / 16777216) (37111 / 1024).
Proof.
  intros Hm.
  pose proof bnd_degree_3_c0 as H0. pose proof bnd_degree_3_c1 as H1. pose proof bnd_degree_3_c2 as H2.
  pose proof (bnd_fma _ _ _ _ _ _ _ _ _ _ _ _ (1) (1 / 16777216) (1495 / 1024) H2 Hm H1 ltac:(lia) ltac:(bpow_num; lra) ltac:(bpow_num; lra) ltac:(lra)) as S1.
  pose proof (bnd_fma _ _ _ _ _ _ _ _ _ _ _ _ (3) (3 / 8388608) (5329 / 1024) S1 Hm H0 ltac:(lia) ltac:(bpow_num; lra) ltac:(bpow_num; lra) ltac:(lra)) as S2.
  unfold degree_3, horner_fma_of. eapply bnd_conv; [exact S2 | | lra | lra].
  unfold evalR, degree_3_coeffs. cbn [fold_right]. ring.
Qed.

Lemma horner_of_degree_6 frac : horner_of degree_6 frac = horner frac.
Proof. unfold degree_6, horner. cbn [horner_of]. reflexivity. Qed.

Lemma horner_fma_of_degree_6 frac : horner_fma_of degree_6 frac = horner_fma frac.
Proof. unfold degree_6, horner_fma. cbn [horner_fma_of]. reflexivity. Qed.

(** Rounding in the polynomial, for every setting. *)
Lemma horner_of_round d cs frac m :
  degree_coefficients d = Some cs -> bnd frac m 0 2 ->
  bnd (horner_of cs frac) (evalR (degree_coeffs d) m * bpow (-28))
      (169 / 16777216) (37111 / 1024) /\
  bnd (horner_fma_of cs frac) (evalR (degree_coeffs d) m * bpow (-28))
      (169 / 16777216) (37111 / 1024).
Proof.
  unfold degree_coefficients, degree_coeffs. intros Hd Hm.
  destruct (d =? 6); [|destruct (d =? 5); [|destruct (d =? 4); [|destruct (d =? 3)]]];
    try discriminate; injection Hd as <-.
  - rewrite horner_of_degree_6, horner_fma_of_degree_6. split.
    + pose proof (horner_round _ _ Hm) as H. unfold poly_x86 in H. exact H.
    + pose proof (horner_fma_round _ _ Hm) as H. unfold poly_x86 in H.
      eapply bnd_conv; [exact H | reflexivity | lra | lra].
  - split; [apply horner_of_degree_5_round | apply horner_fma_of_degree_5_round]; exact Hm.
  - split; [apply horner_of_degree_4_round | apply horner_fma_of_degree_4_round]; exact Hm.
  - split; [apply horner_of_degree_3_round | apply horner_fma_of_degree_3_round]; exact Hm.
Qed.

(** Rounding in what follows the polynomial: [E + P * (frac - 1)] in the
    operand orders of the three loop bodies. *)
Lemma lane_tail_round p frac e P m E :
  bnd p P (169 / 16777216) (37111 / 1024) -> bnd frac m 0 2 -> (1 <= m < 2)%R ->
  bnd e E 0 128 ->
  let A := (E + P * (m - 1))%R in
  let t := F32.sub frac (F32.lit 1 1) in
  bnd (F32.add e (F32.mul p t)) A (1 / 32768) 165 /\
  bnd (F32.add (F32.mul p t) e) A (1 / 32768) 165 /\
  bnd (F32.fma p t e) A (1 / 32768) 165.
Proof.
  intros HP Hm Hr HE. cbv zeta. pose proof bnd_one as Hone.
  pose proof (bnd_sub _ _ _ _ _ _ _ _ (2) (1 / 8388608) 3 Hm Hone ltac:(lia) ltac:(bpow_num; lra) ltac:(bpow_num; lra) ltac:(lra)) as S11.
  pose proof (bnd_tighten _ _ _ _ 1 S11 ltac:(apply Rabs_le; lra)) as S12.
  pose proof (bnd_mul _ _ _ _ _ _ _ _ (6) (8961473 / 549755813888) (37111 / 1024) HP S12 ltac:(lia) ltac:(bpow_num; lra) ltac:(bpow_num; lra) ltac:(lra)) as S13.
  pose proof (bnd_add _ _ _ _ _ _ _ _ (8) (13155777 / 549755813888) (168183 / 1024) HE S13 ltac:(lia) ltac:(bpow_num; lra) ltac:(bpow_num; lra) ltac:(lra)) as S14.
  pose proof (bnd_add _ _ _ _ _ _ _ _ (8) (13155777 / 549755813888) (168183 / 1024) S13 HE ltac:(lia) ltac:(bpow_num; lra) ltac:(bpow_num; lra) ltac:(lra)) as S15.
  pose proof (bnd_fma _ _ _ _ _ _ _ _ _ _ _ _ (8) (13155777 / 549755813888) (168183 / 1024) HP S12 HE ltac:(lia) ltac:(bpow_num; lra) ltac:(bpow_num; lra) ltac:(lra)) as S16.
  split; [|split].
  - eapply bnd_conv; [exact S14 | reflexivity | lra | lra].
  - eapply bnd_conv; [exact S15 | ring | lra | lra].
  - eapply bnd_conv; [exact S16 | ring | lra | lra].
Qed.

Lemma check_degree_5 : check_poly 1099511627776 13 28 229376 (0 :: shift1 degree_5_coeffs) = true.
Proof. vm_compute. reflexivity. Qed.

Lemma check_degree_4 : check_poly 1099511627776 13 28 229376 (0 :: shift1 degree_4_coeffs) = true.
Proof. vm_compute. reflexivity. Qed.

Lemma check_degree_3 : check_poly 1099511627776 13 28 851968 (0 :: shift1 degree_3_coeffs) = true.
Proof. vm_compute. reflexivity. Qed.

(** A polynomial that passes the checker, times [m - 1], against log2 on
    [1, 2). *)
Lemma poly_approx Tz l m :
  check_poly 1099511627776 13 28 Tz (0 :: shift1 l) = true ->
  (1 <= m < 2)%R ->
  (Rabs (evalR l m * bpow (-28) * (m - 1) - log2_R m) <= IZR Tz * bpow (-28))%R.
Proof.
  intros Hc Hm.
  pose proof (check_poly_sound 1099511627776 13 28 Tz 8192 (0 :: shift1 l)
                ltac:(lia) ltac:(lia) ltac:(lia) eq_refl (m - 1) Hc ltac:(lra)) as H.
  rewrite evalR_cons, evalR_shift1 in H.
  replace (1 + (m - 1))%R with m in H by ring.
  replace (evalR l m * bpow (-28) * (m - 1))%R
    with ((IZR 0 + (m - 1) * evalR l m) * bpow (- (28)))%R
    by (change (- (28)) with (-28); ring).
  exact H.
Qed.

Lemma degree_approx d m :
  3 <= d <= 6 -> (1 <= m < 2)%R ->
  (Rabs (evalR (degree_coeffs d) m * bpow (-28) * (m - 1) - log2_R m) + 1 / 32768
   <= tolerance d)%R.
Proof.
  intros Hd Hm. unfold degree_coeffs, tolerance.
  destruct (degree_cases d Hd) as [->|[->|[->| ->]]]; cbn [Z.eqb Pos.eqb].
  - pose proof (poly_x86_approx m Hm) as H. unfold poly_x86 in H. lra.
  - pose proof (poly_approx _ _ m check_degree_5 Hm) as H. revert H. bpow_num. lra.
  - pose proof (poly_approx _ _ m check_degree_4 Hm) as H. revert H. bpow_num. lra.
  - pose proof (poly_approx _ _ m check_degree_3 Hm) as H. revert H. bpow_num. lra.
Qed.

(** One lane under any setting. *)
Lemma lane_of_degree d cs x :
  3 <= d <= 6 -> degree_coefficients d = Some cs ->
  near_target (tolerance d) x (lane_sse4_1_of cs x) /\
  near_target (tolerance d) x (lane_avx2_of cs x) /\
  near_target (tolerance d) x (lane_avx2_fma_of cs x).
Proof.
  intros Hd Hcs. destruct (lane_frac_R x) as [Ff Vf].
  pose proof (sig_R_range x) as Hr. pose proof (exp_field_range x) as HEr.
  assert (Hm : bnd (lane_frac x) (sig_R x) 0 2)
    by (apply bnd_exact; [exact Ff | exact Vf | apply Rabs_le; lra]).
  assert (HEb : (Rabs (IZR (F32.exp_field x - 127)) <= 128)%R).
  { apply Rabs_le. split; [rewrite <- opp_IZR|]; apply IZR_le; lia. }
  assert (HE : bnd (lane_exponent x) (IZR (F32.exp_field x - 127)) 0 128).
  { rewrite lane_exponent_spec. unfold Spec.E.
    destruct (F32_of_Z_R (F32.exp_field x - 127) ltac:(lia)) as [FE VE].
    apply bnd_exact; assumption. }
  destruct (horner_of_round d cs _ _ Hcs Hm) as [HP HPf].
  destruct (lane_tail_round _ _ _ _ _ _ HP Hm Hr HE) as (T1 & T2 & _).
  destruct (lane_tail_round _ _ _ _ _ _ HPf Hm Hr HE) as (_ & _ & T3).
  pose proof (degree_approx d (sig_R x) Hd Hr) as HA.
  clear HP HPf Hm HE HEb Ff Vf Hcs Hd HEr.
  unfold near_target, lane_target, lane_sse4_1_of, lane_avx2_of, lane_avx2_fma_of. cbv zeta.
  cbv zeta in T1, T2, T3.
  revert T1 T2 T3 HA.
  generalize (sig_R x) (evalR (degree_coeffs d) (sig_R x) * bpow (-28))%R (tolerance d)
    (IZR (F32.exp_field x - 127)) (log2_R (sig_R x)).
  intros m P tol E L T1 T2 T3 HA.
  assert (G : forall a, bnd a (E + P * (m - 1)) (1 / 32768) 165 ->
                        fin a /\ (Rabs (val a - (E + L)) <= tol)%R).
  { intros a (Hf & He & _). split; [exact Hf|].
    replace (val a - (E + L))%R with ((val a - (E + P * (m - 1))) + (P * (m - 1) - L))%R by ring.
    eapply Rle_trans; [apply Rabs_triang|]. lra. }
  split; [|split]; apply G; assumption.
Qed.

Lemma degree_coefficients_some d :
  3 <= d <= 6 -> exists cs, degree_coefficients d = Some cs.
Proof.
  intros Hd. unfold degree_coefficients.
  destruct (degree_cases d Hd) as [->|[->|[->| ->]]]; cbn [Z.eqb Pos.eqb]; eauto.
Qed.

Lemma within_fmap tol (f : bits -> bits) (v : list bits) :
  (forall x, near_target tol x (f x)) -> Forall2 (near_target tol) v (f <$> v).
Proof.
  intros H. apply Forall2_fmap_r, Forall_Forall2_diag, Forall_forall.
  intros x _. apply H.
Qed.

(** X13: the loop bodies under the other settings of LOG_POLY_DEGREE.  For
    each of the settings 3 to 6 the SSE4.1, AVX2 and AVX2+FMA bodies return,
    in every lane and on every input pattern, a finite float close to
    E + log2(1.f): within 1e-3 for the degrees 6, 5 and 4, within 3.3e-3
    for degree 3. *)
Theorem accuracy_by_degree d a4 a8 :
  3 <= d <= 6 -> length a4 = 4%nat -> length a8 = 8%nat ->
  exists b4 b8 b8f,
    sse4_1_lanes_degree d a4 = Some b4 /\
    avx2_lanes_degree d a8 = Some b8 /\
    avx2_fma_lanes_degree d a8 = Some b8f /\
    Forall2 (near_target (tolerance d)) a4 b4 /\
    Forall2 (near_target (tolerance d)) a8 b8 /\
    Forall2 (near_target (tolerance d)) a8 b8f.
Proof.
  intros Hd H4 H8. destruct (degree_coefficients_some d Hd) as [cs Hcs].
  exists (lane_sse4_1_of cs <$> a4), (lane_avx2_of cs <$> a8), (lane_avx2_fma_of cs <$> a8).
  rewrite (sse4_1_lanes_degree_map d a4 Hd H4), (avx2_lanes_degree_map d a8 Hd H8),
    (avx2_fma_lanes_degree_map d a8 Hd H8), Hcs.
  do 3 (split; [reflexivity|]).
  split; [|split]; apply within_fmap; intros x; apply (lane_of_degree d cs x Hd Hcs).
Qed.

Lemma accuracy_by_degree_witness :
  exists b4 b8 b8f,
    sse4_1_lanes_degree 3 [0x3fffffff; 0x40490fdb; 0; 0xff800000] = Some b4 /\
    avx2_lanes_degree 3
      [0x3fffffff; 0x40490fdb; 0; 0xff800000; 1; 0x7fc00000; 0x3f800000; 0xc0000000]
      = Some b8 /\
    avx2_fma_lanes_degree 3
      [0x3fffffff; 0x40490fdb; 0; 0xff800000; 1; 0x7fc00000; 0x3f800000; 0xc0000000]
      = Some b8f /\
    Forall2 (near_target (tolerance 3)) [0x3fffffff; 0x40490fdb; 0; 0xff800000] b4 /\
    Forall2 (near_target (tolerance 3))
      [0x3fffffff; 0x40490fdb; 0; 0xff800000; 1; 0x7fc00000; 0x3f800000; 0xc0000000] b8 /\
    Forall2 (near_target (tolerance 3))
      [0x3fffffff; 0x40490fdb; 0; 0xff800000; 1; 0x7fc00000; 0x3f800000; 0xc0000000] b8f.
Proof.
  apply (accuracy_by_degree 3
           [0x3fffffff; 0x40490fdb; 0; 0xff800000]
           [0x3fffffff; 0x40490fdb; 0; 0xff800000; 1; 0x7fc00000; 0x3f800000; 0xc0000000]).
  - lia.
  - reflexivity.
  - reflexivity.
Defined.

Lemma val_of_bits y s m e :
  F32.to_sf y = S754_finite s m e -> val y = (IZR (cond_Zopp s (Zpos m)) * bpow e)%R.
Proof. intros H. unfold val. rewrite H. reflexivity. Qed.

(** X14: with LOG_POLY_DEGREE 3 the bodies are not within 1e-3 of log2:
    on the largest float below 2.0 every lane of the three bodies returns
    more than 1.0028, while the logarithm is below 1. *)
Theorem degree_3_misses_1e3 :
  exists x y yf,
    normal_pos x /\
    sse4_1_lanes_degree 3 (replicate 4 x) = Some (replicate 4 y) /\
    avx2_lanes_degree 3 (replicate 8 x) = Some (replicate 8 y) /\
    avx2_fma_lanes_degree 3 (replicate 8 x) = Some (replicate 8 yf) /\
    (val y - log2_R (val x) > 28 / 10000)%R /\
    (val yf - log2_R (val x) > 28 / 10000)%R.
Proof.
  exists 0x3fffffff, (lane_sse4_1_of degree_3 0x3fffffff),
    (lane_avx2_fma_of degree_3 0x3fffffff).
  assert (Hn : normal_pos 0x3fffffff) by (unfold normal_pos; lia).
  split; [exact Hn|].
  split; [rewrite sse4_1_lanes_degree_map by (try reflexivity; lia); reflexivity|].
  split.
  { rewrite avx2_lanes_degree_map by (try reflexivity; lia).
    cbn [degree_coefficients Z.eqb Pos.eqb option_fmap option_map fmap replicate list_fmap].
    unfold lane_avx2_of, lane_sse4_1_of. cbv zeta. rewrite F32_add_comm. reflexivity. }
  split; [rewrite avx2_fma_lanes_degree_map by (try reflexivity; lia); reflexivity|].
  rewrite (log2_R_normal_pos _ Hn).
  pose proof (log2_sig_range 0x3fffffff) as HL.
  change (exp_Z 0x3fffffff) with 0.
  revert HL. generalize (log2_R (sig_R 0x3fffffff)). intros L HL.
  assert (V1 : F32.to_sf (lane_sse4_1_of degree_3 0x3fffffff)
               = S754_finite false 8412311 (-23)) by (vm_compute; reflexivity).
  assert (V2 : F32.to_sf (lane_avx2_fma_of degree_3 0x3fffffff)
               = S754_finite false 8412311 (-23)) by (vm_compute; reflexivity).
  rewrite (val_of_bits _ _ _ _ V1), (val_of_bits _ _ _ _ V2).
  clear V1 V2 Hn. cbn [cond_Zopp]. bpow_num. lra.
Qed.
